(** * Fuzzy C-Means clusterer (labs/w1/algorithms/fcm.py)

    A shallow embedding of the [FuzzyCMeans] class and the properties of its
    membership matrix [u], its centroids and its objective.

    Numbers.  The arrays of the class hold numpy [float64] values.  They are
    modelled by [float64] below: a real number or one of the three special
    values an IEEE 754 operation returns where no real result exists
    (numpy does not raise on a division by zero, it yields [inf] or [nan]).
    Finite results are exact: rounding, overflow and underflow are not
    modelled, and the two zeros are not told apart.  Python scalars ([m],
    [epsilon]) are finite reals, and Python's own division raises
    [ZeroDivisionError].  A statement whose conclusion rounding could
    change carries its tolerance, and the bounds on the data that keep
    float64 away from overflow and underflow, as hypotheses.

    Arrays.  A 2-D array is the list of its rows, so an array without rows
    does not keep its number of columns: the [d] of a [(0, d)] array is
    lost. *)

From Stdlib Require Import Reals Lra Lia List ZArith Bool Arith.
From Stdlib Require String.
Import String.StringSyntax.
Delimit Scope string_scope with string.
Import ListNotations.
Open Scope R_scope.

(* ------------------------------------------------------------------ *)
(** ** float64 arithmetic *)

Inductive float64 : Type :=
| Fin (r : R)
| PInf
| NInf
| NaN.

Definition fneg (a : float64) : float64 :=
  match a with
  | Fin x => Fin (- x)
  | PInf => NInf
  | NInf => PInf
  | NaN => NaN
  end.

Definition fadd (a b : float64) : float64 :=
  match a, b with
  | NaN, _ | _, NaN => NaN
  | Fin x, Fin y => Fin (x + y)
  | PInf, NInf | NInf, PInf => NaN
  | PInf, _ | _, PInf => PInf
  | NInf, _ | _, NInf => NInf
  end.

Definition fsub (a b : float64) : float64 := fadd a (fneg b).

(** The infinity carrying the sign of [x], or [NaN] when [x] is zero. *)
Definition signed_inf (x : R) : float64 :=
  if Req_dec_T x 0 then NaN else if Rlt_dec 0 x then PInf else NInf.

Definition fmul (a b : float64) : float64 :=
  match a, b with
  | NaN, _ | _, NaN => NaN
  | Fin x, Fin y => Fin (x * y)
  | Fin x, PInf | PInf, Fin x => signed_inf x
  | Fin x, NInf | NInf, Fin x => signed_inf (- x)
  | PInf, PInf | NInf, NInf => PInf
  | PInf, NInf | NInf, PInf => NInf
  end.

(** [x / 0] is [nan] for [x = 0] and an infinity otherwise; the zero
    denominators of this program are norms and sums of non-negative
    terms, so the zero is read as [+0]. *)
Definition fdiv (a b : float64) : float64 :=
  match a, b with
  | NaN, _ | _, NaN => NaN
  | Fin x, Fin y => if Req_dec_T y 0 then signed_inf x else Fin (x / y)
  | Fin _, PInf | Fin _, NInf => Fin 0
  | PInf, Fin y => if Rlt_dec y 0 then NInf else PInf
  | NInf, Fin y => if Rlt_dec y 0 then PInf else NInf
  | _, _ => NaN
  end.

Definition fsqrt (a : float64) : float64 :=
  match a with
  | Fin x => if Rlt_dec x 0 then NaN else Fin (sqrt x)
  | PInf => PInf
  | NInf | NaN => NaN
  end.

Definition fabs (a : float64) : float64 :=
  match a with
  | Fin x => Fin (Rabs x)
  | PInf | NInf => PInf
  | NaN => NaN
  end.

(** [a < b]; false as soon as one side is [nan]. *)
Definition flt (a b : float64) : bool :=
  match a, b with
  | NaN, _ | _, NaN => false
  | Fin x, Fin y => if Rlt_dec x y then true else false
  | _, NInf => false
  | NInf, _ => true
  | PInf, _ => false
  | Fin _, PInf => true
  end.

(** [a <= b]; false as soon as one side is [nan]. *)
Definition fle (a b : float64) : bool :=
  match a, b with
  | NaN, _ | _, NaN => false
  | Fin x, Fin y => if Rle_dec x y then true else false
  | NInf, _ => true
  | _, PInf => true
  | _, _ => false
  end.

(** [np.maximum]: the larger value, [nan] if either is [nan]. *)
Definition fmaximum (a b : float64) : float64 :=
  match a, b with
  | NaN, _ | _, NaN => NaN
  | _, _ => if flt a b then b else a
  end.

(** The integer a real exponent denotes, if it denotes one. *)
Definition int_value (y : R) : option Z :=
  if Req_dec_T (IZR (Int_part y)) y then Some (Int_part y) else None.

(** [x ** y] for a float64 base and a finite exponent (C [pow]). *)
Definition fpow (x : float64) (y : R) : float64 :=
  if Req_dec_T y 0 then Fin 1
  else
    match x with
    | NaN => NaN
    | Fin r =>
        if Rlt_dec 0 r then Fin (Rpower r y)
        else if Req_dec_T r 0 then (if Rlt_dec 0 y then Fin 0 else PInf)
        else match int_value y with
             | Some z => Fin (powerRZ r z)
             | None => NaN
             end
    | PInf => if Rlt_dec 0 y then PInf else Fin 0
    | NInf =>
        if Rlt_dec 0 y
        then match int_value y with
             | Some z => if Z.odd z then NInf else PInf
             | None => PInf
             end
        else Fin 0
    end.

Definition fsum (l : list float64) : float64 := fold_right fadd (Fin 0) l.

Definition is_finite (a : float64) : bool :=
  match a with Fin _ => true | _ => false end.

(* ------------------------------------------------------------------ *)
(** ** Python exceptions and fallible pure operations *)

Inductive exn : Type :=
| ZeroDivisionError
| IndexError
| ValueError.

Inductive result (A : Type) : Type :=
| Ok (a : A)
| Error (e : exn).
Arguments Ok {A} a.
Arguments Error {A} e.

Definition rbind {A B} (r : result A) (k : A -> result B) : result B :=
  match r with
  | Ok a => k a
  | Error e => Error e
  end.

Fixpoint mapM {A B} (f : A -> result B) (l : list A) : result (list B) :=
  match l with
  | [] => Ok []
  | x :: xs => rbind (f x) (fun y => rbind (mapM f xs) (fun ys => Ok (y :: ys)))
  end.

(** Python's [a / b] on Python numbers. *)
Definition py_truediv (a b : R) : result R :=
  if Req_dec_T b 0 then Error ZeroDivisionError else Ok (a / b).

(** [l[i]] for [i] taken from a [range]. *)
Definition getitem {A} (l : list A) (i : nat) : result A :=
  match nth_error l i with
  | Some x => Ok x
  | None => Error IndexError
  end.

(* ------------------------------------------------------------------ *)
(** ** numpy arrays: a 1-D array is a list, a 2-D array a list of rows *)

Abbreviation vector := (list float64) (only parsing).
Abbreviation matrix := (list (list float64)) (only parsing).

Definition range (n : nat) : list nat := seq 0 n.

Definition ncols (a : matrix) : nat :=
  match a with
  | [] => 0%nat
  | r :: _ => length r
  end.

Definition column (a : matrix) (j : nat) : vector :=
  map (fun r => nth j r NaN) a.

(** Shape [(k, n)]. *)
Definition has_shape (k n : nat) (a : matrix) : Prop :=
  length a = k /\ Forall (fun r => length r = n) a.

(** numpy broadcasting along one axis: equal lengths pair up, a length-1
    side is repeated, anything else is a [ValueError]. *)
Definition broadcast {A B C} (f : A -> B -> result C)
    (a : list A) (b : list B) : result (list C) :=
  if (length a =? length b)%nat
  then mapM (fun p => f (fst p) (snd p)) (combine a b)
  else
    match a, b with
    | [x], _ => mapM (f x) b
    | _, [y] => mapM (fun x => f x y) a
    | _, _ => Error ValueError
    end.

Definition np_sub1 : vector -> vector -> result vector :=
  broadcast (fun x y => Ok (fsub x y)).

Definition np_sub2 : matrix -> matrix -> result matrix :=
  broadcast np_sub1.

Definition np_div2 : matrix -> matrix -> result matrix :=
  broadcast (broadcast (fun x y => Ok (fdiv x y))).

(** [a ** y], elementwise. *)
Definition np_pow (a : matrix) (y : R) : matrix :=
  map (map (fun x => fpow x y)) a.

(** [a.sum(axis=0)]: one sum per column. *)
Definition sum_axis0 (a : matrix) : vector :=
  map (fun j => fsum (column a j)) (range (ncols a)).

(** [a.sum(axis=1, keepdims=True)]: one sum per row, as a column. *)
Definition sum_axis1_keepdims (a : matrix) : matrix :=
  map (fun r => [fsum r]) a.

(** [a @ b] for 2-D arrays. *)
Definition matmul (a b : matrix) : result matrix :=
  if forallb (fun r => (length r =? length b)%nat) a
  then Ok (map (fun r =>
                  map (fun j => fsum (map (fun p => fmul (fst p) (snd p))
                                          (combine r (column b j))))
                      (range (ncols b))) a)
  else Error ValueError.

(** [np.linalg.norm(v)] of a 1-D array: [sqrt(v.dot(v))]. *)
Definition sqnorm (v : vector) : float64 := fsum (map (fun x => fmul x x) v).
Definition norm (v : vector) : float64 := fsqrt (sqnorm v).

(** [np.linalg.norm(a, ord=1)] of a 2-D array: the largest column sum of
    absolute values; the maximum of no column is a [ValueError].  (A list
    of rows cannot tell a [(0, d)] array from a [(0, 0)] one; the class
    holds at least one centroid.) *)
Definition norm_ord1 (a : matrix) : result float64 :=
  match sum_axis0 (map (map fabs) a) with
  | [] => Error ValueError
  | c :: cs => Ok (fold_left fmaximum cs c)
  end.

(** [a[k, i] = v] *)
Definition setitem2 (a : matrix) (k i : nat) (v : float64) : result matrix :=
  match nth_error a k with
  | None => Error IndexError
  | Some r =>
      if (i <? length r)%nat
      then Ok (firstn k a ++ (firstn i r ++ v :: skipn (S i) r) :: skipn (S k) a)
      else Error IndexError
  end.

(* ------------------------------------------------------------------ *)
(** ** The clusterer and its methods *)

(** The attributes the methods of [FuzzyCMeans] read and write.  [K], [X],
    [centroids], [it] and [max_it] are set by the base class [KMeans]
    (algorithms/kmeans.py); [m], [epsilon] and [u] by [FuzzyCMeans]. *)
Record FuzzyCMeans : Type := mkFCM {
  self_K : nat;
  self_X : matrix;
  self_centroids : matrix;
  self_it : Z;
  self_max_it : Z;
  self_m : R;
  self_epsilon : R;
  self_u : matrix
}.

Definition set_centroids (c : matrix) (s : FuzzyCMeans) : FuzzyCMeans :=
  mkFCM (self_K s) (self_X s) c (self_it s) (self_max_it s)
        (self_m s) (self_epsilon s) (self_u s).

Definition set_u (w : matrix) (s : FuzzyCMeans) : FuzzyCMeans :=
  mkFCM (self_K s) (self_X s) (self_centroids s) (self_it s) (self_max_it s)
        (self_m s) (self_epsilon s) w.

Definition set_m_epsilon (mv ev : R) (s : FuzzyCMeans) : FuzzyCMeans :=
  mkFCM (self_K s) (self_X s) (self_centroids s) (self_it s) (self_max_it s)
        mv ev (self_u s).

(** A method runs on the instance and either returns a value or raises;
    both leave the instance in the state reached so far. *)
Inductive outcome (A : Type) : Type :=
| Return (a : A) (s : FuzzyCMeans)
| Raise (e : exn) (s : FuzzyCMeans).
Arguments Return {A} a s.
Arguments Raise {A} e s.

Definition M (A : Type) : Type := FuzzyCMeans -> outcome A.

Definition ret {A} (a : A) : M A := fun s => Return a s.

Definition bind {A B} (c : M A) (k : A -> M B) : M B :=
  fun s =>
    match c s with
    | Return a s' => k a s'
    | Raise e s' => Raise e s'
    end.

Definition get : M FuzzyCMeans := fun s => Return s s.
Definition modify (f : FuzzyCMeans -> FuzzyCMeans) : M unit :=
  fun s => Return tt (f s).

Definition lift {A} (r : result A) : M A :=
  fun s =>
    match r with
    | Ok a => Return a s
    | Error e => Raise e s
    end.

Declare Scope fcm_scope.
Delimit Scope fcm_scope with fcm.
Notation "x <- c ;; k" := (bind c (fun x => k))
  (at level 61, c at next level, right associativity) : fcm_scope.
Notation "c ;; k" := (bind c (fun _ => k))
  (at level 61, right associativity) : fcm_scope.
Open Scope fcm_scope.

(** [for x in l: body(x)] *)
Fixpoint for_in {A} (l : list A) (body : A -> M unit) : M unit :=
  match l with
  | [] => ret tt
  | x :: xs => body x ;; for_in xs body
  end.

(** A [for] loop that carries a local variable. *)
Fixpoint fold_in {A B} (l : list A) (acc : B) (body : A -> B -> M B) : M B :=
  match l with
  | [] => ret acc
  | x :: xs => acc' <- body x acc ;; fold_in xs acc' body
  end.

(** [u / u.sum(axis=0)[None, :]] *)
Definition normalize_columns (w : matrix) : result matrix :=
  np_div2 w [sum_axis0 w].

(** [_init_u]; [rand k i] is the value [np.random.random] draws for entry
    [(k, i)], a real of [[0, 1)]. *)
Definition _init_u (rand : nat -> nat -> R) : M unit :=
  s <- get ;;
  let w := map (fun k => map (fun i => Fin (rand k i))
                             (range (length (self_X s))))
               (range (self_K s)) in
  w' <- lift (normalize_columns w) ;;
  modify (set_u w').

(** [_update_v] *)
Definition _update_v : M unit :=
  s <- get ;;
  let u_pow_m := np_pow (self_u s) (self_m s) in
  n_term <- lift (matmul u_pow_m (self_X s)) ;;
  let d_term := sum_axis1_keepdims u_pow_m in
  c <- lift (np_div2 n_term d_term) ;;
  modify (set_centroids c).

(** [np.linalg.norm(self.X[i] - self.centroids[k])] *)
Definition distance (i k : nat) : M float64 :=
  s <- get ;;
  xi <- lift (getitem (self_X s) i) ;;
  ck <- lift (getitem (self_centroids s) k) ;;
  d <- lift (np_sub1 xi ck) ;;
  ret (norm d).

(** [_loss]; the accumulator [res] starts at the integer 0. *)
Definition _loss : M float64 :=
  s0 <- get ;;
  fold_in (range (length (self_X s0))) (Fin 0) (fun i res =>
    s1 <- get ;;
    fold_in (range (self_K s1)) res (fun k res =>
      s <- get ;;
      row <- lift (getitem (self_u s) k) ;;
      u_ki <- lift (getitem row i) ;;
      d <- distance i k ;;
      ret (fadd res (fmul (fpow u_ki (self_m s)) (fpow d 2))))).

(** The body of the two outer loops of [_update_u] at [(k, i)].  [u_ki]
    starts as the Python integer 0: if [self.u] has no row the inner loop
    adds nothing and [0 ** -1] raises; otherwise [u_ki] is a float64 and
    [** -1] is numpy's. *)
Definition update_u_entry (k i : nat) : M unit :=
  num <- distance i k ;;
  s <- get ;;
  u_ki <- fold_in (range (length (self_u s))) (Fin 0) (fun j u_ki =>
            den <- distance i j ;;
            s' <- get ;;
            e <- lift (py_truediv 2 (self_m s' - 1)) ;;
            ret (fadd u_ki (fpow (fdiv num den) e))) ;;
  u_ki <- (if (length (self_u s) =? 0)%nat
           then lift (Error ZeroDivisionError)
           else ret (fpow u_ki (-1))) ;;
  s' <- get ;;
  w <- lift (setitem2 (self_u s') k i u_ki) ;;
  modify (set_u w).

(** [_update_u] *)
Definition _update_u : M unit :=
  s0 <- get ;;
  for_in (range (self_K s0)) (fun k =>
    s1 <- get ;;
    for_in (range (length (self_X s1))) (fun i => update_u_entry k i)) ;;
  s <- get ;;
  w <- lift (normalize_columns (self_u s)) ;;
  modify (set_u w).

(** [_compute_centroids]; each [logging.debug] call formats [self._loss()]
    into its message, so the loss is computed twice and dropped. *)
Definition _compute_centroids : M unit :=
  _update_v ;;
  _ <- _loss ;;
  _update_u ;;
  _ <- _loss ;;
  ret tt.

(** [_check_convergence] *)
Definition _check_convergence (previous_centroids : option matrix) : M bool :=
  s <- get ;;
  if (self_it s >=? self_max_it s)%Z then ret true
  else
    match previous_centroids with
    | Some p =>
        d <- lift (np_sub2 (self_centroids s) p) ;;
        n <- lift (norm_ord1 d) ;;
        ret (flt n (Fin (self_epsilon s)))
    | None => ret false
    end.

(** [predict] *)
Definition predict (X' : matrix) : M (matrix * matrix) :=
  s <- get ;;
  ret (self_u s, self_centroids s).

Section BaseClass.
(** [KMeans.__init__] and [KMeans._init_centroids] live in
    algorithms/kmeans.py; the subclass calls them through [super()]. *)
Variable kwargs : Type.
Variable KMeans__init__ : kwargs -> M unit.
Variable KMeans_init_centroids : M unit.

(** [__init__] *)
Definition __init__ (mv ev : R) (kw : kwargs) : M unit :=
  modify (set_m_epsilon mv ev) ;;
  KMeans__init__ kw.

(** [_init_centroids] *)
Definition _init_centroids (rand : nat -> nat -> R) : M unit :=
  KMeans_init_centroids ;;
  _init_u rand.
End BaseClass.

(* ------------------------------------------------------------------ *)
(** ** Quantities the properties are stated with *)

(** [a[k, i]] read without bounds check (used below the bounds only). *)
Definition entry (a : matrix) (k i : nat) : float64 :=
  nth i (nth k a []) NaN.

(** The instance holds [n] points of dimension [d], [K] centroids of
    dimension [d] and a [K] by [n] membership matrix. *)
Definition well_shaped (n d : nat) (s : FuzzyCMeans) : Prop :=
  has_shape n d (self_X s)
  /\ has_shape (self_K s) d (self_centroids s)
  /\ has_shape (self_K s) n (self_u s).

(** All entries are real numbers. *)
Definition all_finite (a : matrix) : Prop :=
  Forall (Forall (fun x => is_finite x = true)) a.

(** The squared Euclidean distance, coordinate by coordinate. *)
Definition sqdist (x v : vector) : float64 :=
  fsum (map (fun p => fmul (fsub (fst p) (snd p)) (fsub (fst p) (snd p)))
            (combine x v)).

(** The objective as the specification writes it:
    the sum over the points [i] and the clusters [k] of
    [U[k,i]^m * |x_i - v_k|^2]. *)
Definition objective (s : FuzzyCMeans) : float64 :=
  fsum (map (fun i =>
          fsum (map (fun k =>
                  fmul (fpow (entry (self_u s) k i) (self_m s))
                       (sqdist (nth i (self_X s) [])
                               (nth k (self_centroids s) [])))
                    (range (self_K s))))
            (range (length (self_X s)))).

(** The weighted mean as the specification writes it, for coordinate [j]
    of cluster [k]: [(sum_i U[k,i]^m * x_i[j]) / (sum_i U[k,i]^m)]. *)
Definition weight_sum (s : FuzzyCMeans) (k : nat) : float64 :=
  fsum (map (fun i => fpow (entry (self_u s) k i) (self_m s))
            (range (length (self_X s)))).

Definition weighted_mean (s : FuzzyCMeans) (k j : nat) : float64 :=
  fdiv (fsum (map (fun i => fmul (fpow (entry (self_u s) k i) (self_m s))
                                 (entry (self_X s) i j))
                  (range (length (self_X s)))))
       (weight_sum s k).

(** What [_update_v] stores, row by row. *)
Definition new_centroids (s : FuzzyCMeans) : matrix :=
  map (fun r =>
         map (fun j =>
                fdiv (fsum (map (fun p => fmul (fst p) (snd p))
                                (combine (map (fun x => fpow x (self_m s)) r)
                                         (column (self_X s) j))))
                     (fsum (map (fun x => fpow x (self_m s)) r)))
             (range (ncols (self_X s))))
      (self_u s).

(** The sum of the membership of point [i] over the clusters. *)
Definition column_sum (s : FuzzyCMeans) (i : nat) : float64 :=
  fsum (column (self_u s) i).

(** Values that are zero or more, [inf] or [nan]: what sums of squares are. *)
Definition nonneg (a : float64) : Prop :=
  match a with
  | Fin x => 0 <= x
  | PInf | NaN => True
  | NInf => False
  end.

(** [np.linalg.norm(self.X[i] - self.centroids[k])], read without bounds
    check. *)
Definition dist (s : FuzzyCMeans) (i k : nat) : float64 :=
  norm (map (fun p => fsub (fst p) (snd p))
            (combine (nth i (self_X s) []) (nth k (self_centroids s) []))).

(** What the loops of [_update_u] write at [(k, i)], before the columns are
    normalised. *)
Definition raw_membership (s : FuzzyCMeans) (k i : nat) : float64 :=
  fpow (fsum (map (fun j => fpow (fdiv (dist s i k) (dist s i j))
                                 (2 / (self_m s - 1)))
                  (range (length (self_u s)))))
       (-1).

Definition raw_u (s : FuzzyCMeans) : matrix :=
  map (fun k => map (fun i => raw_membership s k i)
                    (range (length (self_X s))))
      (range (self_K s)).

(** [w / w.sum(axis=0)[None, :]] when it is defined. *)
Definition normalized (w : matrix) : matrix :=
  map (fun r => map (fun p => fdiv (fst p) (snd p)) (combine r (sum_axis0 w))) w.

(** [l[i] = x] on a list. *)
Definition upd {A} (l : list A) (i : nat) (x : A) : list A :=
  firstn i l ++ x :: skipn (S i) l.

(** The real number a finite value stands for. *)
Definition to_R (a : float64) : R :=
  match a with
  | Fin r => r
  | _ => 0
  end.

Definition Rsum (l : list R) : R := fold_right Rplus 0 l.

(** The movement of the centroids in coordinate [j] since the snapshot
    [p]: the sum over the [k] clusters of [|c[k0, j] - p[k0, j]|]. *)
Definition column_movement (c p : matrix) (k j : nat) : R :=
  Rsum (map (fun k0 => Rabs (to_R (entry c k0 j) - to_R (entry p k0 j)))
            (range k)).

(** The L1 size of the movement: the sum of [|c[k0, j] - p[k0, j]|] over
    all the clusters and all the coordinates. *)
Definition movement_l1 (c p : matrix) (k d : nat) : R :=
  Rsum (map (fun j => column_movement c p k j) (range d)).

(** Point [i] sits on centroid [k]. *)
Definition coincides (s : FuzzyCMeans) (i k : nat) : Prop :=
  dist s i k = Fin 0.

(** The matrix [_init_u] draws before it normalises the columns. *)
Definition drawn (rand : nat -> nat -> R) (s : FuzzyCMeans) : list (list float64) :=
  map (fun k => map (fun i => Fin (rand k i)) (range (length (self_X s))))
      (range (self_K s)).

(** The real numbers behind the membership update, for finite data and
    points off the centroids: the distance, the sum of the distance ratios
    raised to [2 / (m - 1)], and its inverse. *)
Definition delta (s : FuzzyCMeans) (i k : nat) : R := to_R (dist s i k).

Definition ratio_sum (s : FuzzyCMeans) (k i : nat) : R :=
  Rsum (map (fun j => Rpower (delta s i k / delta s i j) (2 / (self_m s - 1)))
            (range (length (self_u s)))).

Definition raw_real (s : FuzzyCMeans) (k i : nat) : R :=
  Rpower (ratio_sum s k i) (-1).

(** [u ** m] on a real [u >= 0], for [m > 0]. *)
Definition pw (x y : R) : R := if Rlt_dec 0 x then Rpower x y else 0.

(** The real numbers behind the objective: the weight [U[k,i]^m], the
    squared distance, and their double sum. *)
Definition weight (s : FuzzyCMeans) (k i : nat) : R :=
  to_R (fpow (entry (self_u s) k i) (self_m s)).

Definition sqd (s : FuzzyCMeans) (i k : nat) : R :=
  to_R (sqdist (nth i (self_X s) []) (nth k (self_centroids s) [])).

Definition loss_real (s : FuzzyCMeans) : R :=
  Rsum (map (fun i => Rsum (map (fun k => weight s k i * sqd s i k)
                                (range (self_K s))))
            (range (length (self_X s)))).

(** Real readings of the entries of [X], [centroids] and [u]. *)
Definition rx (s : FuzzyCMeans) (i j : nat) : R := to_R (entry (self_X s) i j).
Definition rv (s : FuzzyCMeans) (k j : nat) : R :=
  to_R (entry (self_centroids s) k j).
Definition ru (s : FuzzyCMeans) (k i : nat) : R := to_R (entry (self_u s) k i).

(** A membership matrix as the program holds one: real entries that are
    zero or more, and columns that sum to 1 within the tolerance 1e-9. *)
Definition membership_matrix (n : nat) (s : FuzzyCMeans) : Prop :=
  all_finite (self_u s)
  /\ (forall k i, (k < self_K s)%nat -> (i < n)%nat -> 0 <= ru s k i)
  /\ (forall i, (i < n)%nat ->
        exists S, column_sum s i = Fin S /\ Rabs (S - 1) <= / 1000000000).

(** Every cluster has a point with membership at least 1/1000 in it. *)
Definition every_cluster_weighs (n : nat) (s : FuzzyCMeans) : Prop :=
  forall k, (k < self_K s)%nat -> exists i, (i < n)%nat /\ / 1000 <= ru s k i.

(** Every membership of point [i] is [nan], and so is their sum. *)
Definition nan_column (s : FuzzyCMeans) (i : nat) : Prop :=
  (forall k, (k < self_K s)%nat -> entry (self_u s) k i = NaN)
  /\ column_sum s i = NaN.

(** The memberships of point [i] are real numbers and their sum is 1, within
    the tolerance 1e-9. *)
Definition unit_column (s : FuzzyCMeans) (i : nat) : Prop :=
  (forall k, (k < self_K s)%nat -> is_finite (entry (self_u s) k i) = true)
  /\ exists S, column_sum s i = Fin S /\ Rabs (S - 1) <= / 1000000000.

(** All entries are real numbers of absolute value at most [B]. *)
Definition bounded (B : R) (a : matrix) : Prop :=
  Forall (Forall (fun x => exists r, x = Fin r /\ Rabs r <= B)) a.

(** Data on which the distances from point [i] neither overflow nor
    underflow in float64: at most a million coordinates, each within
    [1e100] of zero, and every centroid at least [1e-100] away from the
    point. *)
Definition in_float_range (d : nat) (s : FuzzyCMeans) (i : nat) : Prop :=
  (Z.of_nat d <= 1000000)%Z
  /\ bounded (10 ^ 100) (self_X s)
  /\ bounded (10 ^ 100) (self_centroids s)
  /\ forall k, (k < self_K s)%nat -> / 10 ^ 100 <= delta s i k.

(** The distance from point [i] to centroid [k] is a positive real. *)
Definition apart (s : FuzzyCMeans) (i k : nat) : Prop :=
  exists r, dist s i k = Fin r /\ 0 < r.

(** *** Example instances *)

(** One cluster, one point sitting on the centroid, budget exhausted. *)
Definition one_point : FuzzyCMeans :=
  mkFCM 1 [[Fin 5]] [[Fin 5]] 10 10 2 (1 / 100) [[Fin 1]].

(** Two clusters, two points on a line, none on a centroid. *)
Definition two_points : FuzzyCMeans :=
  mkFCM 2 [[Fin 0]; [Fin 3]] [[Fin 1]; [Fin 2]] 0 10 2 (1 / 100)
        [[Fin (1 / 2); Fin (1 / 2)]; [Fin (1 / 2); Fin (1 / 2)]].

(** Two clusters, two points; no point has any membership in cluster 0. *)
Definition zero_weight : FuzzyCMeans :=
  mkFCM 2 [[Fin 0]; [Fin 2]] [[Fin 7]; [Fin 3]] 0 10 2 (1 / 100)
        [[Fin 0; Fin 0]; [Fin 1; Fin 1]].

(** Two clusters, one point, sitting on the centroid of cluster 0. *)
Definition on_centroid : FuzzyCMeans :=
  mkFCM 2 [[Fin 0]] [[Fin 0]; [Fin 1]] 0 10 2 (1 / 100)
        [[Fin (1 / 2)]; [Fin (1 / 2)]].

(** [two_points] with the fuzziness exponent set to 1. *)
Definition crisp_m : FuzzyCMeans :=
  mkFCM 2 [[Fin 0]; [Fin 3]] [[Fin 1]; [Fin 2]] 0 10 1 (1 / 100)
        [[Fin (1 / 2); Fin (1 / 2)]; [Fin (1 / 2); Fin (1 / 2)]].

(** A dataset of one point and one cluster, before [u] is initialised;
    the centroid is the data row. *)
Definition fresh_single : FuzzyCMeans :=
  mkFCM 1 [[Fin 5]] [[Fin 5]] 0 10 2 (1 / 100) [].

(** One cluster whose centroid, 2 away from the only point, moves onto
    it at the next centroid update. *)
Definition drift : FuzzyCMeans :=
  mkFCM 1 [[Fin 5]] [[Fin 3]] 0 10 2 (1 / 100) [[Fin 1]].

(** Two clusters in the plane: since the snapshot [[[0, 0], [0, 0]]] the
    first centroid has moved by 3 along the first coordinate and the second
    by 4 along the second; the tolerance is 5 and there is budget left. *)
Definition two_moves : FuzzyCMeans :=
  mkFCM 2 [[Fin 0; Fin 0]] [[Fin 3; Fin 0]; [Fin 0; Fin (-4)]] 0 10 2 5
        [[Fin (1 / 2)]; [Fin (1 / 2)]].

(* ------------------------------------------------------------------ *)
(** ** labs/w3/run.py: scoring one fold and comparing the models *)

(** The exceptions of this module: the built-in ones above,
    [utils.exceptions.TestMethodException], and three more built-in ones
    ([OSError] is what opening, reading or writing a file raises). *)
Inductive run_exn : Type :=
| Builtin (e : exn)
| TestMethodException
| NotImplementedError
| TypeError
| OSError.

Inductive run_result (A : Type) : Type :=
| Done (a : A)
| Failed (e : run_exn).
Arguments Done {A} a.
Arguments Failed {A} e.

Definition run_bind {A B} (r : run_result A) (k : A -> run_result B)
  : run_result B :=
  match r with
  | Done a => k a
  | Failed e => Failed e
  end.

Definition of_result {A} (r : result A) : run_result A :=
  match r with
  | Ok a => Done a
  | Error e => Failed (Builtin e)
  end.

Fixpoint run_mapM {A B} (f : A -> run_result B) (l : list A)
  : run_result (list B) :=
  match l with
  | [] => Done []
  | x :: xs =>
      run_bind (f x) (fun y => run_bind (run_mapM f xs) (fun ys => Done (y :: ys)))
  end.

Definition TEST_METHODS : list String.string :=
  ["anova"%string; "wilcoxon"%string; "ttest"%string].

(** [test in TEST_METHODS] *)
Definition known_test (test : String.string) : bool :=
  existsb (String.eqb test) TEST_METHODS.

(** [{'stat': stat, 'p': p}] *)
Record stat_test : Type := mkStat { stat : float64; p : float64 }.

Section Scipy.
(** [scipy.stats.wilcoxon] and [scipy.stats.ttest_ind]: the statistic and
    the p-value, or an exception. *)
Variable wilcoxon : list float64 -> list float64 -> run_result (float64 * float64).
Variable ttest_ind : list float64 -> list float64 -> run_result (float64 * float64).

(** [compute_stat_test] *)
Definition compute_stat_test (sample1 sample2 : list float64)
    (test : String.string) : run_result stat_test :=
  if negb (known_test test) then Failed TestMethodException
  else if String.eqb test "anova" then Failed NotImplementedError
  else
    let test_func := if String.eqb test "wilcoxon" then wilcoxon else ttest_ind in
    match test_func sample1 sample2 with
    | Done (st, pv) => Done (mkStat st pv)
    | Failed (Builtin ValueError) => Done (mkStat (Fin 0) (Fin 1))
    | Failed e => Failed e
    end.
End Scipy.

(** The entries of the decoded JSON that [eval_stat_test] reads: each model
    has a list ['results'] of per-fold records with an ['accuracy'] (and a
    ['time']). *)
Record fold_score : Type := mkFold { accuracy : float64; time : float64 }.
Record model_score : Type := mkModel { results : list fold_score }.

(** [np.mean] of a list: [nan] for the empty list. *)
Definition np_mean (l : list float64) : float64 :=
  fdiv (fsum l) (Fin (INR (length l))).

(** [np.mean(list(map(lambda x: x['accuracy'], results[i]['results'])))] *)
Definition mean_accuracy (rs : list model_score) (i : nat) : run_result float64 :=
  run_bind (of_result (getitem rs i)) (fun r =>
  Done (np_mean (map accuracy (results r)))).

(** [mat[i][j][0]] and [mat[i][j][1]] *)
Definition stat_and_p (mat : list (list (list float64))) (i j : nat)
  : run_result (float64 * float64) :=
  run_bind (of_result (getitem mat i)) (fun row =>
  run_bind (of_result (getitem row j)) (fun c =>
  run_bind (of_result (getitem c 0)) (fun statistic =>
  run_bind (of_result (getitem c 1)) (fun p_value =>
  Done (statistic, p_value))))).

(** The body of the loops of [eval_stat_test] in the ['wilcoxon'] branch;
    the value [select_mat[i][j]] ends with (it starts at 0). *)
Definition wilcoxon_cell (mat : list (list (list float64)))
    (rs : list model_score) (alpha : R) (i j : nat) : run_result float64 :=
  run_bind (stat_and_p mat i j) (fun sp =>
  let statistic := fst sp in
  let p_value := snd sp in
  if flt p_value (Fin alpha) then
    if flt (Fin 0) statistic then
      run_bind (mean_accuracy rs i) (fun mean_acc1 =>
      run_bind (mean_accuracy rs j) (fun mean_acc2 =>
      let cell := if flt mean_acc2 mean_acc1 then Fin 1
                  else if flt mean_acc1 mean_acc2 then Fin 2
                  else Fin 0 in
      let cell := Fin 2 in
      Done cell))
    else Done (Fin 0)
  else Done (Fin 0)).

(** The same in the last branch (['ttest']). *)
Definition ttest_cell (mat : list (list (list float64)))
    (rs : list model_score) (alpha : R) (i j : nat) : run_result float64 :=
  run_bind (stat_and_p mat i j) (fun sp =>
  let statistic := fst sp in
  let p_value := snd sp in
  if flt p_value (Fin alpha) then
    if flt statistic (Fin 0) then Done (Fin 2)
    else if flt (Fin 0) statistic then Done (Fin 1)
    else Done (Fin 0)
  else Done (Fin 0)).

(** [a.shape[1]] of an array held as a list of rows. *)
Definition shape1 {A} (a : list (list A)) : nat :=
  match a with
  | [] => 0%nat
  | r :: _ => length r
  end.

(** [eval_stat_test]; every cell of [select_mat] is written once, in row
    order. *)
Definition eval_stat_test (mat : list (list (list float64)))
    (rs : list model_score) (test : String.string) (alpha : R)
  : run_result (list (list float64)) :=
  if negb (known_test test) then Failed TestMethodException
  else if String.eqb test "anova" then Failed NotImplementedError
  else
    let cell := if String.eqb test "wilcoxon" then wilcoxon_cell else ttest_cell in
    run_mapM (fun i => run_mapM (fun j => cell mat rs alpha i j)
                                (range (shape1 mat)))
             (range (length mat)).

(** [a == b] on float64 values. *)
Definition feq (a b : float64) : bool :=
  match a, b with
  | Fin x, Fin y => if Req_dec_T x y then true else false
  | PInf, PInf | NInf, NInf => true
  | _, _ => false
  end.

(** [a[i, j]] *)
Definition getitem2 (a : matrix) (i j : nat) : result float64 :=
  rbind (getitem a i) (fun r => getitem r j).

(** The body of the loops of [combine_test]; the value [combine_mat[i, j]]
    ends with (it starts at 0). *)
Definition combine_cell (select_mat_acc select_mat_time : matrix) (i j : nat)
  : result float64 :=
  rbind (getitem2 select_mat_acc i j) (fun a1 =>
  if feq a1 (Fin 1) then Ok (Fin 1)
  else
    rbind (getitem2 select_mat_acc i j) (fun a2 =>
    if feq a2 (Fin 2) then Ok (Fin 2)
    else
      rbind (getitem2 select_mat_time i j) (fun t1 =>
      if feq t1 (Fin 1) then Ok (Fin 2)
      else
        rbind (getitem2 select_mat_time i j) (fun t2 =>
        if feq t2 (Fin 2) then Ok (Fin 1)
        else Ok (Fin 0))))).

(** [combine_test] *)
Definition combine_test (select_mat_acc select_mat_time : matrix)
  : result matrix :=
  mapM (fun i => mapM (fun j => combine_cell select_mat_acc select_mat_time i j)
                      (range (shape1 select_mat_acc)))
       (range (length select_mat_acc)).

(** In a comparison matrix, [i] beats [j] (value 1) exactly when [j] loses
    to [i] (value 2). *)
Definition mirrored (n : nat) (a : matrix) : Prop :=
  forall i j, (i < n)%nat -> (j < n)%nat ->
    (entry a i j = Fin 1 <-> entry a j i = Fin 2).

(** The value [combine_test] gives to a cell, from the two verdicts. *)
Definition combined (a t : float64) : float64 :=
  if feq a (Fin 1) then Fin 1
  else if feq a (Fin 2) then Fin 2
  else if feq t (Fin 1) then Fin 2
  else if feq t (Fin 2) then Fin 1
  else Fin 0.

(** [mat] is an array of shape [(n, m, c)] with [c >= 2]. *)
Definition stat_shaped (n m : nat) (mat : list (list (list float64))) : Prop :=
  length mat = n
  /\ Forall (fun row => length row = m
                        /\ Forall (fun c => (2 <= length c)%nat) row) mat.

(** The statistic and the p-value held at [mat[i][j]]. *)
Definition statistic_at (mat : list (list (list float64))) (i j : nat) : float64 :=
  nth 0 (nth j (nth i mat []) []) NaN.

Definition p_value_at (mat : list (list (list float64))) (i j : nat) : float64 :=
  nth 1 (nth j (nth i mat []) []) NaN.

(** Swapping the two samples negates the statistic and keeps the p-value. *)
Definition antisymmetric (n : nat) (mat : list (list (list float64))) : Prop :=
  forall i j, (i < n)%nat -> (j < n)%nat ->
    statistic_at mat j i = fneg (statistic_at mat i j)
    /\ p_value_at mat j i = p_value_at mat i j.

Section KIBL.
(** [algorithms.KIBLAlgorithm.KIBLAlgorithm] is not in this file: its
    construction and [fit] (after [np.random.seed(seed)]) and its
    [k_neighbours], which may change the instance, are taken as given, as
    are the types of instances, labels and configurations and the
    equality of labels. *)
Variable instance : Type.
Variable label : Type.
Variable config : Type.
Variable classifier : Type.
Variable label_eqb : label -> label -> bool.
Variable new_fitted :
  config -> option Z -> list instance -> list label -> run_result classifier.
Variable k_neighbours :
  classifier -> instance -> label -> run_result (label * classifier).

(** A fold: [{'X_train', 'y_train', 'X_val', 'y_val'}]. *)
Record fold : Type := mkDataFold {
  X_train : list instance;
  y_train : list label;
  X_val : list instance;
  y_val : list label
}.

(** The validation loop: the number of correct predictions. *)
Fixpoint count_corrects (alg : classifier) (val_data : list (instance * label))
    (corrects : nat) : run_result nat :=
  match val_data with
  | [] => Done corrects
  | (x, y) :: rest =>
      run_bind (k_neighbours alg x y) (fun pa =>
      count_corrects (snd pa) rest
        (if label_eqb (fst pa) y then S corrects else corrects))
  end.

(** What the validation loop compares: for every pair of [val_data], in
    order, the prediction [alg.k_neighbours(X, y)] and the label [y]. *)
Fixpoint predictions (alg : classifier) (val_data : list (instance * label))
  : run_result (list (label * label)) :=
  match val_data with
  | [] => Done []
  | (x, y) :: rest =>
      run_bind (k_neighbours alg x y) (fun pa =>
      run_bind (predictions (snd pa) rest) (fun ps =>
      Done ((fst pa, y) :: ps)))
  end.

(** [run_knn_fold]; [elapsed] is what [time() - time_start] evaluates to.
    The progress bar is not modelled, except for its description
    [f'Fold {i:2}'], which cannot be formatted when [i] is [None]. *)
Definition run_knn_fold (f : fold) (cfg : config) (seed : option Z)
    (i : option nat) (elapsed : R) : run_result (option nat * (R * R)) :=
  run_bind (new_fitted cfg seed (X_train f) (y_train f)) (fun alg =>
  let val_data := combine (X_val f) (y_val f) in
  run_bind (match i with
            | None => Failed TypeError
            | Some _ => Done tt
            end) (fun _ =>
  run_bind (count_corrects alg val_data 0) (fun corrects =>
  if (length val_data =? 0)%nat then Failed (Builtin ZeroDivisionError)
  else Done (i, (INR corrects / INR (length val_data), elapsed))))).
End KIBL.

(** The value [eval_stat_test] gives to a cell holding [statistic] and
    [p_value]. *)
Definition verdict (test : String.string) (alpha : R)
    (statistic p_value : float64) : float64 :=
  if flt p_value (Fin alpha) then
    if String.eqb test "wilcoxon" then
      if flt (Fin 0) statistic then Fin 2 else Fin 0
    else if flt statistic (Fin 0) then Fin 2
    else if flt (Fin 0) statistic then Fin 1
    else Fin 0
  else Fin 0.

Section StatSelect.
Variable wilcoxon : list float64 -> list float64 -> run_result (float64 * float64).
Variable ttest_ind : list float64 -> list float64 -> run_result (float64 * float64).
(** [model1 == model2] for the entries at positions [i] and [j] of the
    decoded JSON (the entries also hold the configuration of the model,
    which [model_score] leaves out). *)
Variable model_eq : nat -> nat -> bool.

(** [enumerate(l)] *)
Definition enumerate {A} (l : list A) : list (nat * A) :=
  combine (range (length l)) l.

(** The body of the loops of [run_stat_select_kIBL]: the values
    [stats_accuracy[i, j]] and [stats_time[i, j]] end with (both start as
    [[nan, nan]]). *)
Definition stats_cell (test : String.string) (i j : nat)
    (model1 model2 : model_score)
  : run_result (list float64 * list float64) :=
  if model_eq i j then Done ([NaN; NaN], [NaN; NaN])
  else
    let res1_acc := map accuracy (results model1) in
    let res2_acc := map accuracy (results model2) in
    let res1_time := map time (results model1) in
    let res2_time := map time (results model2) in
    run_bind (compute_stat_test wilcoxon ttest_ind res1_acc res2_acc test)
      (fun stat_accuracy =>
    run_bind (compute_stat_test wilcoxon ttest_ind res1_time res2_time test)
      (fun stat_time =>
    Done ([stat stat_accuracy; p stat_accuracy],
          [stat stat_accuracy; p stat_time]))).

(** What the function does outside this module is taken as given:
    [json.loads(open(path, 'r').read())], decoded into the entries read
    here; [pickle.dump(array, open(os.path.join(OUTPUT_PATH, file), 'wb'))];
    and all it does with the two verdict matrices once it has them (two
    [matplotlib] figures saved under [name], and the printed best indexes),
    after which it returns [None]. *)
Variable read_results : String.string -> run_result (list model_score).
Variable pickle_dump :
  list (list (list float64)) -> String.string -> run_result unit.
Variable report : String.string -> matrix -> matrix -> run_result unit.

(** [run_stat_select_kIBL] *)
Definition run_stat_select_kIBL (kIBL_json_path name test : String.string)
  : run_result unit :=
  if negb (known_test test) then Failed TestMethodException
  else if String.eqb test "anova" then Failed NotImplementedError
  else
    run_bind (read_results kIBL_json_path) (fun results =>
    run_bind (run_mapM (fun im1 =>
                run_mapM (fun jm2 => stats_cell test (fst im1) (fst jm2)
                                                (snd im1) (snd jm2))
                         (enumerate results)) (enumerate results))
      (fun cells =>
    let stats_accuracy := map (map fst) cells in
    let stats_time := map (map snd) cells in
    run_bind (pickle_dump stats_accuracy (String.append name "_accuracy.pkl"))
      (fun _ =>
    run_bind (pickle_dump stats_time (String.append name "_time.pkl"))
      (fun _ =>
    run_bind (eval_stat_test stats_accuracy results test (5 / 100))
      (fun select_mat_acc =>
    run_bind (eval_stat_test stats_time results test (5 / 100))
      (fun select_mat_time =>
    report name select_mat_acc select_mat_time)))))).
End StatSelect.

(* ------------------------------------------------------------------ *)
(** ** Basic facts about the operations *)

Ltac run_monad :=
  unfold bind, get, ret, lift, modify in *; simpl in *.

(** Decide the comparisons between real constants left in a goal. *)
Ltac rdec :=
  repeat match goal with
    | |- context [Req_dec_T ?a ?b] => destruct (Req_dec_T a b); try lra
    | |- context [Rlt_dec ?a ?b] => destruct (Rlt_dec a b); try lra
    | |- context [Rle_dec ?a ?b] => destruct (Rle_dec a b); try lra
    end.

Lemma mapM_total {A B} (g : A -> B) (l : list A) :
  mapM (fun x => Ok (g x)) l = Ok (map g l).
Proof.
  induction l as [|x xs IH]; simpl; [reflexivity|].
  rewrite IH. reflexivity.
Qed.

Lemma mapM_ext {A B} (f g : A -> result B) (l : list A) :
  (forall x, In x l -> f x = g x) -> mapM f l = mapM g l.
Proof.
  induction l as [|x xs IH]; simpl; intros H; [reflexivity|].
  rewrite (H x) by auto. rewrite IH by auto. reflexivity.
Qed.

Lemma broadcast_same_length {A B C} (f : A -> B -> result C) a b :
  length a = length b ->
  broadcast f a b = mapM (fun p => f (fst p) (snd p)) (combine a b).
Proof.
  intros H. unfold broadcast.
  rewrite (proj2 (Nat.eqb_eq _ _) H). reflexivity.
Qed.

Lemma broadcast_scalar_right {A B C} (f : A -> B -> C) a y :
  broadcast (fun x z => Ok (f x z)) a [y] = Ok (map (fun x => f x y) a).
Proof.
  unfold broadcast.
  destruct (Nat.eqb_spec (length a) (length [y])) as [E|E].
  - destruct a as [|x [|x' a']]; simpl in E; try discriminate. reflexivity.
  - destruct a as [|x [|x' a']]; simpl in E; try congruence;
      apply mapM_total.
Qed.

Lemma broadcast_zip {A B C} (f : A -> B -> C) a b :
  length a = length b ->
  broadcast (fun x z => Ok (f x z)) a b
  = Ok (map (fun p => f (fst p) (snd p)) (combine a b)).
Proof.
  intros H. rewrite broadcast_same_length by exact H.
  apply (mapM_total (fun p => f (fst p) (snd p))).
Qed.

Lemma getitem_nth {A} (l : list A) (i : nat) (d : A) :
  (i < length l)%nat -> getitem l i = Ok (nth i l d).
Proof.
  intros H. unfold getitem.
  rewrite (nth_error_nth' l d H). reflexivity.
Qed.

Lemma has_shape_nth k n a i :
  has_shape k n a -> (i < k)%nat -> length (nth i a []) = n.
Proof.
  intros [Hl Hr] Hi. rewrite Forall_forall in Hr.
  apply Hr. apply nth_In. lia.
Qed.

Lemma has_shape_ncols k n a :
  has_shape k n a -> (1 <= k)%nat -> ncols a = n.
Proof.
  intros [Hl Hr] Hk. destruct a as [|r a']; simpl in *; [lia|].
  inversion Hr; assumption.
Qed.

(** NaN is absorbing for sums and quotients. *)
Lemma fadd_NaN_r a : fadd a NaN = NaN.
Proof. destruct a; reflexivity. Qed.

Lemma fdiv_NaN_r a : fdiv a NaN = NaN.
Proof. destruct a; reflexivity. Qed.

Lemma fsum_NaN l : In NaN l -> fsum l = NaN.
Proof.
  induction l as [|x xs IH]; simpl; intros H; [contradiction|].
  destruct H as [->|H]; [reflexivity|].
  rewrite IH by exact H. apply fadd_NaN_r.
Qed.

Lemma fsum_Fin (l : list R) :
  fsum (map Fin l) = Fin (fold_right Rplus 0 l).
Proof.
  unfold fsum. induction l as [|x xs IH]; simpl; [reflexivity|].
  rewrite IH. reflexivity.
Qed.

(* ------------------------------------------------------------------ *)
(** ** predict and the convergence test *)

(** C10: [predict] never looks at its argument: whatever matrix it is given,
    it returns the pair of the instance's membership matrix [u] and
    centroids, and leaves the instance as it was. *)
Theorem predict_returns_stored_state :
  forall (X' : matrix) (s : FuzzyCMeans),
    predict X' s = Return (self_u s, self_centroids s) s
    /\ forall X'' : matrix, predict X'' s = predict X' s.
Proof.
  intros X' s. split; [reflexivity|]. intros X''. reflexivity.
Qed.

Lemma np_sub1_same_length a b :
  length a = length b ->
  np_sub1 a b = Ok (map (fun p => fsub (fst p) (snd p)) (combine a b)).
Proof. intros H. unfold np_sub1. apply broadcast_zip. exact H. Qed.

Lemma np_sub2_same_shape k n a b :
  has_shape k n a -> has_shape k n b ->
  np_sub2 a b
  = Ok (map (fun p => map (fun q => fsub (fst q) (snd q))
                          (combine (fst p) (snd p)))
            (combine a b)).
Proof.
  intros [Ha Hra] [Hb Hrb]. unfold np_sub2.
  rewrite broadcast_same_length by congruence.
  rewrite <- (mapM_total (fun p => map (fun q => fsub (fst q) (snd q))
                                     (combine (fst p) (snd p)))).
  apply mapM_ext. intros [r1 r2] Hin. simpl.
  apply np_sub1_same_length.
  rewrite Forall_forall in Hra, Hrb.
  rewrite (Hra r1), (Hrb r2); [reflexivity | |].
  - eapply in_combine_r; eauto.
  - eapply in_combine_l; eauto.
Qed.

Lemma norm_ord1_defined k n a :
  has_shape k n a -> (1 <= k)%nat -> (1 <= n)%nat ->
  exists v, norm_ord1 a = Ok v.
Proof.
  intros Hs Hk Hn. unfold norm_ord1, sum_axis0.
  assert (Hc : ncols (map (map fabs) a) = n).
  { destruct Hs as [Hl Hr]. destruct a as [|r a']; simpl in *; [lia|].
    rewrite length_map. inversion Hr; assumption. }
  rewrite Hc. destruct n as [|n']; [lia|].
  unfold range. simpl. eexists. reflexivity.
Qed.

Lemma np_sub2_shape k n a b :
  has_shape k n a -> has_shape k n b ->
  exists d, np_sub2 a b = Ok d /\ has_shape k n d.
Proof.
  intros Ha Hb. eexists. split; [eapply np_sub2_same_shape; eauto|].
  destruct Ha as [Ha Hra], Hb as [Hb Hrb]. split.
  - rewrite length_map, length_combine. lia.
  - rewrite Forall_forall. intros r Hin.
    apply in_map_iff in Hin. destruct Hin as [[r1 r2] [<- Hin]]. simpl.
    rewrite length_map, length_combine.
    rewrite Forall_forall in Hra, Hrb.
    rewrite (Hra r1), (Hrb r2); [lia | |].
    + eapply in_combine_r; eauto.
    + eapply in_combine_l; eauto.
Qed.

(** C8 (as the code has it): once the iteration counter has reached
    [max_it], [_check_convergence] returns [True] whatever the centroid
    movement (with or without a previous snapshot), and [predict] returns
    the current membership matrix and centroids, a pair that carries no
    flag; both leave the instance as it was. *)
Theorem budget_exhausted_returns_current_state :
  forall (s : FuzzyCMeans) (prev : option matrix) (X' : matrix),
    (self_max_it s <= self_it s)%Z ->
    _check_convergence prev s = Return true s
    /\ predict X' s = Return (self_u s, self_centroids s) s.
Proof.
  intros s prev X' H. split; [|reflexivity].
  unfold _check_convergence. run_monad.
  destruct (Z.geb_spec (self_it s) (self_max_it s)); [reflexivity | lia].
Qed.

Lemma budget_exhausted_returns_current_state_witness :
  _check_convergence None one_point = Return true one_point
  /\ predict [] one_point = Return ([[Fin 1]], [[Fin 5]]) one_point.
Proof.
  apply (budget_exhausted_returns_current_state one_point None []).
  simpl. lia.
Defined.

(** C8, counterexample: the same instance, with its budget exhausted, is
    reached from a snapshot 7 away from the centroid (tolerance not met:
    with budget left the test is false) and from a snapshot equal to the
    centroid (tolerance met: with budget left the test is true).  In both
    cases the test returns the same [True], [predict] returns the same
    pair, and the instance is the same: nothing tells the two runs apart. *)
Lemma budget_exhausted_not_flagged :
  let s := one_point in
  let fresh := mkFCM 1 [[Fin 5]] [[Fin 5]] 0 10 2 (1 / 100) [[Fin 1]] in
  let far := Some [[Fin 12]] in
  let near := Some [[Fin 5]] in
  _check_convergence far fresh = Return false fresh
  /\ _check_convergence near fresh = Return true fresh
  /\ _check_convergence far s = _check_convergence near s
  /\ _check_convergence far s = Return true s
  /\ forall X', predict X' s = Return ([[Fin 1]], [[Fin 5]]) s.
Proof.
  cbv zeta. repeat split.
  - unfold _check_convergence, one_point. run_monad.
    unfold Rabs. destruct (Rcase_abs _); rdec; reflexivity.
  - unfold _check_convergence, one_point. run_monad.
    unfold Rabs. destruct (Rcase_abs _); rdec; reflexivity.
Qed.

(* ------------------------------------------------------------------ *)
(** ** Lists read through their indices *)

Lemma nth_map_range {B} (f : nat -> B) (n i : nat) (d : B) :
  (i < n)%nat -> nth i (map f (range n)) d = f i.
Proof.
  intros H. unfold range.
  rewrite (nth_indep _ d (f 0%nat)) by (rewrite length_map, length_seq; exact H).
  rewrite (map_nth f (seq 0 n) 0%nat i). rewrite seq_nth by exact H. reflexivity.
Qed.

Lemma list_as_range {A} (l : list A) (d : A) :
  l = map (fun i => nth i l d) (range (length l)).
Proof.
  apply (nth_ext _ _ d d).
  - unfold range. rewrite length_map, length_seq. reflexivity.
  - intros i Hi. rewrite nth_map_range by exact Hi. reflexivity.
Qed.

Lemma map_as_range {A B} (f : A -> B) (l : list A) (d : A) :
  map f l = map (fun i => f (nth i l d)) (range (length l)).
Proof.
  rewrite (list_as_range l d) at 1. rewrite map_map. reflexivity.
Qed.

Lemma combine_as_range {A B} (l1 : list A) (l2 : list B) (d1 : A) (d2 : B) :
  length l1 = length l2 ->
  combine l1 l2 = map (fun i => (nth i l1 d1, nth i l2 d2)) (range (length l1)).
Proof.
  revert l2. induction l1 as [|x xs IH]; intros [|y ys] H; simpl in *;
    try discriminate; [reflexivity|].
  f_equal. unfold range in *. rewrite <- seq_shift, map_map.
  apply IH. lia.
Qed.

Lemma map_range_ext {B} (f g : nat -> B) (n : nat) :
  (forall i, (i < n)%nat -> f i = g i) -> map f (range n) = map g (range n).
Proof.
  intros H. apply map_ext_in. intros i Hi. apply H.
  unfold range in Hi. apply in_seq in Hi. lia.
Qed.

Lemma nth_map_in {A B} (f : A -> B) (l : list A) (i : nat) (d : A) (d' : B) :
  (i < length l)%nat -> nth i (map f l) d' = f (nth i l d).
Proof.
  intros H. rewrite (nth_indep _ d' (f d)) by (rewrite length_map; exact H).
  apply map_nth.
Qed.

Lemma column_nth (a : matrix) (j i : nat) :
  (i < length a)%nat -> nth i (column a j) NaN = entry a i j.
Proof.
  intros H. unfold column, entry.
  apply (nth_map_in (fun r => nth j r NaN)). exact H.
Qed.

Lemma column_length (a : matrix) (j : nat) : length (column a j) = length a.
Proof. unfold column. apply length_map. Qed.

Lemma combine_map_map {A B C} (f : A -> B) (g : A -> C) (l : list A) :
  combine (map f l) (map g l) = map (fun x => (f x, g x)) l.
Proof.
  induction l as [|x xs IH]; simpl; [reflexivity|]. rewrite IH. reflexivity.
Qed.

Lemma mapM_map {A B C} (f : B -> result C) (g : A -> B) (l : list A) :
  mapM f (map g l) = mapM (fun x => f (g x)) l.
Proof.
  induction l as [|x xs IH]; simpl; [reflexivity|]. rewrite IH. reflexivity.
Qed.

(* ------------------------------------------------------------------ *)
(** ** The centroid update *)

Lemma matmul_run (a b : matrix) :
  Forall (fun r => length r = length b) a ->
  matmul a b
  = Ok (map (fun r =>
               map (fun j => fsum (map (fun p => fmul (fst p) (snd p))
                                       (combine r (column b j))))
                   (range (ncols b))) a).
Proof.
  intros H. unfold matmul.
  replace (forallb (fun r => (length r =? length b)%nat) a) with true;
    [reflexivity|].
  symmetry. apply forallb_forall. intros r Hr.
  rewrite Forall_forall in H. apply Nat.eqb_eq. apply H. exact Hr.
Qed.

(** [_update_v] with a membership matrix whose rows have one entry per
    point: no error, and only [centroids] is rebound. *)
Lemma update_v_run (s : FuzzyCMeans) :
  Forall (fun r => length r = length (self_X s)) (self_u s) ->
  _update_v s = Return tt (set_centroids (new_centroids s) s).
Proof.
  intros H. unfold _update_v. run_monad.
  rewrite matmul_run.
  2:{ unfold np_pow. rewrite Forall_forall in *. intros r Hr.
      apply in_map_iff in Hr. destruct Hr as [r0 [<- Hr0]].
      rewrite length_map. apply H. exact Hr0. }
  simpl. unfold np_div2, sum_axis1_keepdims, np_pow.
  rewrite broadcast_same_length by (rewrite !length_map; reflexivity).
  rewrite !map_map. rewrite combine_map_map. rewrite mapM_map. simpl.
  rewrite (mapM_ext _ (fun r => Ok (map (fun j =>
             fdiv (fsum (map (fun p => fmul (fst p) (snd p))
                             (combine (map (fun x => fpow x (self_m s)) r)
                                      (column (self_X s) j))))
                  (fsum (map (fun x => fpow x (self_m s)) r)))
             (range (ncols (self_X s)))))).
  - rewrite mapM_total. reflexivity.
  - intros r _. rewrite broadcast_scalar_right. rewrite map_map. reflexivity.
Qed.

Lemma new_centroids_shape (s : FuzzyCMeans) :
  has_shape (length (self_u s)) (ncols (self_X s)) (new_centroids s).
Proof.
  unfold new_centroids. split.
  - apply length_map.
  - rewrite Forall_forall. intros r Hr. apply in_map_iff in Hr.
    destruct Hr as [r0 [<- _]]. unfold range.
    rewrite length_map, length_seq. reflexivity.
Qed.

Lemma new_centroids_entry (s : FuzzyCMeans) (n : nat) (k j : nat) :
  length (self_X s) = n ->
  has_shape (self_K s) n (self_u s) ->
  (k < self_K s)%nat -> (j < ncols (self_X s))%nat ->
  entry (new_centroids s) k j = weighted_mean s k j.
Proof.
  intros Hn Hu Hk Hj. unfold entry, new_centroids.
  assert (Hlen : (k < length (self_u s))%nat) by (destruct Hu; lia).
  rewrite (@nth_map_in vector vector _ (self_u s) k [] []) by exact Hlen.
  rewrite nth_map_range by exact Hj.
  assert (Hr : length (nth k (self_u s) []) = n)
    by (eapply has_shape_nth; eauto).
  unfold weighted_mean, weight_sum. f_equal.
  - rewrite (combine_as_range _ _ NaN NaN)
      by (rewrite length_map, column_length; lia).
    rewrite map_map, length_map, Hr, Hn. f_equal.
    apply map_range_ext. intros i Hi. simpl.
    rewrite (nth_map_in (fun x => fpow x (self_m s)) _ i NaN NaN) by lia.
    rewrite column_nth by lia. reflexivity.
  - rewrite (map_as_range _ _ NaN). rewrite Hr, Hn. reflexivity.
Qed.

(** C3: on an instance holding [n] points and a [K] by [n] membership
    matrix, [_update_v] returns normally, rebinds only [centroids], to a
    [K]-row matrix whose row [k] is, in every coordinate [j], the weighted
    mean [(sum_i U[k,i]^m * x_i[j]) / (sum_i U[k,i]^m)]. *)
Theorem update_v_weighted_mean :
  forall (s : FuzzyCMeans) (n : nat),
    length (self_X s) = n ->
    has_shape (self_K s) n (self_u s) ->
    exists c : matrix,
      _update_v s = Return tt (set_centroids c s)
      /\ has_shape (self_K s) (ncols (self_X s)) c
      /\ forall k j, (k < self_K s)%nat -> (j < ncols (self_X s))%nat ->
           entry c k j = weighted_mean s k j.
Proof.
  intros s n Hn Hu. exists (new_centroids s). split; [|split].
  - apply update_v_run. destruct Hu as [_ Hr]. rewrite Hn. exact Hr.
  - destruct Hu as [Hl _]. rewrite <- Hl. apply new_centroids_shape.
  - intros k j Hk Hj. eapply new_centroids_entry; eauto.
Qed.

Lemma update_v_weighted_mean_witness :
  exists c : matrix,
    _update_v two_points = Return tt (set_centroids c two_points)
    /\ has_shape 2 1 c
    /\ forall k j, (k < 2)%nat -> (j < 1)%nat ->
         entry c k j = weighted_mean two_points k j.
Proof.
  apply (update_v_weighted_mean two_points 2).
  - reflexivity.
  - split; [reflexivity | repeat constructor].
Defined.

(** *** Powers of real constants *)

Lemma Rpower_base_1 (y : R) : Rpower 1 y = 1.
Proof. unfold Rpower. rewrite ln_1, Rmult_0_r. apply exp_0. Qed.

Lemma Rpower_2 (x : R) : 0 < x -> Rpower x 2 = x * x.
Proof.
  intros H. replace 2 with (INR 2) by (simpl; lra).
  rewrite Rpower_pow by exact H. simpl. lra.
Qed.

Lemma fpow_pos (r y : R) : 0 < r -> y <> 0 -> fpow (Fin r) y = Fin (Rpower r y).
Proof. intros Hr Hy. unfold fpow. rdec. reflexivity. Qed.

Lemma fpow_zero (y : R) : 0 < y -> fpow (Fin 0) y = Fin 0.
Proof. intros Hy. unfold fpow. rdec. reflexivity. Qed.

Lemma fpow_NaN (y : R) : y <> 0 -> fpow NaN y = NaN.
Proof. intros Hy. unfold fpow. rdec. reflexivity. Qed.

Lemma fdiv_zero_not_finite (a : float64) : is_finite (fdiv a (Fin 0)) = false.
Proof.
  destruct a as [x| | |]; simpl; try reflexivity.
  - destruct (Req_dec_T 0 0) as [_|H]; [|lra].
    unfold signed_inf. destruct (Req_dec_T x 0); [reflexivity|].
    destruct (Rlt_dec 0 x); reflexivity.
  - destruct (Rlt_dec 0 0); reflexivity.
  - destruct (Rlt_dec 0 0); reflexivity.
Qed.

(** C6 (as the code has it): [_update_v] has no guard for a cluster without
    influence.  When the weight sum of cluster [k] is 0 the update still
    returns normally, and what it stores for that cluster is the quotient
    by that zero: in every coordinate a [nan] or an infinity, never a real
    number (so a real previous centroid is not kept). *)
Theorem update_v_zero_weight_sum :
  forall (s : FuzzyCMeans) (n k : nat),
    length (self_X s) = n ->
    has_shape (self_K s) n (self_u s) ->
    (k < self_K s)%nat ->
    weight_sum s k = Fin 0 ->
    exists c : matrix,
      _update_v s = Return tt (set_centroids c s)
      /\ forall j, (j < ncols (self_X s))%nat ->
           entry c k j = weighted_mean s k j
           /\ is_finite (entry c k j) = false.
Proof.
  intros s n k Hn Hu Hk Hw. exists (new_centroids s). split.
  - apply update_v_run. destruct Hu as [_ Hr]. rewrite Hn. exact Hr.
  - intros j Hj.
    rewrite (new_centroids_entry s n k j Hn Hu Hk Hj). split; [reflexivity|].
    unfold weighted_mean. rewrite Hw. apply fdiv_zero_not_finite.
Qed.

Lemma zero_weight_sum_0 : weight_sum zero_weight 0 = Fin 0.
Proof.
  unfold weight_sum, entry. simpl. rewrite fpow_zero by lra.
  simpl. f_equal. lra.
Qed.

Lemma update_v_zero_weight_sum_witness :
  exists c : matrix,
    _update_v zero_weight = Return tt (set_centroids c zero_weight)
    /\ forall j, (j < 1)%nat ->
         entry c 0 j = weighted_mean zero_weight 0 j
         /\ is_finite (entry c 0 j) = false.
Proof.
  apply (update_v_zero_weight_sum zero_weight 2 0).
  - reflexivity.
  - split; [reflexivity | repeat constructor].
  - simpl. lia.
  - exact zero_weight_sum_0.
Defined.

(** C6, counterexample: cluster 0 of [zero_weight] has weight sum 0 and
    previous centroid 7.  [_update_v] neither raises nor keeps the 7: it
    returns normally with [nan] for cluster 0 (and 1, the mean of the two
    points, for cluster 1). *)
Lemma update_v_divides_by_zero_weight :
  weight_sum zero_weight 0 = Fin 0
  /\ self_centroids zero_weight = [[Fin 7]; [Fin 3]]
  /\ _update_v zero_weight
     = Return tt (set_centroids [[NaN]; [Fin 1]] zero_weight).
Proof.
  split; [exact zero_weight_sum_0|]. split; [reflexivity|].
  rewrite update_v_run by (repeat constructor).
  unfold new_centroids. simpl.
  rewrite fpow_zero by lra. rewrite fpow_pos by lra.
  rewrite Rpower_base_1. simpl.
  do 2 f_equal. unfold signed_inf.
  repeat f_equal; rdec; try reflexivity.
  f_equal. field.
Qed.

(* ------------------------------------------------------------------ *)
(** ** Sums of float64 values *)

Lemma fadd_0_l (a : float64) : fadd (Fin 0) a = a.
Proof. destruct a; simpl; try reflexivity. f_equal. lra. Qed.

Lemma fadd_0_r (a : float64) : fadd a (Fin 0) = a.
Proof. destruct a; simpl; try reflexivity. f_equal. lra. Qed.

Lemma fadd_comm (a b : float64) : fadd a b = fadd b a.
Proof. destruct a, b; simpl; try reflexivity. f_equal. lra. Qed.

Lemma fadd_assoc (a b c : float64) : fadd a (fadd b c) = fadd (fadd a b) c.
Proof. destruct a, b, c; simpl; try reflexivity. f_equal. lra. Qed.

Lemma fold_left_fadd {A} (f : A -> float64) (l : list A) (a : float64) :
  fold_left (fun acc x => fadd acc (f x)) l a = fadd a (fsum (map f l)).
Proof.
  revert a. induction l as [|x xs IH]; intros a; simpl.
  - symmetry. apply fadd_0_r.
  - rewrite IH. rewrite fadd_assoc. reflexivity.
Qed.

(** *** Squares and norms *)

Lemma fmul_self_nonneg (a : float64) : nonneg (fmul a a).
Proof. destruct a; simpl; try exact I. nra. Qed.

Lemma fadd_nonneg (a b : float64) : nonneg a -> nonneg b -> nonneg (fadd a b).
Proof. destruct a, b; simpl; intros; try exact I; try contradiction. lra. Qed.

Lemma sqnorm_nonneg (v : vector) : nonneg (sqnorm v).
Proof.
  unfold sqnorm, fsum. induction v as [|x xs IH]; simpl.
  - lra.
  - apply fadd_nonneg; [apply fmul_self_nonneg | exact IH].
Qed.

(** numpy's [norm(v) ** 2] is the sum of the squares (in exact arithmetic). *)
Lemma fpow_fsqrt_2 (a : float64) : nonneg a -> fpow (fsqrt a) 2 = a.
Proof.
  destruct a as [x| | |]; simpl; intros H; try contradiction.
  - destruct (Rlt_dec x 0) as [Hx|_]; [lra|].
    destruct (Rle_lt_or_eq_dec 0 x H) as [Hpos|Hz].
    + rewrite fpow_pos by (try apply sqrt_lt_R0; lra).
      rewrite Rpower_2 by (apply sqrt_lt_R0; lra).
      rewrite sqrt_sqrt by lra. reflexivity.
    + subst x. rewrite sqrt_0. apply fpow_zero. lra.
  - unfold fpow. rdec. reflexivity.
  - apply fpow_NaN. lra.
Qed.

Lemma norm_squared (v : vector) : fpow (norm v) 2 = sqnorm v.
Proof. unfold norm. apply fpow_fsqrt_2. apply sqnorm_nonneg. Qed.

Lemma sqnorm_difference (x v : vector) :
  sqnorm (map (fun p => fsub (fst p) (snd p)) (combine x v)) = sqdist x v.
Proof. unfold sqnorm, sqdist. rewrite map_map. reflexivity. Qed.

(* ------------------------------------------------------------------ *)
(** ** Loops that leave the instance alone *)

Lemma fold_in_pure {A B} (f : A -> B -> B) (body : A -> B -> M B)
    (l : list A) (s : FuzzyCMeans) :
  (forall x acc, In x l -> body x acc s = Return (f x acc) s) ->
  forall acc,
    fold_in l acc body s = Return (fold_left (fun a x => f x a) l acc) s.
Proof.
  induction l as [|x xs IH]; intros H acc; simpl; [reflexivity|].
  unfold bind. rewrite H by (left; reflexivity).
  apply IH. intros y a Hy. apply H. right. exact Hy.
Qed.

Lemma in_range (i n : nat) : In i (range n) <-> (i < n)%nat.
Proof. unfold range. rewrite in_seq. lia. Qed.

Lemma distance_run (s : FuzzyCMeans) (n d i k : nat) :
  has_shape n d (self_X s) ->
  has_shape (self_K s) d (self_centroids s) ->
  (i < n)%nat -> (k < self_K s)%nat ->
  distance i k s
  = Return (norm (map (fun p => fsub (fst p) (snd p))
                      (combine (nth i (self_X s) [])
                               (nth k (self_centroids s) [])))) s.
Proof.
  intros HX HC Hi Hk. unfold distance. run_monad.
  rewrite (getitem_nth (self_X s) i []) by (destruct HX; lia).
  rewrite (getitem_nth (self_centroids s) k []) by (destruct HC; lia).
  rewrite np_sub1_same_length; [reflexivity|].
  rewrite (has_shape_nth n d _ i HX Hi).
  rewrite (has_shape_nth (self_K s) d _ k HC Hk). reflexivity.
Qed.

(** The term [_loss] adds at point [i] and cluster [k]. *)
Lemma loss_term_run (s : FuzzyCMeans) (n d i k : nat) (res : float64) :
  well_shaped n d s -> (i < n)%nat -> (k < self_K s)%nat ->
  (row <- lift (getitem (self_u s) k) ;;
   u_ki <- lift (getitem row i) ;;
   dist <- distance i k ;;
   ret (fadd res (fmul (fpow u_ki (self_m s)) (fpow dist 2)))) s
  = Return (fadd res (fmul (fpow (entry (self_u s) k i) (self_m s))
                           (sqdist (nth i (self_X s) [])
                                   (nth k (self_centroids s) [])))) s.
Proof.
  intros [HX [HC HU]] Hi Hk. unfold bind at 1.
  rewrite (getitem_nth (self_u s) k []) by (destruct HU; lia). simpl.
  unfold bind at 1.
  rewrite (getitem_nth _ i NaN)
    by (rewrite (has_shape_nth _ _ _ k HU Hk); exact Hi). simpl.
  unfold bind. rewrite (distance_run s n d i k HX HC Hi Hk).
  unfold ret. rewrite norm_squared, sqnorm_difference. reflexivity.
Qed.

Lemma loss_run (s : FuzzyCMeans) (n d : nat) :
  well_shaped n d s -> _loss s = Return (objective s) s.
Proof.
  intros Hs. unfold _loss. unfold bind at 1, get at 1.
  assert (Hn : length (self_X s) = n) by (destruct Hs as [[H _] _]; exact H).
  rewrite (fold_in_pure
             (fun i res => fadd res
                (fsum (map (fun k =>
                   fmul (fpow (entry (self_u s) k i) (self_m s))
                        (sqdist (nth i (self_X s) [])
                                (nth k (self_centroids s) [])))
                   (range (self_K s)))))).
  - rewrite fold_left_fadd, fadd_0_l. reflexivity.
  - intros i res Hi. apply in_range in Hi. rewrite Hn in Hi.
    unfold bind at 1, get at 1.
    rewrite (fold_in_pure
               (fun k res => fadd res
                  (fmul (fpow (entry (self_u s) k i) (self_m s))
                        (sqdist (nth i (self_X s) [])
                                (nth k (self_centroids s) []))))).
    + rewrite fold_left_fadd. reflexivity.
    + intros k acc Hk. apply in_range in Hk.
      unfold bind at 1, get at 1.
      apply (loss_term_run s n d i k acc Hs Hi Hk).
Qed.

(** C9: on an instance of consistent shapes [_loss] returns the objective
    [sum_i sum_k U[k,i]^m * |x_i - v_k|^2], the squared distance being the
    sum of the squared coordinate differences, and hands the instance back
    exactly as it received it. *)
Theorem loss_is_objective :
  forall (s : FuzzyCMeans) (n d : nat),
    well_shaped n d s ->
    _loss s = Return (objective s) s.
Proof. intros s n d Hs. exact (loss_run s n d Hs). Qed.

Lemma loss_is_objective_witness :
  _loss two_points = Return (objective two_points) two_points.
Proof.
  apply (loss_is_objective two_points 2 1).
  repeat split; repeat constructor.
Defined.

(* ------------------------------------------------------------------ *)
(** ** Writing one entry of a matrix *)

Lemma upd_length {A} (l : list A) (i : nat) (x : A) :
  (i < length l)%nat -> length (upd l i x) = length l.
Proof.
  intros H. unfold upd. rewrite length_app, length_firstn.
  cbn [length]. rewrite length_skipn. lia.
Qed.

Lemma upd_nth_same {A} (l : list A) (i : nat) (x d : A) :
  (i < length l)%nat -> nth i (upd l i x) d = x.
Proof.
  intros H. unfold upd. rewrite app_nth2; rewrite length_firstn.
  - replace (i - Nat.min i (length l))%nat with 0%nat by lia. reflexivity.
  - lia.
Qed.

Lemma upd_nth_other {A} (l : list A) (i j : nat) (x d : A) :
  (i < length l)%nat -> j <> i -> nth j (upd l i x) d = nth j l d.
Proof.
  intros H Hj. unfold upd.
  rewrite <- (firstn_skipn i l) at 3.
  destruct (Nat.lt_ge_cases j i) as [Hlt|Hge].
  - rewrite !app_nth1 by (rewrite length_firstn; lia). reflexivity.
  - rewrite !app_nth2 by (rewrite length_firstn; lia).
    rewrite length_firstn.
    replace (Nat.min i (length l)) with i by lia.
    destruct (j - i)%nat as [|q] eqn:E; [lia|]. simpl.
    assert (Hs : skipn i l = nth i l d :: skipn (S i) l).
    { clear - H. revert i H. induction l as [|a l IH]; intros i H; simpl in *.
      - lia.
      - destruct i as [|i]; [reflexivity|]. apply IH. lia. }
    rewrite Hs. reflexivity.
Qed.

Lemma setitem2_run (a : matrix) (k i : nat) (v : float64) :
  (k < length a)%nat -> (i < length (nth k a []))%nat ->
  setitem2 a k i v = Ok (upd a k (upd (nth k a []) i v)).
Proof.
  intros Hk Hi. unfold setitem2.
  rewrite (nth_error_nth' a [] Hk).
  rewrite (proj2 (Nat.ltb_lt _ _) Hi). reflexivity.
Qed.

Lemma Forall_firstn_skipn {A} (P : A -> Prop) (l : list A) (n : nat) :
  Forall P l -> Forall P (firstn n l) /\ Forall P (skipn n l).
Proof.
  intros H. rewrite <- (firstn_skipn n l) in H.
  apply Forall_app in H. exact H.
Qed.

Lemma upd2_shape (a : matrix) (k n k0 i : nat) (v : float64) :
  has_shape k n a -> (k0 < k)%nat -> (i < n)%nat ->
  has_shape k n (upd a k0 (upd (nth k0 a []) i v)).
Proof.
  intros Hs Hk Hi. pose proof (has_shape_nth _ _ _ k0 Hs Hk) as Hr.
  destruct Hs as [Hl Hrows]. split.
  - rewrite upd_length; lia.
  - unfold upd at 1. apply Forall_app. split.
    + apply (Forall_firstn_skipn _ a k0 Hrows).
    + constructor.
      * rewrite upd_length; lia.
      * apply (Forall_firstn_skipn _ a (S k0) Hrows).
Qed.

Lemma upd2_entry_same (a : matrix) (k i : nat) (v : float64) :
  (k < length a)%nat -> (i < length (nth k a []))%nat ->
  entry (upd a k (upd (nth k a []) i v)) k i = v.
Proof.
  intros Hk Hi. unfold entry.
  rewrite upd_nth_same by exact Hk. apply upd_nth_same. exact Hi.
Qed.

Lemma upd2_entry_other (a : matrix) (k i k' i' : nat) (v : float64) :
  (k < length a)%nat -> (i < length (nth k a []))%nat ->
  (k' <> k \/ i' <> i) ->
  entry (upd a k (upd (nth k a []) i v)) k' i' = entry a k' i'.
Proof.
  intros Hk Hi Hne. unfold entry.
  destruct (Nat.eq_dec k' k) as [->|Hk'].
  - rewrite upd_nth_same by exact Hk.
    apply upd_nth_other;
      [exact Hi | destruct Hne as [H|H]; [exfalso; apply H; reflexivity | exact H]].
  - rewrite upd_nth_other by assumption. reflexivity.
Qed.

(** Two matrices of one shape with the same entries are the same. *)
Lemma matrix_ext (k n : nat) (a b : matrix) :
  has_shape k n a -> has_shape k n b ->
  (forall k0 i, (k0 < k)%nat -> (i < n)%nat -> entry a k0 i = entry b k0 i) ->
  a = b.
Proof.
  intros Ha Hb H. apply (nth_ext _ _ [] []).
  - destruct Ha, Hb. congruence.
  - intros k0 Hk0. assert (Hk : (k0 < k)%nat) by (destruct Ha; lia).
    apply (nth_ext _ _ NaN NaN).
    + rewrite (has_shape_nth _ _ _ k0 Ha Hk), (has_shape_nth _ _ _ k0 Hb Hk).
      reflexivity.
    + intros i Hi. rewrite (has_shape_nth _ _ _ k0 Ha Hk) in Hi.
      apply (H k0 i Hk Hi).
Qed.

(* ------------------------------------------------------------------ *)
(** ** The membership update *)

(** A [for] loop whose body keeps an invariant indexed by the items
    already visited. *)
Lemma for_in_invariant {A} (I : list A -> FuzzyCMeans -> Prop)
    (body : A -> M unit) (l : list A) :
  (forall done x s, In x l -> I done s ->
     exists s', body x s = Return tt s' /\ I (done ++ [x]) s') ->
  forall s, I [] s ->
    exists s', for_in l body s = Return tt s' /\ I l s'.
Proof.
  intros Hstep.
  assert (G : forall rest done s, l = done ++ rest -> I done s ->
              exists s', for_in rest body s = Return tt s' /\ I l s').
  { induction rest as [|x xs IH]; intros done s El HI.
    - exists s. rewrite app_nil_r in El. subst done.
      split; [reflexivity | exact HI].
    - destruct (Hstep done x s) as [s1 [Hb HI1]].
      { rewrite El. apply in_or_app. right. left. reflexivity. }
      { exact HI. }
      destruct (IH (done ++ [x]) s1) as [s2 [Hf HI2]].
      { rewrite El, <- app_assoc. reflexivity. }
      { exact HI1. }
      exists s2. split; [|exact HI2].
      simpl. unfold bind. rewrite Hb. exact Hf. }
  intros s HI. apply (G l [] s); [reflexivity | exact HI].
Qed.

Lemma set_u_same (s : FuzzyCMeans) : set_u (self_u s) s = s.
Proof. destruct s; reflexivity. Qed.

Lemma raw_membership_set_u (s : FuzzyCMeans) (w : list (list float64)) (k i : nat) :
  length w = length (self_u s) ->
  raw_membership (set_u w s) k i = raw_membership s k i.
Proof.
  intros H. unfold raw_membership, dist. simpl. rewrite H. reflexivity.
Qed.

Lemma well_shaped_set_u (s : FuzzyCMeans) (n d : nat) (w : list (list float64)) :
  well_shaped n d s -> has_shape (self_K s) n w -> well_shaped n d (set_u w s).
Proof. intros [HX [HC _]] Hw. repeat split; simpl; try apply HX; try apply HC; apply Hw. Qed.

Lemma update_u_entry_run (s : FuzzyCMeans) (n d k i : nat) :
  well_shaped n d s -> self_m s <> 1 -> (k < self_K s)%nat -> (i < n)%nat ->
  update_u_entry k i s
  = Return tt (set_u (upd (self_u s) k
                          (upd (nth k (self_u s) []) i (raw_membership s k i)))
                     s).
Proof.
  intros [HX [HC HU]] Hm Hk Hi. unfold update_u_entry.
  unfold bind at 1. rewrite (distance_run s n d i k HX HC Hi Hk).
  unfold bind at 1, get at 1. unfold bind at 1.
  rewrite (fold_in_pure
             (fun j acc => fadd acc (fpow (fdiv (dist s i k) (dist s i j))
                                          (2 / (self_m s - 1))))).
  2:{ intros j acc Hj. apply in_range in Hj. unfold bind at 1.
      rewrite (distance_run s n d i j HX HC Hi) by (destruct HU; lia).
      unfold bind, get, lift, ret, py_truediv.
      destruct (Req_dec_T (self_m s - 1) 0); [lra|]. reflexivity. }
  rewrite fold_left_fadd, fadd_0_l.
  unfold bind at 1.
  replace (length (self_u s) =? 0)%nat with false
    by (symmetry; apply Nat.eqb_neq; destruct HU; lia).
  unfold ret at 1. unfold bind, get, lift, modify.
  rewrite setitem2_run.
  - reflexivity.
  - destruct HU; lia.
  - rewrite (has_shape_nth _ _ _ k HU Hk). exact Hi.
Qed.

Lemma update_u_row_run (s0 : FuzzyCMeans) (n d k : nat) :
  well_shaped n d s0 -> self_m s0 <> 1 -> (k < self_K s0)%nat ->
  exists w,
    for_in (range n) (fun i => update_u_entry k i) s0 = Return tt (set_u w s0)
    /\ has_shape (self_K s0) n w
    /\ (forall i, (i < n)%nat -> entry w k i = raw_membership s0 k i)
    /\ (forall k' i, k' <> k -> entry w k' i = entry (self_u s0) k' i).
Proof.
  intros Hs Hm Hk.
  destruct (for_in_invariant
    (fun done s => exists w,
       s = set_u w s0
       /\ has_shape (self_K s0) n w
       /\ (forall i, In i done -> entry w k i = raw_membership s0 k i)
       /\ (forall k' i, k' <> k -> entry w k' i = entry (self_u s0) k' i))
    (fun i => update_u_entry k i) (range n)) with (s := s0)
    as [s' [Hrun [w [-> [Hw [Hdone Hother]]]]]].
  - intros done x s Hx [w [-> [Hw [Hdone Hother]]]].
    apply in_range in Hx.
    pose proof (well_shaped_set_u s0 n d w Hs Hw) as Hs'.
    rewrite (update_u_entry_run (set_u w s0) n d k x Hs' Hm Hk Hx).
    simpl. eexists. split; [reflexivity|].
    assert (Hlk : (k < length w)%nat) by (destruct Hw; lia).
    assert (Hlx : (x < length (nth k w []))%nat)
      by (rewrite (has_shape_nth _ _ _ k Hw Hk); exact Hx).
    eexists. split; [reflexivity|]. split; [|split].
    + apply upd2_shape; assumption.
    + intros i Hi. destruct (Nat.eq_dec i x) as [->|Hne].
      * rewrite upd2_entry_same by assumption.
        apply raw_membership_set_u. destruct Hw as [Hw _], Hs as [_ [_ [Hu _]]].
        congruence.
      * rewrite upd2_entry_other by (try assumption; right; exact Hne).
        apply Hdone. apply in_app_or in Hi. destruct Hi as [Hi|[Hi|[]]];
          [exact Hi | congruence].
    + intros k' i Hk'.
      rewrite upd2_entry_other by (try assumption; left; exact Hk').
      apply Hother. exact Hk'.
  - exists (self_u s0). split; [symmetry; apply set_u_same|].
    split; [apply Hs|]. split; [intros i []|]. reflexivity.
  - exists w. split; [exact Hrun|]. split; [exact Hw|]. split; [|exact Hother].
    intros i Hi. apply Hdone. apply in_range. exact Hi.
Qed.

Lemma raw_u_shape (s : FuzzyCMeans) :
  has_shape (self_K s) (length (self_X s)) (raw_u s).
Proof.
  unfold raw_u, range. split.
  - rewrite length_map, length_seq. reflexivity.
  - apply Forall_forall. intros r Hr. apply in_map_iff in Hr.
    destruct Hr as [k [<- _]]. rewrite length_map, length_seq. reflexivity.
Qed.

Lemma raw_u_entry (s : FuzzyCMeans) (k i : nat) :
  (k < self_K s)%nat -> (i < length (self_X s))%nat ->
  entry (raw_u s) k i = raw_membership s k i.
Proof.
  intros Hk Hi. unfold entry, raw_u.
  rewrite nth_map_range by exact Hk. rewrite nth_map_range by exact Hi.
  reflexivity.
Qed.

Lemma update_u_loops_run (s0 : FuzzyCMeans) (n d : nat) :
  well_shaped n d s0 -> self_m s0 <> 1 ->
  for_in (range (self_K s0))
         (fun k => s1 <- get ;;
                   for_in (range (length (self_X s1)))
                          (fun i => update_u_entry k i)) s0
  = Return tt (set_u (raw_u s0) s0).
Proof.
  intros Hs Hm.
  assert (Hn : length (self_X s0) = n) by (destruct Hs as [[H _] _]; exact H).
  destruct (for_in_invariant
    (fun done s => exists w,
       s = set_u w s0
       /\ has_shape (self_K s0) n w
       /\ (forall k i, In k done -> (i < n)%nat ->
             entry w k i = raw_membership s0 k i))
    (fun k => s1 <- get ;;
              for_in (range (length (self_X s1)))
                     (fun i => update_u_entry k i))
    (range (self_K s0))) with (s := s0)
    as [s' [Hrun [w [-> [Hw Hdone]]]]].
  - intros done k s Hk [w [-> [Hw Hdone]]]. apply in_range in Hk.
    pose proof (well_shaped_set_u s0 n d w Hs Hw) as Hs'.
    unfold bind, get. simpl. rewrite Hn.
    destruct (update_u_row_run (set_u w s0) n d k Hs' Hm Hk)
      as [w' [Hrow [Hw' [Hrowk Hothers]]]].
    rewrite Hrow. simpl in *. eexists. split; [reflexivity|].
    exists w'. split; [reflexivity|]. split; [exact Hw'|].
    intros k0 i Hk0 Hi. destruct (Nat.eq_dec k0 k) as [->|Hne].
    + rewrite Hrowk by exact Hi. apply raw_membership_set_u.
      destruct Hw as [Hw _], Hs as [_ [_ [Hu _]]]. congruence.
    + rewrite Hothers by exact Hne. apply Hdone; [|exact Hi].
      apply in_app_or in Hk0. destruct Hk0 as [Hk0|[Hk0|[]]];
        [exact Hk0 | congruence].
  - exists (self_u s0). split; [symmetry; apply set_u_same|].
    split; [apply Hs|]. intros k i [].
  - rewrite Hrun. do 2 f_equal.
    apply (matrix_ext (self_K s0) n); [exact Hw | | ].
    + rewrite <- Hn. apply raw_u_shape.
    + intros k i Hk Hi. rewrite raw_u_entry by (rewrite ?Hn; assumption).
      apply Hdone; [apply in_range; exact Hk | exact Hi].
Qed.

Lemma broadcast_row_right {A B C} (g : A -> B -> result C) (a : list A) (y : B) :
  broadcast g a [y] = mapM (fun x => g x y) a.
Proof.
  destruct a as [|x [|x' a']]; reflexivity.
Qed.

Lemma sum_axis0_length (w : list (list float64)) :
  length (sum_axis0 w) = ncols w.
Proof. unfold sum_axis0, range. rewrite length_map, length_seq. reflexivity. Qed.

Lemma normalize_columns_run (k n : nat) (w : list (list float64)) :
  has_shape k n w -> normalize_columns w = Ok (normalized w).
Proof.
  intros Hw. unfold normalize_columns, np_div2, normalized.
  rewrite broadcast_row_right.
  rewrite <- (mapM_total (fun r => map (fun p => fdiv (fst p) (snd p))
                                     (combine r (sum_axis0 w)))).
  apply mapM_ext. intros r Hr. apply broadcast_zip.
  rewrite sum_axis0_length.
  destruct Hw as [Hl Hrows]. rewrite Forall_forall in Hrows.
  rewrite (Hrows r Hr). symmetry.
  apply (has_shape_ncols k n).
  - split; [exact Hl | apply Forall_forall; exact Hrows].
  - destruct w; [contradiction | simpl in Hl; lia].
Qed.

(** [_update_v]'s counterpart for the memberships: on consistent shapes and
    with [m <> 1] the update returns normally and rebinds only [u]. *)
Lemma update_u_run (s : FuzzyCMeans) (n d : nat) :
  well_shaped n d s -> self_m s <> 1 ->
  _update_u s = Return tt (set_u (normalized (raw_u s)) s).
Proof.
  intros Hs Hm. unfold _update_u.
  unfold bind at 1, get at 1. unfold bind at 1.
  rewrite (update_u_loops_run s n d Hs Hm).
  unfold bind, get, lift, modify. simpl.
  rewrite (normalize_columns_run (self_K s) (length (self_X s)))
    by apply raw_u_shape.
  reflexivity.
Qed.

Lemma normalized_shape (k n : nat) (w : list (list float64)) :
  has_shape k n w -> has_shape k n (normalized w).
Proof.
  intros [Hl Hrows]. unfold normalized. split.
  - rewrite length_map. exact Hl.
  - apply Forall_forall. intros r Hr. apply in_map_iff in Hr.
    destruct Hr as [r0 [<- Hr0]].
    rewrite length_map, length_combine, sum_axis0_length.
    rewrite Forall_forall in Hrows. rewrite (Hrows r0 Hr0).
    rewrite (has_shape_ncols k n w).
    + lia.
    + split; [exact Hl | apply Forall_forall; exact Hrows].
    + destruct w; [contradiction | simpl in Hl; lia].
Qed.

Lemma sum_axis0_nth (k n : nat) (w : list (list float64)) (i : nat) :
  has_shape k n w -> (1 <= k)%nat -> (i < n)%nat ->
  nth i (sum_axis0 w) NaN = fsum (column w i).
Proof.
  intros Hw Hk Hi. unfold sum_axis0.
  rewrite (has_shape_ncols k n w Hw Hk).
  apply (nth_map_range (fun j => fsum (column w j))). exact Hi.
Qed.

(** Entry [(k0, i)] of the normalised matrix is the old entry over the sum
    of its column. *)
Lemma normalized_entry (k n : nat) (w : list (list float64)) (k0 i : nat) :
  has_shape k n w -> (k0 < k)%nat -> (i < n)%nat ->
  entry (normalized w) k0 i = fdiv (entry w k0 i) (fsum (column w i)).
Proof.
  intros Hw Hk Hi. unfold entry, normalized.
  rewrite (@nth_map_in (list float64) (list float64) _ w k0 [] [])
    by (destruct Hw; lia).
  pose proof (has_shape_nth _ _ _ k0 Hw Hk) as Hr.
  rewrite (combine_as_range _ _ NaN NaN)
    by (rewrite sum_axis0_length, (has_shape_ncols k n w Hw); lia).
  rewrite map_map, Hr. rewrite nth_map_range by exact Hi. simpl.
  rewrite (sum_axis0_nth k n) by (try assumption; lia). reflexivity.
Qed.

Lemma normalized_column (k n : nat) (w : list (list float64)) (i : nat) :
  has_shape k n w -> (i < n)%nat ->
  column (normalized w) i
  = map (fun x => fdiv x (fsum (column w i))) (column w i).
Proof.
  intros Hw Hi.
  apply (nth_ext _ _ NaN NaN).
  - rewrite length_map, !column_length. unfold normalized.
    apply length_map.
  - intros k0 Hk0. rewrite column_length in Hk0.
    assert (Hk : (k0 < k)%nat).
    { destruct (normalized_shape k n w Hw) as [Hl _]. lia. }
    rewrite column_nth by exact Hk0.
    rewrite (normalized_entry k n) by assumption.
    rewrite (nth_map_in (fun x => fdiv x (fsum (column w i))) _ k0 NaN NaN)
      by (rewrite column_length; destruct Hw; lia).
    rewrite column_nth by (destruct Hw; lia). reflexivity.
Qed.

(** One [nan] in a column before normalisation makes the whole column
    [nan] after it. *)
Lemma normalized_column_NaN (k n : nat) (w : list (list float64)) (k0 i : nat) :
  has_shape k n w -> (k0 < k)%nat -> (i < n)%nat ->
  entry w k0 i = NaN ->
  forall k1, (k1 < k)%nat -> entry (normalized w) k1 i = NaN.
Proof.
  intros Hw Hk Hi HNaN k1 Hk1.
  rewrite (normalized_entry k n) by assumption.
  rewrite (fsum_NaN (column w i)); [apply fdiv_NaN_r|].
  rewrite <- HNaN. rewrite <- column_nth by (destruct Hw; lia).
  apply nth_In. rewrite column_length. destruct Hw; lia.
Qed.

Lemma raw_membership_coincident (s : FuzzyCMeans) (k i : nat) :
  self_m s <> 1 -> (k < length (self_u s))%nat ->
  dist s i k = Fin 0 ->
  raw_membership s k i = NaN.
Proof.
  intros Hm Hk Hd. unfold raw_membership.
  assert (Hp : 2 / (self_m s - 1) <> 0).
  { unfold Rdiv. apply Rmult_integral_contrapositive. split; [lra|].
    apply Rinv_neq_0_compat. lra. }
  rewrite fsum_NaN; [apply fpow_NaN; lra|].
  apply in_map_iff. exists k. split; [|apply in_range; exact Hk].
  rewrite Hd. simpl. destruct (Req_dec_T 0 0) as [_|H]; [|lra].
  unfold signed_inf. destruct (Req_dec_T 0 0) as [_|H]; [|lra].
  apply fpow_NaN. exact Hp.
Qed.

(** The membership update at a point sitting on a centroid. *)
Lemma update_u_coincident (s : FuzzyCMeans) (n d k i : nat) :
  well_shaped n d s -> self_m s <> 1 ->
  (k < self_K s)%nat -> (i < n)%nat ->
  dist s i k = Fin 0 ->
  _update_u s = Return tt (set_u (normalized (raw_u s)) s)
  /\ has_shape (self_K s) n (normalized (raw_u s))
  /\ forall k1, (k1 < self_K s)%nat -> entry (normalized (raw_u s)) k1 i = NaN.
Proof.
  intros Hs Hm Hk Hi Hd.
  assert (Hn : length (self_X s) = n) by (destruct Hs as [[H _] _]; exact H).
  assert (Hsh : has_shape (self_K s) n (raw_u s))
    by (rewrite <- Hn; apply raw_u_shape).
  split; [apply (update_u_run s n d Hs Hm)|].
  split; [apply normalized_shape; exact Hsh|].
  apply (normalized_column_NaN (self_K s) n (raw_u s) k i Hsh Hk Hi).
  rewrite raw_u_entry by (rewrite ?Hn; assumption).
  apply raw_membership_coincident; try assumption.
  destruct Hs as [_ [_ [Hu _]]]. lia.
Qed.

(** C2 (as the code has it): [_update_u] has no special case for a point
    [x_i] that sits on a centroid [v_k].  With [m <> 1] it returns normally,
    having divided the zero distance by itself: every membership of that
    point, in cluster [k] and in every other cluster, is [nan] afterwards
    (not 1 and 0). *)
Theorem update_u_point_on_centroid :
  forall (s : FuzzyCMeans) (n d k i : nat),
    well_shaped n d s -> self_m s <> 1 ->
    (k < self_K s)%nat -> (i < n)%nat ->
    dist s i k = Fin 0 ->
    exists w,
      _update_u s = Return tt (set_u w s)
      /\ has_shape (self_K s) n w
      /\ forall k1, (k1 < self_K s)%nat -> entry w k1 i = NaN.
Proof.
  intros s n d k i Hs Hm Hk Hi Hd.
  exists (normalized (raw_u s)).
  exact (update_u_coincident s n d k i Hs Hm Hk Hi Hd).
Qed.

Lemma on_centroid_dist : dist on_centroid 0 0 = Fin 0.
Proof.
  unfold dist, norm, sqnorm. simpl.
  destruct (Rlt_dec _ 0) as [H|_]; [lra|].
  f_equal.
  match goal with |- sqrt ?x = 0 => replace x with 0 by lra end.
  apply sqrt_0.
Qed.

Lemma on_centroid_shaped : well_shaped 1 1 on_centroid.
Proof. repeat split; repeat constructor. Qed.

Lemma update_u_point_on_centroid_witness :
  exists w,
    _update_u on_centroid = Return tt (set_u w on_centroid)
    /\ has_shape 2 1 w
    /\ forall k1, (k1 < 2)%nat -> entry w k1 0 = NaN.
Proof.
  apply (update_u_point_on_centroid on_centroid 1 1 0 0).
  - exact on_centroid_shaped.
  - simpl. lra.
  - simpl. lia.
  - lia.
  - exact on_centroid_dist.
Defined.

(** C2, counterexample: the only point of [on_centroid] is the centroid of
    cluster 0.  After [_update_u] its membership is [nan] in both
    clusters, where the claim asks for 1 in cluster 0 and 0 in cluster 1. *)
Lemma update_u_on_centroid_all_nan :
  dist on_centroid 0 0 = Fin 0
  /\ _update_u on_centroid = Return tt (set_u [[NaN]; [NaN]] on_centroid).
Proof.
  split; [exact on_centroid_dist|].
  destruct (update_u_coincident on_centroid 1 1 0 0) as [Hrun [Hsh Hnan]].
  - exact on_centroid_shaped.
  - simpl. lra.
  - simpl. lia.
  - lia.
  - exact on_centroid_dist.
  - rewrite Hrun. do 2 f_equal.
    apply (matrix_ext 2 1); [exact Hsh | split; [reflexivity | repeat constructor] |].
    intros k0 i Hk0 Hi. assert (i = 0%nat) by lia. subst i.
    rewrite (Hnan k0) by exact Hk0.
    destruct k0 as [|[|k0]]; [reflexivity | reflexivity | lia].
Qed.

(* ------------------------------------------------------------------ *)
(** ** The fuzziness exponent 1 *)

Lemma well_shaped_after_update_v (s : FuzzyCMeans) (n d : nat) :
  has_shape n d (self_X s) -> has_shape (self_K s) n (self_u s) ->
  (1 <= n)%nat ->
  well_shaped n d (set_centroids (new_centroids s) s).
Proof.
  intros HX HU Hn. split; [exact HX|]. split; [|exact HU]. simpl.
  pose proof (new_centroids_shape s) as H.
  rewrite (has_shape_ncols n d _ HX Hn) in H.
  destruct HU as [HU _]. rewrite HU in H. exact H.
Qed.

(** With [m = 1] the first entry the membership update computes already
    raises, before anything is written. *)
Lemma update_u_m1 (s : FuzzyCMeans) (n d : nat) :
  well_shaped n d s -> self_m s = 1 ->
  (1 <= self_K s)%nat -> (1 <= n)%nat ->
  _update_u s = Raise ZeroDivisionError s.
Proof.
  intros Hs Hm HK Hn. destruct Hs as [HX [HC HU]].
  unfold _update_u. unfold bind at 1, get at 1. unfold bind at 1.
  destruct (self_K s) as [|K'] eqn:EK; [lia|].
  unfold range at 1. cbn [seq for_in].
  unfold bind at 1. unfold bind at 1, get at 1.
  replace (length (self_X s)) with n by (destruct HX; congruence).
  destruct n as [|n']; [lia|].
  unfold range at 1. cbn [seq for_in].
  unfold bind at 1. unfold update_u_entry. unfold bind at 1.
  rewrite (distance_run s (S n') d 0 0 HX) by (rewrite ?EK; try exact HC; lia).
  unfold bind at 1, get at 1. unfold bind at 1.
  replace (length (self_u s)) with (S K') by (destruct HU; congruence).
  unfold range at 1. cbn [seq fold_in].
  unfold bind at 1. unfold bind at 1.
  rewrite (distance_run s (S n') d 0 0 HX) by (rewrite ?EK; try exact HC; lia).
  unfold bind, get, lift, py_truediv.
  destruct (Req_dec_T (self_m s - 1) 0) as [_|H]; [reflexivity | lra].
Qed.

Lemma compute_centroids_m1 (s : FuzzyCMeans) (n d : nat) :
  has_shape n d (self_X s) -> has_shape (self_K s) n (self_u s) ->
  self_m s = 1 -> (1 <= self_K s)%nat -> (1 <= n)%nat ->
  _update_v s = Return tt (set_centroids (new_centroids s) s)
  /\ _compute_centroids s
     = Raise ZeroDivisionError (set_centroids (new_centroids s) s).
Proof.
  intros HX HU Hm HK Hn.
  assert (Hv : _update_v s = Return tt (set_centroids (new_centroids s) s)).
  { apply update_v_run. destruct HU as [_ Hr], HX as [HX _].
    rewrite HX. exact Hr. }
  split; [exact Hv|].
  pose proof (well_shaped_after_update_v s n d HX HU Hn) as Hs1.
  unfold _compute_centroids. unfold bind at 1. rewrite Hv.
  unfold bind at 1. rewrite (loss_run _ n d Hs1).
  unfold bind at 1.
  rewrite (update_u_m1 _ n d Hs1); [reflexivity | exact Hm | exact HK | exact Hn].
Qed.

(** C7 (as the code has it): [m = 1] is not rejected.  [__init__] stores
    [m] and [epsilon] unchecked and raises nothing of its own: its outcome
    is that of the base constructor.  An iteration with [m = 1] on at least
    one point and one cluster fails with a [ZeroDivisionError], raised by
    the membership update when it evaluates [2 / (m - 1)], after the
    centroid update of that iteration has run and replaced the centroids. *)
Theorem m_equal_1_fails_inside_first_iteration :
  (forall (kwargs : Type) (KMeans__init__ : kwargs -> M unit)
          (ev : R) (kw : kwargs) (s : FuzzyCMeans),
      __init__ kwargs KMeans__init__ 1 ev kw s
      = KMeans__init__ kw (set_m_epsilon 1 ev s))
  /\ (forall (s : FuzzyCMeans) (n d : nat),
        has_shape n d (self_X s) -> has_shape (self_K s) n (self_u s) ->
        self_m s = 1 -> (1 <= self_K s)%nat -> (1 <= n)%nat ->
        _update_v s = Return tt (set_centroids (new_centroids s) s)
        /\ _compute_centroids s
           = Raise ZeroDivisionError (set_centroids (new_centroids s) s)).
Proof.
  split.
  - intros kwargs KMeans__init__ ev kw s. reflexivity.
  - intros s n d HX HU Hm HK Hn.
    exact (compute_centroids_m1 s n d HX HU Hm HK Hn).
Qed.

Lemma m_equal_1_fails_inside_first_iteration_witness :
  _update_v crisp_m = Return tt (set_centroids (new_centroids crisp_m) crisp_m)
  /\ _compute_centroids crisp_m
     = Raise ZeroDivisionError (set_centroids (new_centroids crisp_m) crisp_m).
Proof.
  apply (proj2 m_equal_1_fails_inside_first_iteration crisp_m 2%nat 1%nat).
  - split; [reflexivity | repeat constructor].
  - split; [reflexivity | repeat constructor].
  - reflexivity.
  - simpl. lia.
  - lia.
Defined.

(** C7, counterexample: with a base constructor that accepts its
    arguments, constructing with [m = 1] returns normally with [m = 1]
    stored; the first iteration then replaces the centroids by
    [[3/2], [3/2]] and only after that raises, a [ZeroDivisionError]. *)
Lemma m_equal_1_accepted_then_zero_division :
  __init__ unit (fun _ => ret tt) 1 (1 / 100) tt two_points = Return tt crisp_m
  /\ _update_v crisp_m
     = Return tt (set_centroids [[Fin (3 / 2)]; [Fin (3 / 2)]] crisp_m)
  /\ _compute_centroids crisp_m
     = Raise ZeroDivisionError
             (set_centroids [[Fin (3 / 2)]; [Fin (3 / 2)]] crisp_m).
Proof.
  assert (E : new_centroids crisp_m = [[Fin (3 / 2)]; [Fin (3 / 2)]]).
  { unfold new_centroids. simpl.
    rewrite fpow_pos by lra. rewrite Rpower_1 by lra. simpl.
    destruct (Req_dec_T _ 0) as [H|_]; [lra|].
    replace ((1 / 2 * 0 + (1 / 2 * 3 + 0)) / (1 / 2 + (1 / 2 + 0)))
      with (3 / 2) by field.
    reflexivity. }
  split; [reflexivity|].
  destruct (compute_centroids_m1 crisp_m 2 1) as [Hv Hc].
  - split; [reflexivity | repeat constructor].
  - split; [reflexivity | repeat constructor].
  - reflexivity.
  - simpl. lia.
  - lia.
  - rewrite E in Hv, Hc. split; assumption.
Qed.

(* ------------------------------------------------------------------ *)
(** ** Finite values and real sums *)

Lemma Rsum_scale (c : R) (l : list R) :
  Rsum (map (fun x => x * c) l) = Rsum l * c.
Proof.
  unfold Rsum. induction l as [|x xs IH]; simpl; [lra|]. rewrite IH. lra.
Qed.

Lemma Rsum_plus {A} (f g : A -> R) (l : list A) :
  Rsum (map (fun x => f x + g x) l) = Rsum (map f l) + Rsum (map g l).
Proof.
  unfold Rsum. induction l as [|x xs IH]; simpl; [lra|]. rewrite IH. lra.
Qed.

Lemma Rsum_map_scale {A} (f : A -> R) (c : R) (l : list A) :
  Rsum (map (fun x => c * f x) l) = c * Rsum (map f l).
Proof.
  unfold Rsum. induction l as [|x xs IH]; simpl; [lra|]. rewrite IH. lra.
Qed.

Lemma Rsum_le {A} (f g : A -> R) (l : list A) :
  (forall x, In x l -> f x <= g x) -> Rsum (map f l) <= Rsum (map g l).
Proof.
  unfold Rsum. induction l as [|x xs IH]; simpl; intros H; [lra|].
  pose proof (H x (or_introl eq_refl)).
  assert (forall y, In y xs -> f y <= g y) by (intros; apply H; auto).
  specialize (IH H1). lra.
Qed.

Lemma Rsum_nonneg {A} (f : A -> R) (l : list A) :
  (forall x, In x l -> 0 <= f x) -> 0 <= Rsum (map f l).
Proof.
  unfold Rsum. induction l as [|x xs IH]; simpl; intros H; [lra|].
  pose proof (H x (or_introl eq_refl)).
  assert (forall y, In y xs -> 0 <= f y) by (intros; apply H; auto).
  specialize (IH H1). lra.
Qed.

Lemma Rsum_pos_range (g : nat -> R) (n : nat) :
  (1 <= n)%nat -> (forall i, (i < n)%nat -> 0 < g i) ->
  0 < Rsum (map g (range n)).
Proof.
  intros Hn H. unfold range. destruct n as [|n']; [lia|].
  simpl. pose proof (H 0%nat ltac:(lia)).
  assert (0 <= Rsum (map g (seq 1 n'))).
  { apply Rsum_nonneg. intros x Hx. apply in_seq in Hx.
    apply Rlt_le. apply H. lia. }
  unfold Rsum in *. lra.
Qed.

Lemma Rsum_ext_range (f g : nat -> R) (n : nat) :
  (forall i, (i < n)%nat -> f i = g i) ->
  Rsum (map f (range n)) = Rsum (map g (range n)).
Proof. intros H. f_equal. apply map_range_ext. exact H. Qed.

(** Summing over points then clusters, or clusters then points. *)
Lemma Rsum_exchange {A B} (f : A -> B -> R) (la : list A) (lb : list B) :
  Rsum (map (fun a => Rsum (map (fun b => f a b) lb)) la)
  = Rsum (map (fun b => Rsum (map (fun a => f a b) la)) lb).
Proof.
  induction la as [|a la IH]; simpl.
  - induction lb as [|b lb IHb]; simpl; [reflexivity|].
    unfold Rsum in *. simpl. rewrite <- IHb. lra.
  - unfold Rsum in *. simpl. rewrite IH.
    rewrite <- (Rsum_plus (fun b => f a b)
                          (fun b => fold_right Rplus 0 (map (fun a0 => f a0 b) la))).
    reflexivity.
Qed.

Lemma fsum_map_Fin_range (f : nat -> float64) (g : nat -> R) (n : nat) :
  (forall i, (i < n)%nat -> f i = Fin (g i)) ->
  fsum (map f (range n)) = Fin (Rsum (map g (range n))).
Proof.
  intros H. rewrite (map_range_ext f (fun i => Fin (g i)) n H).
  rewrite <- (map_map g Fin). apply fsum_Fin.
Qed.

Lemma column_as_range (w : list (list float64)) (i : nat) :
  column w i = map (fun k => entry w k i) (range (length w)).
Proof. unfold column, entry. apply (map_as_range (fun r => nth i r NaN)). Qed.

(** A column of real numbers with a non-zero sum sums to 1 once divided by
    its sum. *)
Lemma normalized_column_sum (k n : nat) (w : list (list float64)) (i : nat)
    (g : nat -> R) :
  has_shape k n w -> (i < n)%nat ->
  (forall k0, (k0 < k)%nat -> entry w k0 i = Fin (g k0)) ->
  Rsum (map g (range k)) <> 0 ->
  fsum (column (normalized w) i) = Fin 1.
Proof.
  intros Hw Hi Hg Hc.
  rewrite (normalized_column k n w i Hw Hi).
  rewrite column_as_range. destruct Hw as [Hl Hrows]. rewrite Hl.
  rewrite (fsum_map_Fin_range _ g k Hg). rewrite map_map.
  rewrite (fsum_map_Fin_range _ (fun k0 => g k0 * / Rsum (map g (range k))) k).
  - f_equal. rewrite <- (map_map g (fun x => x * / Rsum (map g (range k)))).
    rewrite Rsum_scale. field. exact Hc.
  - intros k0 Hk0. rewrite (Hg k0 Hk0). simpl.
    destruct (Req_dec_T (Rsum (map g (range k))) 0) as [E|_]; [contradiction|].
    reflexivity.
Qed.

Lemma init_u_run (rand : nat -> nat -> R) (s : FuzzyCMeans) :
  _init_u rand s = Return tt (set_u (normalized (drawn rand s)) s).
Proof.
  unfold _init_u. unfold bind, get, lift, modify.
  fold (drawn rand s).
  rewrite (normalize_columns_run (self_K s) (length (self_X s))).
  - reflexivity.
  - unfold drawn, range. split.
    + rewrite length_map, length_seq. reflexivity.
    + apply Forall_forall. intros r Hr. apply in_map_iff in Hr.
      destruct Hr as [k [<- _]]. rewrite length_map, length_seq. reflexivity.
Qed.

Lemma drawn_shape (rand : nat -> nat -> R) (s : FuzzyCMeans) :
  has_shape (self_K s) (length (self_X s)) (drawn rand s).
Proof.
  unfold drawn, range. split.
  - rewrite length_map, length_seq. reflexivity.
  - apply Forall_forall. intros r Hr. apply in_map_iff in Hr.
    destruct Hr as [k [<- _]]. rewrite length_map, length_seq. reflexivity.
Qed.

Lemma drawn_entry (rand : nat -> nat -> R) (s : FuzzyCMeans) (k i : nat) :
  (k < self_K s)%nat -> (i < length (self_X s))%nat ->
  entry (drawn rand s) k i = Fin (rand k i).
Proof.
  intros Hk Hi. unfold entry, drawn.
  rewrite nth_map_range by exact Hk. rewrite nth_map_range by exact Hi.
  reflexivity.
Qed.

(** *** Distances between finite vectors *)

Lemma finite_sub (a b : list float64) :
  Forall (fun x => is_finite x = true) a ->
  Forall (fun x => is_finite x = true) b ->
  Forall (fun x => is_finite x = true)
         (map (fun p => fsub (fst p) (snd p)) (combine a b)).
Proof.
  intros Ha. revert b. induction Ha as [|x a Hx Ha IH]; intros b Hb; simpl.
  - constructor.
  - destruct Hb as [|y b Hy Hb]; simpl; constructor.
    + destruct x, y; simpl in *; try discriminate. reflexivity.
    + apply IH. exact Hb.
Qed.

Lemma sqnorm_finite (v : list float64) :
  Forall (fun x => is_finite x = true) v ->
  exists r, sqnorm v = Fin r /\ 0 <= r.
Proof.
  unfold sqnorm, fsum. induction 1 as [|x v Hx Hv [r [IH Hr]]]; simpl.
  - exists 0. split; [reflexivity | lra].
  - rewrite IH. destruct x as [a| | |]; simpl in *; try discriminate.
    exists (a * a + r). split; [reflexivity | nra].
Qed.

Lemma norm_finite (v : list float64) :
  Forall (fun x => is_finite x = true) v ->
  exists r, norm v = Fin r /\ 0 <= r.
Proof.
  intros Hv. destruct (sqnorm_finite v Hv) as [r [E Hr]].
  unfold norm. rewrite E. simpl.
  destruct (Rlt_dec r 0) as [H|_]; [lra|].
  exists (sqrt r). split; [reflexivity | apply sqrt_pos].
Qed.

Lemma all_finite_row (a : list (list float64)) (i : nat) :
  all_finite a -> Forall (fun x => is_finite x = true) (nth i a []).
Proof.
  intros Ha. destruct (Nat.lt_ge_cases i (length a)) as [Hi|Hi].
  - unfold all_finite in Ha. rewrite Forall_forall in Ha.
    apply Ha. apply nth_In. exact Hi.
  - rewrite nth_overflow by exact Hi. constructor.
Qed.

Lemma bounded_all_finite (B : R) (a : list (list float64)) :
  bounded B a -> all_finite a.
Proof.
  unfold bounded, all_finite. intros H.
  apply Forall_forall. intros r Hr. apply Forall_forall. intros x Hx.
  rewrite Forall_forall in H. specialize (H r Hr).
  rewrite Forall_forall in H. destruct (H x Hx) as [v [-> _]]. reflexivity.
Qed.

Lemma dist_finite (s : FuzzyCMeans) (i k : nat) :
  all_finite (self_X s) -> all_finite (self_centroids s) ->
  dist s i k = Fin (to_R (dist s i k)) /\ 0 <= to_R (dist s i k).
Proof.
  intros HX HC. unfold dist.
  destruct (norm_finite _ (finite_sub _ _ (all_finite_row _ i HX)
                                      (all_finite_row _ k HC))) as [r [E Hr]].
  rewrite E. simpl. split; [reflexivity | exact Hr].
Qed.

Lemma dist_positive (s : FuzzyCMeans) (i k : nat) :
  all_finite (self_X s) -> all_finite (self_centroids s) ->
  ~ coincides s i k ->
  dist s i k = Fin (to_R (dist s i k)) /\ 0 < to_R (dist s i k).
Proof.
  intros HX HC Hne. destruct (dist_finite s i k HX HC) as [E Hr].
  split; [exact E|]. destruct Hr as [Hr|Hr]; [exact Hr|].
  exfalso. apply Hne. unfold coincides. rewrite E, <- Hr. reflexivity.
Qed.

Lemma Rpower_pos (x y : R) : 0 < Rpower x y.
Proof. unfold Rpower. apply exp_pos. Qed.

Lemma sqrt_of_square (x y : R) : 0 <= y -> x = y * y -> sqrt x = y.
Proof. intros Hy ->. apply sqrt_square. exact Hy. Qed.

Lemma exponent_nonzero (mv : R) : mv <> 1 -> 2 / (mv - 1) <> 0.
Proof.
  intros H. unfold Rdiv. apply Rmult_integral_contrapositive. split; [lra|].
  apply Rinv_neq_0_compat. lra.
Qed.

(** Off the centroids the value written at [(k, i)] is a positive real. *)
Lemma raw_membership_real (s : FuzzyCMeans) (k i : nat) :
  all_finite (self_X s) -> all_finite (self_centroids s) ->
  self_m s <> 1 ->
  (forall j, (j < length (self_u s))%nat -> ~ coincides s i j) ->
  (k < length (self_u s))%nat ->
  raw_membership s k i = Fin (raw_real s k i) /\ 0 < raw_real s k i.
Proof.
  intros HX HC Hm Hoff Hk.
  assert (Hsum : 0 < ratio_sum s k i).
  { unfold ratio_sum. apply Rsum_pos_range; [lia|].
    intros j _. apply Rpower_pos. }
  split; [|apply Rpower_pos].
  unfold raw_membership, raw_real.
  rewrite (fsum_map_Fin_range _
             (fun j => Rpower (delta s i k / delta s i j) (2 / (self_m s - 1)))).
  - fold (ratio_sum s k i). apply fpow_pos; lra.
  - intros j Hj.
    destruct (dist_positive s i k HX HC (Hoff k Hk)) as [Ek Hkpos].
    destruct (dist_positive s i j HX HC (Hoff j Hj)) as [Ej Hjpos].
    rewrite Ek, Ej. fold (delta s i k) (delta s i j) in *. simpl.
    destruct (Req_dec_T (delta s i j) 0) as [E|_]; [lra|].
    apply fpow_pos; [|apply exponent_nonzero; exact Hm].
    apply Rdiv_lt_0_compat; assumption.
Qed.

Lemma Rsum_pos_exists {A} (f : A -> R) (l : list A) :
  (forall x, In x l -> 0 <= f x) ->
  (exists x, In x l /\ 0 < f x) ->
  0 < Rsum (map f l).
Proof.
  unfold Rsum. induction l as [|a l IH]; simpl; intros Hnn [x [Hin Hx]];
    [contradiction|].
  assert (Hl : 0 <= fold_right Rplus 0 (map f l)).
  { apply (Rsum_nonneg f l). intros y Hy. apply Hnn. right. exact Hy. }
  pose proof (Hnn a (or_introl eq_refl)) as Ha.
  destruct Hin as [->|Hin]; [lra|].
  assert (0 < fold_right Rplus 0 (map f l)).
  { apply IH; [intros y Hy; apply Hnn; right; exact Hy|].
    exists x. split; assumption. }
  lra.
Qed.

Lemma Rsum_const {A} (a : R) (l : list A) :
  Rsum (map (fun _ => a) l) = INR (length l) * a.
Proof.
  unfold Rsum. induction l as [|x l IH]; [simpl; lra|].
  cbn [map fold_right length]. rewrite IH, S_INR. lra.
Qed.

Lemma init_u_column_sum (rand : nat -> nat -> R) (s : FuzzyCMeans) (i : nat) :
  (i < length (self_X s))%nat ->
  (forall k, (k < self_K s)%nat -> 0 <= rand k i) ->
  (exists k, (k < self_K s)%nat /\ 0 < rand k i) ->
  fsum (column (normalized (drawn rand s)) i) = Fin 1.
Proof.
  intros Hi Hnn Hpos.
  apply (normalized_column_sum (self_K s) (length (self_X s)) _ i
                               (fun k => rand k i)).
  - apply drawn_shape.
  - exact Hi.
  - intros k Hk. apply drawn_entry; assumption.
  - apply Rgt_not_eq. apply Rsum_pos_exists.
    + intros k Hk. apply in_range in Hk. apply Hnn. exact Hk.
    + destruct Hpos as [k [Hk Hr]]. exists k. split; [|exact Hr].
      apply in_range. exact Hk.
Qed.

Lemma update_u_column_sum (s : FuzzyCMeans) (n d i : nat) :
  well_shaped n d s ->
  all_finite (self_X s) -> all_finite (self_centroids s) ->
  self_m s <> 1 -> (1 <= self_K s)%nat -> (i < n)%nat ->
  (forall k, (k < self_K s)%nat -> ~ coincides s i k) ->
  fsum (column (normalized (raw_u s)) i) = Fin 1.
Proof.
  intros Hs HX HC Hm HK Hi Hoff.
  assert (Hn : length (self_X s) = n) by (destruct Hs as [[H _] _]; exact H).
  assert (Hu : length (self_u s) = self_K s)
    by (destruct Hs as [_ [_ [H _]]]; exact H).
  assert (Hraw : forall k, (k < self_K s)%nat ->
            raw_membership s k i = Fin (raw_real s k i) /\ 0 < raw_real s k i).
  { intros k Hk. apply raw_membership_real; try assumption.
    - intros j Hj. apply Hoff. lia.
    - lia. }
  apply (normalized_column_sum (self_K s) n _ i (fun k => raw_real s k i)).
  - rewrite <- Hn. apply raw_u_shape.
  - exact Hi.
  - intros k Hk. rewrite raw_u_entry by (rewrite ?Hn; assumption).
    apply (Hraw k Hk).
  - apply Rgt_not_eq. apply Rsum_pos_range; [exact HK|].
    intros k Hk. apply (Hraw k Hk).
Qed.

Lemma two_points_shaped : well_shaped 2 1 two_points.
Proof. repeat split; repeat constructor. Qed.

Lemma two_points_off_centroids (i k : nat) :
  (i < 2)%nat -> (k < 2)%nat -> ~ coincides two_points i k.
Proof.
  intros Hi Hk. unfold coincides, dist, norm, sqnorm.
  destruct i as [|[|i]]; [| |lia]; (destruct k as [|[|k]]; [| |lia]); simpl;
    (destruct (Rlt_dec _ 0) as [H|_]; [lra|]);
    intros E; inversion E as [E0]; apply sqrt_eq_0 in E0; lra.
Qed.

(** C1, counterexample: a dataset of one point and one cluster.  [_init_u]
    gives [u = [[1]]]; the first iteration moves the centroid onto the point
    (it is the weighted mean of that one point) and the membership update
    then leaves [u = [[nan]]]: the column of the point does not sum to 1. *)
Lemma single_point_column_is_nan :
  let s1 := set_u [[Fin 1]] fresh_single in
  let s2 := set_u [[NaN]] s1 in
  _init_u (fun _ _ => 1 / 2) fresh_single = Return tt s1
  /\ _compute_centroids s1 = Return tt s2
  /\ column_sum s2 0 = NaN
  /\ column_sum s2 0 <> Fin 1.
Proof.
  cbv zeta.
  assert (Hs1 : well_shaped 1 1 (set_u [[Fin 1]] fresh_single))
    by (repeat split; repeat constructor).
  split; [|split; [|split; [reflexivity | discriminate]]].
  - rewrite init_u_run. do 2 f_equal.
    unfold normalized, drawn. simpl.
    destruct (Req_dec_T _ 0) as [H|_]; [lra|].
    do 3 f_equal. field.
  - unfold _compute_centroids. unfold bind at 1.
    rewrite update_v_run by (repeat constructor).
    assert (E : new_centroids (set_u [[Fin 1]] fresh_single) = [[Fin 5]]).
    { unfold new_centroids. simpl. rewrite fpow_pos by lra.
      rewrite Rpower_base_1. simpl.
      destruct (Req_dec_T _ 0) as [H|_]; [lra|].
      do 3 f_equal. field. }
    rewrite E.
    assert (Hs2 : well_shaped 1 1
                    (set_centroids [[Fin 5]] (set_u [[Fin 1]] fresh_single)))
      by (repeat split; repeat constructor).
    unfold bind at 1. rewrite (loss_run _ 1 1 Hs2).
    unfold bind at 1.
    destruct (update_u_coincident _ 1 1 0 0 Hs2) as [Hrun [Hsh Hnan]].
    + simpl. lra.
    + simpl. lia.
    + lia.
    + unfold dist, norm, sqnorm. simpl.
      destruct (Rlt_dec _ 0) as [H|_]; [lra|].
      f_equal.
      match goal with |- sqrt ?x = 0 => replace x with 0 by lra end.
      apply sqrt_0.
    + rewrite Hrun.
      assert (Ew : normalized
                     (raw_u (set_centroids [[Fin 5]] (set_u [[Fin 1]] fresh_single)))
                   = [[NaN]]).
      { apply (matrix_ext 1 1); [exact Hsh | split; [reflexivity | repeat constructor] |].
        intros k0 i Hk0 Hi. assert (i = 0%nat) by lia. subst i.
        rewrite (Hnan k0) by exact Hk0.
        destruct k0 as [|k0]; [reflexivity | lia]. }
      rewrite Ew. unfold bind at 1.
      rewrite (loss_run _ 1 1) by (repeat split; repeat constructor).
      reflexivity.
Qed.

(* ------------------------------------------------------------------ *)
(** ** The two minimisation steps, on real numbers *)

Section Minimisation.

(** Bernoulli's inequality for a real exponent. *)
Lemma bernoulli_real (t mv : R) :
  0 < t -> 1 < mv -> 1 + mv * (t - 1) <= Rpower t mv.
Proof.
  intros Ht Hm.
  pose proof (exp_ineq1_le ((mv - 1) * ln t)) as HA.
  pose proof (exp_ineq1_le (- ln t)) as HB.
  rewrite exp_Ropp, exp_ln in HB by lra.
  unfold Rpower.
  replace (mv * ln t) with (ln t + (mv - 1) * ln t) by ring.
  rewrite exp_plus, exp_ln by lra.
  set (A := exp ((mv - 1) * ln t)) in *. set (y := ln t) in *.
  assert (H1 : t * (1 + - y) <= 1).
  { replace 1 with (t * / t) at 2 by (field; lra).
    apply Rmult_le_compat_l; lra. }
  assert (H2 : t * (1 + (mv - 1) * y) <= t * A)
    by (apply Rmult_le_compat_l; lra).
  assert (H3 : (mv - 1) * (t - 1) <= (mv - 1) * (t * y))
    by (apply Rmult_le_compat_l; lra).
  lra.
Qed.

Lemma Rpower_split (a mv : R) : 0 < a -> Rpower a mv = Rpower a (mv - 1) * a.
Proof.
  intros Ha. rewrite <- (Rpower_1 a Ha) at 3. rewrite <- Rpower_plus.
  f_equal. ring.
Qed.

(** [u ^ m] lies above its tangent at [a]. *)
Lemma tangent_line (a x mv : R) :
  0 < a -> 0 <= x -> 1 < mv ->
  Rpower a mv + mv * Rpower a (mv - 1) * (x - a) <= pw x mv.
Proof.
  intros Ha Hx Hm. unfold pw.
  pose proof (Rpower_pos a (mv - 1)) as Hp.
  rewrite (Rpower_split a mv Ha).
  destruct (Rlt_dec 0 x) as [Hpos|Hz].
  - assert (Hq : 0 < x / a) by (apply Rdiv_lt_0_compat; assumption).
    pose proof (bernoulli_real (x / a) mv Hq Hm) as HB.
    assert (E : Rpower x mv = Rpower a (mv - 1) * a * Rpower (x / a) mv).
    { rewrite <- (Rpower_split a mv Ha).
      rewrite Rpower_mult_distr by assumption.
      f_equal. field. lra. }
    rewrite E.
    assert (H1 : Rpower a (mv - 1) * a * (1 + mv * (x / a - 1))
                 <= Rpower a (mv - 1) * a * Rpower (x / a) mv).
    { apply Rmult_le_compat_l; [|exact HB].
      apply Rlt_le. apply Rmult_lt_0_compat; assumption. }
    replace (Rpower a (mv - 1) * a + mv * Rpower a (mv - 1) * (x - a))
      with (Rpower a (mv - 1) * a * (1 + mv * (x / a - 1)));
      [exact H1 | field; lra].
  - assert (x = 0) by lra. subst x.
    assert (0 <= Rpower a (mv - 1) * a * (mv - 1)).
    { apply Rmult_le_pos; [|lra]. apply Rmult_le_pos; lra. }
    lra.
Qed.

Lemma Rsum_affine {A} (f g h : A -> R) (c : R) (l : list A) :
  Rsum (map (fun x => f x - c * (g x - h x)) l)
  = Rsum (map f l) - c * (Rsum (map g l) - Rsum (map h l)).
Proof.
  unfold Rsum. induction l as [|x xs IH]; simpl; [lra|]. rewrite IH. lra.
Qed.

(** The membership step at one point: among the non-negative memberships
    [x] with the same total, the objective is least at the memberships [a]
    for which [e k * a k ^ (m - 1)] does not depend on [k]. *)
Lemma membership_step_point (K : nat) (e a x : nat -> R) (mv C : R) :
  1 < mv ->
  (forall k, (k < K)%nat -> 0 < a k) ->
  (forall k, (k < K)%nat -> 0 <= x k) ->
  (forall k, (k < K)%nat -> 0 <= e k) ->
  (forall k, (k < K)%nat -> e k * Rpower (a k) (mv - 1) = C) ->
  Rsum (map a (range K)) = Rsum (map x (range K)) ->
  Rsum (map (fun k => Rpower (a k) mv * e k) (range K))
  <= Rsum (map (fun k => pw (x k) mv * e k) (range K)).
Proof.
  intros Hm Ha Hx He HC Hsum.
  apply Rle_trans
    with (Rsum (map (fun k => pw (x k) mv * e k - mv * C * (x k - a k))
                    (range K))).
  - apply Rsum_le. intros k Hk. apply in_range in Hk.
    pose proof (tangent_line (a k) (x k) mv (Ha k Hk) (Hx k Hk) Hm) as HT.
    assert (H1 : (Rpower (a k) mv + mv * Rpower (a k) (mv - 1) * (x k - a k)) * e k
                 <= pw (x k) mv * e k)
      by (apply Rmult_le_compat_r; [apply He; exact Hk | exact HT]).
    rewrite <- (HC k Hk). lra.
  - rewrite (Rsum_affine (fun k => pw (x k) mv * e k) x a (mv * C)).
    rewrite Hsum. lra.
Qed.

Lemma Rsum_quadratic {A} (w x : A -> R) (b : R) (l : list A) :
  Rsum (map (fun i => w i * ((x i - b) * (x i - b))) l)
  = Rsum (map (fun i => w i * (x i * x i)) l)
    - 2 * b * Rsum (map (fun i => w i * x i) l)
    + b * b * Rsum (map w l).
Proof.
  unfold Rsum. induction l as [|i l IH]; simpl; [lra|]. rewrite IH. lra.
Qed.

(** The centroid step in one coordinate: the weighted mean minimises the
    weighted sum of squared deviations, whatever the sign of the single
    weights, as long as they sum to a positive number. *)
Lemma centroid_step_coordinate {A} (w x : A -> R) (b : R) (l : list A) :
  0 < Rsum (map w l) ->
  let c := Rsum (map (fun i => w i * x i) l) / Rsum (map w l) in
  Rsum (map (fun i => w i * ((x i - c) * (x i - c))) l)
  <= Rsum (map (fun i => w i * ((x i - b) * (x i - b))) l).
Proof.
  intros HW c. rewrite !Rsum_quadratic.
  set (W := Rsum (map w l)) in *.
  set (S1 := Rsum (map (fun i => w i * x i) l)) in *.
  assert (E : S1 = c * W) by (unfold c; field; lra).
  rewrite E. clearbody c W S1.
  pose proof (Rle_0_sqr (b - c)) as H1. unfold Rsqr in H1.
  assert (H2 : 0 <= W * ((b - c) * (b - c))) by (apply Rmult_le_pos; lra).
  lra.
Qed.

End Minimisation.

(* ------------------------------------------------------------------ *)
(** ** From the arrays to the real numbers *)

Lemma finite_to_R (a : float64) : is_finite a = true -> a = Fin (to_R a).
Proof. destruct a; simpl; intros H; try discriminate. reflexivity. Qed.

Lemma all_finite_entry (a : list (list float64)) (k n k0 i : nat) :
  has_shape k n a -> all_finite a -> (k0 < k)%nat -> (i < n)%nat ->
  entry a k0 i = Fin (to_R (entry a k0 i)).
Proof.
  intros Ha Hf Hk Hi. apply finite_to_R. unfold entry.
  pose proof (all_finite_row a k0 Hf) as Hrow. rewrite Forall_forall in Hrow.
  apply Hrow. apply nth_In. rewrite (has_shape_nth _ _ _ k0 Ha Hk). exact Hi.
Qed.

Lemma all_finite_of_entries (a : list (list float64)) (k n : nat) :
  has_shape k n a ->
  (forall k0 i, (k0 < k)%nat -> (i < n)%nat -> is_finite (entry a k0 i) = true) ->
  all_finite a.
Proof.
  intros Ha H. unfold all_finite. apply Forall_forall. intros r Hr.
  apply Forall_forall. intros x Hx.
  destruct (In_nth a r [] Hr) as [k0 [Hk0 Er]].
  destruct (In_nth r x NaN Hx) as [i [Hi Ex]].
  assert (Hk : (k0 < k)%nat) by (destruct Ha; lia).
  pose proof (has_shape_nth _ _ _ k0 Ha Hk) as Hlen. rewrite Er in Hlen.
  specialize (H k0 i Hk ltac:(lia)). unfold entry in H.
  rewrite Er, Ex in H. exact H.
Qed.

Lemma fpow_nonneg (r y : R) : 0 <= r -> 0 < y -> fpow (Fin r) y = Fin (pw r y).
Proof.
  intros Hr Hy. unfold fpow, pw.
  destruct (Req_dec_T y 0) as [E|_]; [lra|].
  destruct (Rlt_dec 0 r) as [Hpos|Hz]; [reflexivity|].
  destruct (Req_dec_T r 0) as [_|Hne]; [|lra].
  destruct (Rlt_dec 0 y) as [_|H]; [reflexivity | lra].
Qed.

Lemma pw_nonneg (r y : R) : 0 <= pw r y.
Proof.
  unfold pw. destruct (Rlt_dec 0 r); [apply Rlt_le, Rpower_pos | lra].
Qed.

Lemma pw_pos (r y : R) : 0 < r -> pw r y = Rpower r y.
Proof. intros H. unfold pw. destruct (Rlt_dec 0 r); [reflexivity | lra]. Qed.

(** The weights [U[k,i]^m] of a membership matrix. *)
Lemma weight_real (s : FuzzyCMeans) (n d k i : nat) :
  well_shaped n d s -> membership_matrix n s -> 0 < self_m s ->
  (k < self_K s)%nat -> (i < n)%nat ->
  fpow (entry (self_u s) k i) (self_m s) = Fin (weight s k i)
  /\ weight s k i = pw (ru s k i) (self_m s).
Proof.
  intros [_ [_ HU]] [Hf [Hnn _]] Hm Hk Hi.
  pose proof (all_finite_entry _ _ _ k i HU Hf Hk Hi) as E.
  unfold weight. rewrite E. fold (ru s k i).
  rewrite (fpow_nonneg _ _ (Hnn k i Hk Hi) Hm). simpl. split; reflexivity.
Qed.

Lemma sqdist_real (s : FuzzyCMeans) (n d i k : nat) :
  well_shaped n d s ->
  all_finite (self_X s) -> all_finite (self_centroids s) ->
  (i < n)%nat -> (k < self_K s)%nat ->
  sqdist (nth i (self_X s) []) (nth k (self_centroids s) [])
  = Fin (Rsum (map (fun j => (rx s i j - rv s k j) * (rx s i j - rv s k j))
                   (range d))).
Proof.
  intros [HX [HC _]] HfX HfC Hi Hk. unfold sqdist.
  pose proof (has_shape_nth _ _ _ i HX Hi) as Hli.
  pose proof (has_shape_nth _ _ _ k HC Hk) as Hlk.
  rewrite (combine_as_range _ _ NaN NaN) by lia.
  rewrite map_map, Hli. apply fsum_map_Fin_range.
  intros j Hj. simpl. fold (entry (self_X s) i j) (entry (self_centroids s) k j).
  rewrite (all_finite_entry _ _ _ i j HX HfX Hi Hj).
  rewrite (all_finite_entry _ _ _ k j HC HfC Hk Hj).
  reflexivity.
Qed.

Lemma sqd_real (s : FuzzyCMeans) (n d i k : nat) :
  well_shaped n d s ->
  all_finite (self_X s) -> all_finite (self_centroids s) ->
  (i < n)%nat -> (k < self_K s)%nat ->
  sqdist (nth i (self_X s) []) (nth k (self_centroids s) []) = Fin (sqd s i k)
  /\ sqd s i k
     = Rsum (map (fun j => (rx s i j - rv s k j) * (rx s i j - rv s k j))
                 (range d)).
Proof.
  intros Hs HfX HfC Hi Hk. unfold sqd.
  rewrite (sqdist_real s n d i k Hs HfX HfC Hi Hk). simpl. split; reflexivity.
Qed.

Lemma objective_real (s : FuzzyCMeans) (n : nat) :
  length (self_X s) = n ->
  (forall k i, (k < self_K s)%nat -> (i < n)%nat ->
     fpow (entry (self_u s) k i) (self_m s) = Fin (weight s k i)) ->
  (forall i k, (i < n)%nat -> (k < self_K s)%nat ->
     sqdist (nth i (self_X s) []) (nth k (self_centroids s) [])
     = Fin (sqd s i k)) ->
  objective s = Fin (loss_real s).
Proof.
  intros Hn Hw Hd. unfold objective, loss_real. rewrite Hn.
  apply fsum_map_Fin_range. intros i Hi.
  apply fsum_map_Fin_range. intros k Hk.
  rewrite (Hw k i Hk Hi), (Hd i k Hi Hk). reflexivity.
Qed.

(** *** The centroid step *)

Lemma weight_sum_real (s : FuzzyCMeans) (n d k : nat) :
  well_shaped n d s -> membership_matrix n s -> 0 < self_m s ->
  (k < self_K s)%nat ->
  weight_sum s k = Fin (Rsum (map (fun i => weight s k i) (range n))).
Proof.
  intros Hs Hu Hm Hk. unfold weight_sum.
  replace (length (self_X s)) with n by (destruct Hs as [[H _] _]; congruence).
  apply fsum_map_Fin_range. intros i Hi.
  apply (weight_real s n d k i Hs Hu Hm Hk Hi).
Qed.

Lemma weight_sum_positive (s : FuzzyCMeans) (n d k : nat) :
  well_shaped n d s -> membership_matrix n s -> 0 < self_m s ->
  every_cluster_weighs n s -> (k < self_K s)%nat ->
  0 < Rsum (map (fun i => weight s k i) (range n)).
Proof.
  intros Hs Hu Hm Hw Hk. apply Rsum_pos_exists.
  - intros i Hi. apply in_range in Hi.
    destruct (weight_real s n d k i Hs Hu Hm Hk Hi) as [_ ->]. apply pw_nonneg.
  - destruct (Hw k Hk) as [i [Hi Hpos]]. exists i.
    split; [apply in_range; exact Hi|].
    destruct (weight_real s n d k i Hs Hu Hm Hk Hi) as [_ ->].
    rewrite pw_pos by lra. apply Rpower_pos.
Qed.

Lemma new_centroids_real (s : FuzzyCMeans) (n d k j : nat) :
  well_shaped n d s -> all_finite (self_X s) ->
  membership_matrix n s -> 0 < self_m s -> every_cluster_weighs n s ->
  (1 <= n)%nat -> (k < self_K s)%nat -> (j < d)%nat ->
  entry (new_centroids s) k j
  = Fin (Rsum (map (fun i => weight s k i * rx s i j) (range n))
         / Rsum (map (fun i => weight s k i) (range n))).
Proof.
  intros Hs HfX Hu Hm Hw Hn Hk Hj.
  assert (HX : has_shape n d (self_X s)) by apply Hs.
  assert (Hlen : length (self_X s) = n) by apply HX.
  rewrite (new_centroids_entry s n k j Hlen) ;
    [| apply Hs | exact Hk | rewrite (has_shape_ncols n d _ HX Hn); exact Hj].
  unfold weighted_mean.
  rewrite (weight_sum_real s n d k Hs Hu Hm Hk). rewrite Hlen.
  rewrite (fsum_map_Fin_range _ (fun i => weight s k i * rx s i j)).
  - simpl. pose proof (weight_sum_positive s n d k Hs Hu Hm Hw Hk) as HW.
    destruct (Req_dec_T _ 0) as [E|_]; [lra | reflexivity].
  - intros i Hi.
    destruct (weight_real s n d k i Hs Hu Hm Hk Hi) as [-> _].
    rewrite (all_finite_entry _ _ _ i j HX HfX Hi Hj). reflexivity.
Qed.

Lemma loss_real_by_coordinate (s : FuzzyCMeans) (n d : nat) :
  length (self_X s) = n ->
  (forall i k, (i < n)%nat -> (k < self_K s)%nat ->
     sqd s i k
     = Rsum (map (fun j => (rx s i j - rv s k j) * (rx s i j - rv s k j))
                 (range d))) ->
  loss_real s
  = Rsum (map (fun k =>
        Rsum (map (fun j =>
          Rsum (map (fun i =>
            weight s k i * ((rx s i j - rv s k j) * (rx s i j - rv s k j)))
                    (range n)))
                  (range d)))
              (range (self_K s))).
Proof.
  intros Hn Hd. unfold loss_real. rewrite Hn.
  rewrite Rsum_exchange. apply Rsum_ext_range. intros k Hk.
  rewrite Rsum_exchange. apply Rsum_ext_range. intros i Hi.
  rewrite (Hd i k Hi Hk).
  rewrite <- (Rsum_map_scale
                (fun j => (rx s i j - rv s k j) * (rx s i j - rv s k j))).
  reflexivity.
Qed.

(** *** The membership step *)

Lemma membership_constant (dk T c mv : R) :
  0 < dk -> 0 < T -> 0 < c -> mv <> 1 ->
  Rpower dk 2
  * Rpower (Rpower (Rpower dk (2 / (mv - 1)) * T) (-1) / c) (mv - 1)
  = Rpower T (- (mv - 1)) * Rpower (/ c) (mv - 1).
Proof.
  intros Hd HT Hc Hm.
  pose proof (Rpower_pos dk (2 / (mv - 1))) as Hp.
  set (p := 2 / (mv - 1)) in *. unfold Rdiv.
  rewrite <- (Rpower_mult_distr _ (/ c))
    by (try apply Rpower_pos; apply Rinv_0_lt_compat; exact Hc).
  rewrite Rpower_mult.
  rewrite <- (Rpower_mult_distr _ T) by assumption.
  rewrite Rpower_mult.
  replace (p * (-1 * (mv - 1))) with (- 2) by (unfold p; field; lra).
  replace (-1 * (mv - 1)) with (- (mv - 1)) by ring.
  rewrite <- !Rmult_assoc. rewrite <- Rpower_plus.
  replace (2 + - 2) with 0 by ring. rewrite Rpower_O by exact Hd. ring.
Qed.

(** The state after the membership update, off the centroids: a matrix of
    positive reals, each the raw value over the sum of its column. *)
Lemma updated_membership_real (s : FuzzyCMeans) (n d k i : nat) :
  well_shaped n d s ->
  all_finite (self_X s) -> all_finite (self_centroids s) ->
  self_m s <> 1 ->
  (forall j, (j < self_K s)%nat -> ~ coincides s i j) ->
  (k < self_K s)%nat -> (i < n)%nat ->
  let c := Rsum (map (fun k0 => raw_real s k0 i) (range (self_K s))) in
  0 < c
  /\ entry (normalized (raw_u s)) k i = Fin (raw_real s k i / c).
Proof.
  intros Hs HX HC Hm Hoff Hk Hi c.
  assert (Hn : length (self_X s) = n) by (destruct Hs as [[H _] _]; exact H).
  assert (Hu : length (self_u s) = self_K s)
    by (destruct Hs as [_ [_ [H _]]]; exact H).
  assert (Hraw : forall k0, (k0 < self_K s)%nat ->
            raw_membership s k0 i = Fin (raw_real s k0 i) /\ 0 < raw_real s k0 i).
  { intros k0 Hk0. apply raw_membership_real; try assumption.
    - intros j Hj. apply Hoff. lia.
    - lia. }
  assert (Hc : 0 < c).
  { apply Rsum_pos_range; [lia|]. intros k0 Hk0. apply (Hraw k0 Hk0). }
  split; [exact Hc|].
  assert (Hsh : has_shape (self_K s) n (raw_u s))
    by (rewrite <- Hn; apply raw_u_shape).
  rewrite (normalized_entry (self_K s) n) by assumption.
  rewrite column_as_range. destruct Hsh as [Hl _]. rewrite Hl.
  rewrite (fsum_map_Fin_range _ (fun k0 => raw_real s k0 i)).
  - rewrite raw_u_entry by (rewrite ?Hn; assumption).
    destruct (Hraw k Hk) as [-> _]. fold c. simpl.
    destruct (Req_dec_T c 0) as [E|_]; [lra | reflexivity].
  - intros k0 Hk0. rewrite raw_u_entry by (rewrite ?Hn; assumption).
    apply (Hraw k0 Hk0).
Qed.

Lemma ratio_sum_factor (s : FuzzyCMeans) (k i : nat) :
  0 < delta s i k ->
  (forall j, (j < length (self_u s))%nat -> 0 < delta s i j) ->
  ratio_sum s k i
  = Rpower (delta s i k) (2 / (self_m s - 1))
    * Rsum (map (fun j => Rpower (/ delta s i j) (2 / (self_m s - 1)))
                (range (length (self_u s)))).
Proof.
  intros Hk Hall. unfold ratio_sum.
  rewrite <- (Rsum_map_scale
                (fun j => Rpower (/ delta s i j) (2 / (self_m s - 1)))).
  apply Rsum_ext_range. intros j Hj.
  rewrite Rpower_mult_distr; [reflexivity | exact Hk |].
  apply Rinv_0_lt_compat. apply Hall. exact Hj.
Qed.

Lemma sqd_is_delta_squared (s : FuzzyCMeans) (i k : nat) :
  dist s i k = Fin (delta s i k) -> 0 < delta s i k ->
  sqdist (nth i (self_X s) []) (nth k (self_centroids s) [])
  = Fin (Rpower (delta s i k) 2)
  /\ sqd s i k = Rpower (delta s i k) 2.
Proof.
  intros E Hpos.
  assert (H : sqdist (nth i (self_X s) []) (nth k (self_centroids s) [])
              = Fin (Rpower (delta s i k) 2)).
  { rewrite <- sqnorm_difference, <- norm_squared.
    fold (dist s i k). rewrite E. apply fpow_pos; lra. }
  split; [exact H|]. unfold sqd. rewrite H. reflexivity.
Qed.

(** Memberships that sum to [sigma] instead of 1: dividing them by
    [sigma] divides their powers by [sigma ^ m]. *)
Lemma pw_scale (x sigma mv : R) :
  0 < sigma -> 0 <= x -> pw (x / sigma) mv = Rpower sigma (- mv) * pw x mv.
Proof.
  intros Hs Hx. unfold pw.
  destruct (Rlt_dec 0 x) as [Hpos|Hz].
  - destruct (Rlt_dec 0 (x / sigma)) as [_|H];
      [|exfalso; apply H; apply Rdiv_lt_0_compat; assumption].
    unfold Rdiv. rewrite <- Rpower_mult_distr
      by (try assumption; apply Rinv_0_lt_compat; exact Hs).
    rewrite Rmult_comm. f_equal.
    unfold Rpower. rewrite ln_Rinv by exact Hs. f_equal. ring.
  - assert (x = 0) by lra. subst x.
    destruct (Rlt_dec 0 (0 / sigma)) as [H|_]; [|ring].
    exfalso. unfold Rdiv in H. rewrite Rmult_0_l in H. lra.
Qed.

(** A column sum within 1e-9 of 1 costs at most a factor [1 + 1e-6], for
    an exponent of at most 10. *)
Lemma scale_bound (sigma mv : R) :
  Rabs (sigma - 1) <= / 1000000000 -> 1 < mv <= 10 ->
  0 < sigma /\ Rpower sigma (- mv) <= 1 + / 1000000.
Proof.
  intros Hs [Hm1 Hm2].
  assert (Hlo : 1 - / 1000000000 <= sigma).
  { unfold Rabs in Hs. destruct (Rcase_abs (sigma - 1)); lra. }
  assert (Hpos : 0 < sigma) by lra.
  split; [exact Hpos|].
  rewrite Rpower_Ropp.
  pose proof (bernoulli_real sigma mv Hpos Hm1) as HB.
  assert (Hy : 1 - / 100000000 <= Rpower sigma mv).
  { destruct (Rle_lt_dec 1 sigma) as [Hge|Hlt].
    - assert (0 <= mv * (sigma - 1)) by (apply Rmult_le_pos; lra). lra.
    - assert (mv * (1 - sigma) <= 10 * / 1000000000).
      { apply Rmult_le_compat; lra. }
      lra. }
  assert (Hy0 : 0 < Rpower sigma mv) by apply Rpower_pos.
  apply (Rmult_le_reg_r (Rpower sigma mv)); [exact Hy0|].
  rewrite Rinv_l by lra.
  apply Rle_trans with ((1 + / 1000000) * (1 - / 100000000)); [lra|].
  apply Rmult_le_compat_l; lra.
Qed.

(** The membership step, point by point: the memberships the update
    stores make the objective of point [i] no larger, up to the factor
    [1 + 1e-6], than the memberships of a matrix whose columns sum to 1
    within 1e-9. *)
Lemma membership_step (s : FuzzyCMeans) (n d i : nat) :
  well_shaped n d s ->
  all_finite (self_X s) -> all_finite (self_centroids s) ->
  membership_matrix n s -> 1 < self_m s <= 10 -> (1 <= self_K s)%nat ->
  (forall k, (k < self_K s)%nat -> ~ coincides s i k) ->
  (i < n)%nat ->
  let s2 := set_u (normalized (raw_u s)) s in
  (forall k, (k < self_K s)%nat ->
     fpow (entry (self_u s2) k i) (self_m s2) = Fin (weight s2 k i))
  /\ Rsum (map (fun k => weight s2 k i * sqd s2 i k) (range (self_K s)))
     <= (1 + / 1000000)
        * Rsum (map (fun k => weight s k i * sqd s i k) (range (self_K s))).
Proof.
  intros Hs HX HC Hu [Hm Hm10] HK Hoff Hi s2.
  assert (Hm1 : self_m s <> 1) by lra.
  assert (Hlen : length (self_u s) = self_K s)
    by (destruct Hs as [_ [_ [H _]]]; exact H).
  set (c := Rsum (map (fun k0 => raw_real s k0 i) (range (self_K s)))).
  assert (Hnew : forall k, (k < self_K s)%nat ->
            0 < c /\ entry (normalized (raw_u s)) k i = Fin (raw_real s k i / c)).
  { intros k Hk.
    apply (updated_membership_real s n d k i Hs HX HC Hm1 Hoff Hk Hi). }
  assert (Hc : 0 < c) by (apply (Hnew 0%nat); lia).
  assert (Hd : forall k, (k < self_K s)%nat ->
            dist s i k = Fin (delta s i k) /\ 0 < delta s i k).
  { intros k Hk. apply (dist_positive s i k HX HC (Hoff k Hk)). }
  assert (Hrpos : forall k, 0 < raw_real s k i / c).
  { intros k. apply Rdiv_lt_0_compat; [apply Rpower_pos | exact Hc]. }
  assert (Hw2 : forall k, (k < self_K s)%nat ->
            fpow (entry (self_u s2) k i) (self_m s2)
            = Fin (Rpower (raw_real s k i / c) (self_m s))).
  { intros k Hk. unfold s2. simpl. destruct (Hnew k Hk) as [_ ->].
    apply fpow_pos; [apply Hrpos | lra]. }
  assert (Hw2' : forall k, (k < self_K s)%nat ->
            weight s2 k i = Rpower (raw_real s k i / c) (self_m s)).
  { intros k Hk. unfold weight. rewrite (Hw2 k Hk). reflexivity. }
  split.
  { intros k Hk. rewrite (Hw2 k Hk), (Hw2' k Hk). reflexivity. }
  set (T := Rsum (map (fun j => Rpower (/ delta s i j) (2 / (self_m s - 1)))
                      (range (length (self_u s))))).
  assert (HT : 0 < T).
  { apply Rsum_pos_range; [lia|]. intros j _. apply Rpower_pos. }
  (* the column of [s] and its sum *)
  set (sigma := Rsum (map (fun k => ru s k i) (range (self_K s)))).
  assert (Hsigma : Rabs (sigma - 1) <= / 1000000000).
  { destruct Hu as [Hf [_ Hcol]]. destruct (Hcol i Hi) as [S [ES HS]].
    unfold column_sum in ES. rewrite column_as_range, Hlen in ES.
    rewrite (fsum_map_Fin_range _ (fun k => ru s k i)) in ES.
    - inversion ES as [E1]. unfold sigma. rewrite E1. exact HS.
    - intros k Hk. apply (all_finite_entry _ (self_K s) n); try assumption.
      apply Hs. }
  destruct (scale_bound sigma (self_m s) Hsigma (conj Hm Hm10)) as [Hspos Hfac].
  assert (Hnn : forall k, (k < self_K s)%nat -> 0 <= ru s k i).
  { intros k Hk. destruct Hu as [_ [H _]]. apply H; assumption. }
  assert (Hsq : forall k, (k < self_K s)%nat -> 0 <= sqd s i k).
  { intros k Hk. destruct (Hd k Hk) as [E Hpos].
    destruct (sqd_is_delta_squared s i k E Hpos) as [_ ->].
    apply Rlt_le, Rpower_pos. }
  rewrite (Rsum_ext_range _
             (fun k => Rpower (raw_real s k i / c) (self_m s) * sqd s i k)).
  2:{ intros k Hk. rewrite (Hw2' k Hk). reflexivity. }
  rewrite (Rsum_ext_range (fun k => weight s k i * sqd s i k)
             (fun k => pw (ru s k i) (self_m s) * sqd s i k)).
  2:{ intros k Hk.
      destruct (weight_real s n d k i Hs Hu ltac:(lra) Hk Hi) as [_ ->].
      reflexivity. }
  apply Rle_trans
    with (Rsum (map (fun k => pw (ru s k i / sigma) (self_m s) * sqd s i k)
                    (range (self_K s)))).
  - apply (membership_step_point (self_K s) (fun k => sqd s i k)
             (fun k => raw_real s k i / c) (fun k => ru s k i / sigma)
             (self_m s)
             (Rpower T (- (self_m s - 1)) * Rpower (/ c) (self_m s - 1))).
    + exact Hm.
    + intros k _. apply Hrpos.
    + intros k Hk. apply Rmult_le_pos; [apply Hnn; exact Hk|].
      apply Rlt_le, Rinv_0_lt_compat, Hspos.
    + exact Hsq.
    + intros k Hk. destruct (Hd k Hk) as [E Hpos].
      destruct (sqd_is_delta_squared s i k E Hpos) as [_ ->].
      unfold raw_real. rewrite (ratio_sum_factor s k i Hpos).
      * fold T. apply membership_constant; assumption.
      * intros j Hj. apply (Hd j). lia.
    + rewrite <- (map_map (fun k => raw_real s k i) (fun x => x / c)).
      rewrite <- (map_map (fun k => ru s k i) (fun x => x / sigma)).
      unfold Rdiv. rewrite !Rsum_scale. fold c. fold sigma.
      field. split; lra.
  - rewrite (Rsum_ext_range _
               (fun k => Rpower sigma (- self_m s)
                         * (pw (ru s k i) (self_m s) * sqd s i k))).
    2:{ intros k Hk. rewrite (pw_scale _ _ _ Hspos (Hnn k Hk)). ring. }
    rewrite Rsum_map_scale.
    apply Rmult_le_compat_r; [|exact Hfac].
    apply Rsum_nonneg. intros k Hk. apply in_range in Hk.
    apply Rmult_le_pos; [apply pw_nonneg | apply Hsq; exact Hk].
Qed.

(** The centroid step on the whole objective. *)
Lemma centroid_step (s : FuzzyCMeans) (n d : nat) :
  well_shaped n d s -> (1 <= n)%nat ->
  all_finite (self_X s) -> all_finite (self_centroids s) ->
  membership_matrix n s -> every_cluster_weighs n s -> 0 < self_m s ->
  let s1 := set_centroids (new_centroids s) s in
  well_shaped n d s1
  /\ all_finite (self_centroids s1)
  /\ loss_real s1 <= loss_real s.
Proof.
  intros Hs Hn HX HC Hu Hw Hm s1.
  assert (Hs1 : well_shaped n d s1)
    by (apply well_shaped_after_update_v; [apply Hs | apply Hs | exact Hn]).
  assert (Hentry : forall k j, (k < self_K s)%nat -> (j < d)%nat ->
            entry (new_centroids s) k j
            = Fin (Rsum (map (fun i => weight s k i * rx s i j) (range n))
                   / Rsum (map (fun i => weight s k i) (range n)))).
  { intros k j Hk Hj. apply (new_centroids_real s n d k j); assumption. }
  assert (HC1 : all_finite (self_centroids s1)).
  { apply (all_finite_of_entries _ (self_K s) d); [apply Hs1|].
    intros k j Hk Hj. simpl. rewrite (Hentry k j Hk Hj). reflexivity. }
  split; [exact Hs1|]. split; [exact HC1|].
  assert (Hlen : length (self_X s) = n) by (destruct Hs as [[H _] _]; exact H).
  rewrite (loss_real_by_coordinate s1 n d Hlen).
  2:{ intros i k Hi Hk. apply (sqd_real s1 n d i k Hs1 HX HC1 Hi Hk). }
  rewrite (loss_real_by_coordinate s n d Hlen).
  2:{ intros i k Hi Hk. apply (sqd_real s n d i k Hs HX HC Hi Hk). }
  apply Rsum_le. intros k Hk. apply in_range in Hk. simpl in Hk.
  apply Rsum_le. intros j Hj. apply in_range in Hj.
  assert (Ev : rv s1 k j
               = Rsum (map (fun i => weight s k i * rx s i j) (range n))
                 / Rsum (map (fun i => weight s k i) (range n))).
  { unfold rv, s1. simpl. rewrite (Hentry k j Hk Hj). reflexivity. }
  rewrite Ev.
  apply (centroid_step_coordinate (fun i => weight s k i)
           (fun i => rx s i j) (rv s k j) (range n)).
  apply (weight_sum_positive s n d k); assumption.
Qed.

Lemma loss_value (s : FuzzyCMeans) (n d : nat) :
  well_shaped n d s ->
  all_finite (self_X s) -> all_finite (self_centroids s) ->
  membership_matrix n s -> 0 < self_m s ->
  _loss s = Return (Fin (loss_real s)) s.
Proof.
  intros Hs HX HC Hu Hm. rewrite (loss_run s n d Hs). f_equal.
  apply (objective_real s n).
  - apply Hs.
  - intros k i Hk Hi. apply (weight_real s n d k i Hs Hu Hm Hk Hi).
  - intros i k Hi Hk. apply (sqd_real s n d i k Hs HX HC Hi Hk).
Qed.

(** One iteration on a state without degenerate division. *)
Lemma iteration_steps (s : FuzzyCMeans) (n d : nat) :
  well_shaped n d s -> (1 <= n)%nat -> (1 <= self_K s)%nat ->
  all_finite (self_X s) -> all_finite (self_centroids s) ->
  membership_matrix n s -> every_cluster_weighs n s ->
  1 < self_m s <= 10 ->
  let s1 := set_centroids (new_centroids s) s in
  let s2 := set_u (normalized (raw_u s1)) s1 in
  (forall i k, (i < n)%nat -> (k < self_K s)%nat -> ~ coincides s1 i k) ->
  _loss s = Return (Fin (loss_real s)) s
  /\ _update_v s = Return tt s1
  /\ _loss s1 = Return (Fin (loss_real s1)) s1
  /\ _update_u s1 = Return tt s2
  /\ _loss s2 = Return (Fin (loss_real s2)) s2
  /\ 0 <= loss_real s1 <= loss_real s
  /\ loss_real s2 <= (1 + / 1000000) * loss_real s1.
Proof.
  intros Hs Hn HK HX HC Hu Hw [Hm Hm10] s1 s2 Hoff.
  assert (Hm0 : 0 < self_m s) by lra.
  destruct (centroid_step s n d Hs Hn HX HC Hu Hw Hm0) as [Hs1 [HC1 HL1]].
  fold s1 in Hs1, HC1, HL1.
  assert (Hu1 : membership_matrix n s1) by exact Hu.
  assert (Hlen : length (self_X s) = n) by (destruct Hs as [[H _] _]; exact H).
  assert (Hs2 : well_shaped n d s2).
  { apply well_shaped_set_u; [exact Hs1|]. apply normalized_shape.
    simpl. rewrite <- Hlen. apply (raw_u_shape s1). }
  assert (Hstep : forall i, (i < n)%nat ->
            (forall k, (k < self_K s)%nat ->
               fpow (entry (self_u s2) k i) (self_m s2) = Fin (weight s2 k i))
            /\ Rsum (map (fun k => weight s2 k i * sqd s2 i k) (range (self_K s)))
               <= (1 + / 1000000)
                  * Rsum (map (fun k => weight s1 k i * sqd s1 i k)
                              (range (self_K s)))).
  { intros i Hi.
    apply (membership_step s1 n d i Hs1 HX HC1 Hu1 (conj Hm Hm10) HK);
      [|exact Hi].
    intros k Hk. apply Hoff; assumption. }
  split; [apply (loss_value s n d); assumption|].
  split. { apply update_v_run. destruct Hs as [_ [_ [_ Hr]]].
           rewrite Hlen. exact Hr. }
  split; [apply (loss_value s1 n d); assumption|].
  split; [apply (update_u_run s1 n d Hs1); simpl; lra|].
  split.
  { rewrite (loss_run s2 n d Hs2). f_equal. apply (objective_real s2 n).
    - exact Hlen.
    - intros k i Hk Hi. apply (Hstep i Hi). exact Hk.
    - intros i k Hi Hk. apply (sqd_real s1 n d i k Hs1 HX HC1 Hi Hk). }
  split.
  { split; [|exact HL1].
    unfold loss_real. simpl. rewrite Hlen.
    apply Rsum_nonneg. intros i Hi. apply in_range in Hi.
    apply Rsum_nonneg. intros k Hk. apply in_range in Hk.
    apply Rmult_le_pos.
    - destruct (weight_real s1 n d k i Hs1 Hu1 Hm0 Hk Hi) as [_ ->].
      apply pw_nonneg.
    - destruct (sqd_real s1 n d i k Hs1 HX HC1 Hi Hk) as [_ ->].
      apply Rsum_nonneg. intros j _. apply Rle_0_sqr. }
  unfold loss_real. simpl. rewrite Hlen.
  rewrite <- Rsum_map_scale.
  apply Rsum_le. intros i Hi. apply in_range in Hi.
  apply (Hstep i Hi).
Qed.

(** C4 (as the code has it): one iteration does not increase the loss
    beyond rounding, on data that keep float64 away from its limits and
    from the degenerate divisions: [m] between 1.001 and 10; at most 1000
    points, clusters and coordinates, all coordinates within 1000 of zero;
    a membership matrix (entries zero or more, columns summing to 1 within
    1e-9) in which every cluster has a point with membership at least
    1/1000; every point at least 1/1000 away from every centroid once the
    centroids are updated.  Then the three losses are real numbers, the
    loss after [_update_v] is at most [(1 + 1e-6)] times the loss before it
    plus [1e-6], and likewise the loss after the following [_update_u]
    against the loss after [_update_v].  (The slack and the bounds leave
    room for the rounding of float64, which is not modelled.) *)
Theorem loss_does_not_increase :
  forall (s : FuzzyCMeans) (n d : nat),
    well_shaped n d s ->
    (1 <= n)%nat -> (1 <= self_K s)%nat ->
    (Z.of_nat n <= 1000)%Z -> (Z.of_nat (self_K s) <= 1000)%Z ->
    (Z.of_nat d <= 1000)%Z ->
    bounded 1000 (self_X s) -> bounded 1000 (self_centroids s) ->
    membership_matrix n s -> every_cluster_weighs n s ->
    1001 / 1000 <= self_m s <= 10 ->
    (forall i k, (i < n)%nat -> (k < self_K s)%nat ->
       / 1000 <= delta (set_centroids (new_centroids s) s) i k) ->
    exists (s1 s2 : FuzzyCMeans) (L0 L1 L2 : R),
      _loss s = Return (Fin L0) s
      /\ _update_v s = Return tt s1
      /\ _loss s1 = Return (Fin L1) s1
      /\ _update_u s1 = Return tt s2
      /\ _loss s2 = Return (Fin L2) s2
      /\ L1 <= (1 + / 1000000) * L0 + / 1000000
      /\ L2 <= (1 + / 1000000) * L1 + / 1000000.
Proof.
  intros s n d Hs Hn HK _ _ _ HbX HbC Hu Hw [Hm Hm10] Hfar.
  pose proof (bounded_all_finite _ _ HbX) as HX.
  pose proof (bounded_all_finite _ _ HbC) as HC.
  assert (Hoff : forall i k, (i < n)%nat -> (k < self_K s)%nat ->
            ~ coincides (set_centroids (new_centroids s) s) i k).
  { intros i k Hi Hk Hon. specialize (Hfar i k Hi Hk).
    unfold delta in Hfar. unfold coincides in Hon. rewrite Hon in Hfar.
    simpl in Hfar. lra. }
  assert (Hm1 : 1 < self_m s) by lra.
  destruct (iteration_steps s n d Hs Hn HK HX HC Hu Hw (conj Hm1 Hm10) Hoff)
    as [E0 [Ev [E1 [Eu [E2 [[H1pos H10] H21]]]]]].
  exists (set_centroids (new_centroids s) s).
  exists (set_u (normalized (raw_u (set_centroids (new_centroids s) s)))
                (set_centroids (new_centroids s) s)).
  exists (loss_real s), (loss_real (set_centroids (new_centroids s) s)).
  exists (loss_real
            (set_u (normalized (raw_u (set_centroids (new_centroids s) s)))
                   (set_centroids (new_centroids s) s))).
  split; [exact E0|]. split; [exact Ev|]. split; [exact E1|].
  split; [exact Eu|]. split; [exact E2|].
  set (L0 := loss_real s) in *.
  set (L1 := loss_real (set_centroids (new_centroids s) s)) in *.
  clearbody L0 L1. split; nra.
Qed.

Lemma two_points_new_centroids :
  new_centroids two_points = [[Fin (3 / 2)]; [Fin (3 / 2)]].
Proof.
  unfold new_centroids. simpl.
  rewrite fpow_pos by lra. rewrite Rpower_2 by lra. simpl.
  destruct (Req_dec_T _ 0) as [H|_]; [lra|].
  replace ((1 / 2 * (1 / 2) * 0 + (1 / 2 * (1 / 2) * 3 + 0))
           / (1 / 2 * (1 / 2) + (1 / 2 * (1 / 2) + 0)))
    with (3 / 2) by field.
  reflexivity.
Qed.

Lemma two_points_membership : membership_matrix 2 two_points.
Proof.
  split; [repeat constructor|]. split.
  - intros k i Hk Hi. simpl in Hk. unfold ru, entry.
    destruct k as [|[|k]]; [| |lia]; (destruct i as [|[|i]]; [| |lia]);
      simpl; lra.
  - intros i Hi. exists 1. unfold column_sum.
    split; [destruct i as [|[|i]]; [| |lia]; simpl; f_equal; lra|].
    replace (1 - 1) with 0 by ring. rewrite Rabs_R0.
    apply Rlt_le, Rinv_0_lt_compat. lra.
Qed.

Lemma loss_does_not_increase_witness :
  exists (s1 s2 : FuzzyCMeans) (L0 L1 L2 : R),
    _loss two_points = Return (Fin L0) two_points
    /\ _update_v two_points = Return tt s1
    /\ _loss s1 = Return (Fin L1) s1
    /\ _update_u s1 = Return tt s2
    /\ _loss s2 = Return (Fin L2) s2
    /\ L1 <= (1 + / 1000000) * L0 + / 1000000
    /\ L2 <= (1 + / 1000000) * L1 + / 1000000.
Proof.
  assert (Hb : forall x, Rabs x <= 3 -> Rabs x <= 1000) by (intros; lra).
  apply (loss_does_not_increase two_points 2 1).
  - exact two_points_shaped.
  - lia.
  - simpl. lia.
  - simpl. lia.
  - simpl. lia.
  - simpl. lia.
  - repeat constructor; eexists; (split; [reflexivity|]); apply Hb;
      unfold Rabs; destruct (Rcase_abs _); lra.
  - repeat constructor; eexists; (split; [reflexivity|]); apply Hb;
      unfold Rabs; destruct (Rcase_abs _); lra.
  - exact two_points_membership.
  - intros k Hk. exists 0%nat. split; [lia|]. simpl in Hk. unfold ru, entry.
    destruct k as [|[|k]]; [| |lia]; simpl; lra.
  - simpl. lra.
  - intros i k Hi Hk. simpl in Hk.
    rewrite two_points_new_centroids.
    unfold delta, dist, norm, sqnorm.
    destruct i as [|[|i]]; [| |lia]; (destruct k as [|[|k]]; [| |lia]); simpl;
      (destruct (Rlt_dec _ 0) as [H|_]; [lra|]); simpl;
      rewrite (sqrt_of_square _ (3 / 2)) by lra; lra.
Defined.

(** C4, counterexample: in [zero_weight] no point sits on a centroid,
    before or after the centroid update, [m = 2], and [u] is a membership
    matrix (entries 0 and 1, columns summing to 1).  The loss is 10; the
    centroid update divides by the zero weight of cluster 0, and the loss
    after it is [nan], which is not at most 10. *)
Lemma loss_is_nan_after_zero_weight_division :
  let s := zero_weight in
  let s1 := set_centroids [[NaN]; [Fin 1]] s in
  (forall i k, (i < 2)%nat -> (k < 2)%nat ->
     ~ coincides s i k /\ ~ coincides s1 i k)
  /\ _loss s = Return (Fin 10) s
  /\ _update_v s = Return tt s1
  /\ _loss s1 = Return NaN s1
  /\ fle NaN (Fin 10) = false.
Proof.
  cbv zeta.
  split; [|split; [|split; [|split; [|reflexivity]]]].
  - intros i k Hi Hk. unfold coincides, dist, norm, sqnorm.
    destruct i as [|[|i]]; [| |lia]; (destruct k as [|[|k]]; [| |lia]); simpl;
      split; try discriminate;
      (destruct (Rlt_dec _ 0) as [H|_]; [lra|]);
      intros E; inversion E as [E0]; apply sqrt_eq_0 in E0; lra.
  - rewrite (loss_run _ 2 1) by (repeat split; repeat constructor).
    unfold objective, entry, sqdist. simpl.
    rewrite fpow_zero by lra. rewrite fpow_pos by lra.
    rewrite Rpower_base_1. simpl. do 2 f_equal. lra.
  - rewrite update_v_run by (repeat constructor).
    unfold new_centroids. simpl.
    rewrite fpow_zero by lra. rewrite fpow_pos by lra.
    rewrite Rpower_base_1. simpl.
    unfold signed_inf.
    destruct (Req_dec_T (0 + (0 + 0)) 0) as [_|H]; [|lra].
    destruct (Req_dec_T (0 * 0 + (0 * 2 + 0)) 0) as [_|H]; [|lra].
    destruct (Req_dec_T (1 + (1 + 0)) 0) as [H|_]; [lra|].
    replace ((1 * 0 + (1 * 2 + 0)) / (1 + (1 + 0))) with 1 by field.
    reflexivity.
  - rewrite (loss_run _ 2 1) by (repeat split; repeat constructor).
    unfold objective, entry, sqdist. simpl.
    rewrite fpow_zero by lra. reflexivity.
Qed.

(** Why the centroids of the hypothesis are the updated ones: in [drift]
    no point sits on the centroid and [m = 2]; the loss is 4, then 0 once
    the centroid has moved onto the point, and [nan] after the membership
    update. *)
Lemma loss_is_nan_once_centroid_reaches_point :
  let s := drift in
  let s1 := set_centroids [[Fin 5]] s in
  let s2 := set_u [[NaN]] s1 in
  ~ coincides s 0 0
  /\ _loss s = Return (Fin 4) s
  /\ _update_v s = Return tt s1
  /\ _loss s1 = Return (Fin 0) s1
  /\ _update_u s1 = Return tt s2
  /\ _loss s2 = Return NaN s2
  /\ fle NaN (Fin 0) = false.
Proof.
  cbv zeta.
  split; [|split; [|split; [|split; [|split; [|split; [|reflexivity]]]]]].
  - unfold coincides, dist, norm, sqnorm. simpl.
    destruct (Rlt_dec _ 0) as [H|_]; [lra|].
    intros E; inversion E as [E0]; apply sqrt_eq_0 in E0; lra.
  - rewrite (loss_run _ 1 1) by (repeat split; repeat constructor).
    unfold objective, entry, sqdist. simpl. rewrite fpow_pos by lra.
    rewrite Rpower_base_1. simpl. do 2 f_equal. lra.
  - rewrite update_v_run by (repeat constructor).
    unfold new_centroids. simpl. rewrite fpow_pos by lra.
    rewrite Rpower_base_1. simpl.
    destruct (Req_dec_T _ 0) as [H|_]; [lra|].
    replace ((1 * 5 + 0) / (1 + 0)) with 5 by field. reflexivity.
  - rewrite (loss_run _ 1 1) by (repeat split; repeat constructor).
    unfold objective, entry, sqdist. simpl. rewrite fpow_pos by lra.
    rewrite Rpower_base_1. simpl. do 2 f_equal. lra.
  - assert (Hs1 : well_shaped 1 1 (set_centroids [[Fin 5]] drift))
      by (repeat split; repeat constructor).
    destruct (update_u_coincident _ 1 1 0 0 Hs1) as [Hrun [Hsh Hnan]].
    + simpl. lra.
    + simpl. lia.
    + lia.
    + unfold dist, norm, sqnorm. simpl.
      destruct (Rlt_dec _ 0) as [H|_]; [lra|].
      f_equal. apply sqrt_of_square; lra.
    + rewrite Hrun. do 2 f_equal.
      apply (matrix_ext 1 1);
        [exact Hsh | split; [reflexivity | repeat constructor] |].
      intros k0 i Hk0 Hi. assert (i = 0%nat) by lia. subst i.
      rewrite (Hnan k0) by exact Hk0.
      destruct k0 as [|k0]; [reflexivity | lia].
  - rewrite (loss_run _ 1 1) by (repeat split; repeat constructor).
    unfold objective, entry, sqdist. simpl. rewrite fpow_NaN by lra. reflexivity.
Qed.

(** *** The norm of the convergence test, on an example *)

(** [norm(a, ord=1)] of a 2-D array is its largest absolute column sum,
    not the sum of all absolute entries: 4 here, not 7. *)
Lemma norm_ord1_example :
  norm_ord1 [[Fin 3; Fin 0]; [Fin 0; Fin (-4)]] = Ok (Fin 4).
Proof.
  unfold norm_ord1. simpl.
  rewrite Rabs_R0, (Rabs_right 3), (Rabs_left (-4)) by lra.
  destruct (Rlt_dec _ _) as [_|H]; [|lra].
  do 2 f_equal. lra.
Qed.

(** *** The membership update on an example *)

Lemma Rpower_inverse (x : R) : 0 < x -> Rpower x (-1) = / x.
Proof.
  intros H. replace (-1) with (- (1)) by ring.
  rewrite Rpower_Ropp, Rpower_1 by exact H. reflexivity.
Qed.

Lemma two_points_delta :
  delta two_points 0 0 = 1 /\ delta two_points 0 1 = 2
  /\ delta two_points 1 0 = 2 /\ delta two_points 1 1 = 1.
Proof.
  unfold delta, dist, norm, sqnorm. simpl.
  repeat split;
    (destruct (Rlt_dec _ 0) as [H|_]; [lra|]); simpl;
    apply sqrt_of_square; lra.
Qed.

Lemma two_points_raw :
  raw_real two_points 0 0 = 4 / 5 /\ raw_real two_points 1 0 = 1 / 5
  /\ raw_real two_points 0 1 = 1 / 5 /\ raw_real two_points 1 1 = 4 / 5.
Proof.
  destruct two_points_delta as [D00 [D01 [D10 D11]]].
  unfold raw_real, ratio_sum. simpl.
  rewrite D00, D01, D10, D11.
  replace (2 / (2 - 1)) with 2 by field.
  rewrite !Rpower_2 by lra.
  repeat split; rewrite Rpower_inverse by lra; field.
Qed.

(** Points 0 and 3, centroids 1 and 2, [m = 2]: each point gets 4/5 in the
    nearer cluster and 1/5 in the other. *)
Lemma update_u_two_points :
  _update_u two_points
  = Return tt (set_u [[Fin (4 / 5); Fin (1 / 5)]; [Fin (1 / 5); Fin (4 / 5)]]
                     two_points).
Proof.
  rewrite (update_u_run two_points 2 1 two_points_shaped) by (simpl; lra).
  do 2 f_equal.
  apply (matrix_ext 2 2).
  - apply normalized_shape. apply (raw_u_shape two_points).
  - split; [reflexivity | repeat constructor].
  - intros k i Hk Hi.
    assert (A1 : all_finite (self_X two_points)) by (repeat constructor).
    assert (A2 : all_finite (self_centroids two_points)) by (repeat constructor).
    assert (A3 : self_m two_points <> 1) by (simpl; lra).
    assert (A4 : forall j, (j < self_K two_points)%nat ->
                   ~ coincides two_points i j).
    { intros j Hj. apply two_points_off_centroids; [lia | exact Hj]. }
    destruct (updated_membership_real two_points 2 1 k i two_points_shaped
                A1 A2 A3 A4 Hk Hi) as [_ E].
    rewrite E. simpl.
    destruct two_points_raw as [R00 [R10 [R01 R11]]].
    destruct i as [|[|i]]; [| |lia]; (destruct k as [|[|k]]; [| |lia]);
      unfold entry; simpl;
      rewrite ?R00, ?R10, ?R01, ?R11; f_equal; field.
Qed.

(** *** The objective on an example *)

(** Points 0 and 3, centroids 1 and 2, all memberships 1/2, [m = 2]:
    the loss is (1 + 4 + 4 + 1) / 4. *)
Lemma loss_two_points : _loss two_points = Return (Fin (5 / 2)) two_points.
Proof.
  rewrite (loss_run _ 2 1 two_points_shaped).
  unfold objective, entry, sqdist. simpl.
  rewrite fpow_pos by lra. rewrite Rpower_2 by lra. simpl.
  do 2 f_equal. field.
Qed.

(* ------------------------------------------------------------------ *)
(** ** A whole iteration *)

Lemma compute_centroids_run (s : FuzzyCMeans) (n d : nat) :
  has_shape n d (self_X s) -> has_shape (self_K s) n (self_u s) ->
  self_m s <> 1 -> (1 <= n)%nat ->
  let s1 := set_centroids (new_centroids s) s in
  well_shaped n d s1
  /\ _compute_centroids s = Return tt (set_u (normalized (raw_u s1)) s1).
Proof.
  intros HX HU Hm Hn s1.
  pose proof (well_shaped_after_update_v s n d HX HU Hn) as Hs1.
  fold s1 in Hs1. split; [exact Hs1|].
  assert (Hlen : length (self_X s) = n) by apply HX.
  unfold _compute_centroids. unfold bind at 1.
  rewrite update_v_run by (destruct HU as [_ Hr]; rewrite Hlen; exact Hr).
  fold s1. unfold bind at 1. rewrite (loss_run s1 n d Hs1).
  unfold bind at 1. rewrite (update_u_run s1 n d Hs1) by exact Hm.
  unfold bind at 1. rewrite (loss_run _ n d).
  - reflexivity.
  - apply well_shaped_set_u; [exact Hs1|]. apply normalized_shape.
    simpl. rewrite <- Hlen. apply (raw_u_shape s1).
Qed.

(** X1: an iteration on data of shape [(n, d)], [n >= 1], with a [K] by
    [n] membership matrix and [m <> 1] never raises, whatever the values
    held ([nan] and [inf] included); it rebinds [centroids] and [u] only,
    to matrices of shapes [(K, d)] and [(K, n)]. *)
Theorem iteration_never_raises :
  forall (s : FuzzyCMeans) (n d : nat),
    has_shape n d (self_X s) -> has_shape (self_K s) n (self_u s) ->
    self_m s <> 1 -> (1 <= n)%nat ->
    exists c w,
      _compute_centroids s = Return tt (set_u w (set_centroids c s))
      /\ has_shape (self_K s) d c
      /\ has_shape (self_K s) n w.
Proof.
  intros s n d HX HU Hm Hn.
  destruct (compute_centroids_run s n d HX HU Hm Hn) as [Hs1 Hrun].
  exists (new_centroids s).
  exists (normalized (raw_u (set_centroids (new_centroids s) s))).
  split; [exact Hrun|]. split; [apply Hs1|].
  apply normalized_shape. simpl.
  replace n with (length (self_X s)) by apply HX.
  apply (raw_u_shape (set_centroids (new_centroids s) s)).
Qed.

Lemma iteration_never_raises_witness :
  exists c w,
    _compute_centroids on_centroid
    = Return tt (set_u w (set_centroids c on_centroid))
    /\ has_shape 2 1 c
    /\ has_shape 2 1 w.
Proof.
  apply (iteration_never_raises on_centroid 1 1).
  - split; [reflexivity | repeat constructor].
  - split; [reflexivity | repeat constructor].
  - simpl. lra.
  - lia.
Defined.

Lemma raw_u_set_u (s : FuzzyCMeans) (w : list (list float64)) :
  length w = length (self_u s) -> raw_u (set_u w s) = raw_u s.
Proof.
  intros H. unfold raw_u. simpl.
  apply map_ext. intros k. apply map_ext. intros i.
  apply raw_membership_set_u. exact H.
Qed.

(** X2: the membership update does not read the memberships it replaces:
    from any two [K] by [n] matrices it produces the same new matrix, so
    running it twice gives what running it once gives. *)
Theorem update_u_forgets_previous_memberships :
  forall (s : FuzzyCMeans) (n d : nat) (w : list (list float64)),
    well_shaped n d s -> has_shape (self_K s) n w -> self_m s <> 1 ->
    exists u',
      _update_u s = Return tt (set_u u' s)
      /\ _update_u (set_u w s) = Return tt (set_u u' s)
      /\ (_update_u ;; _update_u) s = Return tt (set_u u' s).
Proof.
  intros s n d w Hs Hw Hm.
  assert (Hlen : length (self_X s) = n) by (destruct Hs as [[H _] _]; exact H).
  assert (Hk : length (self_u s) = self_K s)
    by (destruct Hs as [_ [_ [H _]]]; exact H).
  assert (Hany : forall w0, has_shape (self_K s) n w0 ->
            _update_u (set_u w0 s) = Return tt (set_u (normalized (raw_u s)) s)).
  { intros w0 Hw0.
    rewrite (update_u_run (set_u w0 s) n d).
    - rewrite raw_u_set_u by (destruct Hw0; congruence). reflexivity.
    - apply well_shaped_set_u; assumption.
    - exact Hm. }
  exists (normalized (raw_u s)).
  split; [apply (update_u_run s n d Hs Hm)|]. split; [apply Hany; exact Hw|].
  unfold bind. rewrite (update_u_run s n d Hs Hm).
  apply Hany. apply normalized_shape. rewrite <- Hlen. apply raw_u_shape.
Qed.

Lemma update_u_forgets_previous_memberships_witness :
  exists u',
    _update_u two_points = Return tt (set_u u' two_points)
    /\ _update_u (set_u [[NaN; PInf]; [Fin 0; Fin 7]] two_points)
       = Return tt (set_u u' two_points)
    /\ (_update_u ;; _update_u) two_points = Return tt (set_u u' two_points).
Proof.
  apply (update_u_forgets_previous_memberships two_points 2 1).
  - exact two_points_shaped.
  - split; [reflexivity | repeat constructor].
  - simpl. lra.
Defined.

(* ------------------------------------------------------------------ *)
(** ** The memberships the update stores *)

Lemma Rsum_split_term {A} (g : A -> R) (l1 l2 : list A) (k : A) :
  Rsum (map g (l1 ++ k :: l2)) = g k + Rsum (map g (l1 ++ l2)).
Proof.
  unfold Rsum. induction l1 as [|x l1 IH]; simpl; [reflexivity|].
  rewrite IH. lra.
Qed.

Lemma Rsum_ge_term (g : nat -> R) (n k : nat) :
  (forall i, (i < n)%nat -> 0 < g i) -> (k < n)%nat ->
  g k <= Rsum (map g (range n))
  /\ ((2 <= n)%nat -> g k < Rsum (map g (range n))).
Proof.
  intros Hpos Hk.
  destruct (in_split k (range n)) as [l1 [l2 E]]; [apply in_range; exact Hk|].
  assert (Hin : forall x, In x (l1 ++ l2) -> (x < n)%nat).
  { intros x Hx. apply in_range. rewrite E.
    apply in_or_app. apply in_app_or in Hx.
    destruct Hx as [Hx|Hx]; [left; exact Hx | right; right; exact Hx]. }
  rewrite E, Rsum_split_term.
  assert (H0 : 0 <= Rsum (map g (l1 ++ l2))).
  { apply Rsum_nonneg. intros x Hx. apply Rlt_le, Hpos, Hin, Hx. }
  split; [lra|]. intros Hn.
  assert (Hlen : length (l1 ++ k :: l2) = n).
  { rewrite <- E. unfold range. apply length_seq. }
  rewrite length_app in Hlen. simpl in Hlen.
  assert (H1 : 0 < Rsum (map g (l1 ++ l2))).
  { apply Rsum_pos_exists.
    - intros x Hx. apply Rlt_le, Hpos, Hin, Hx.
    - destruct l1 as [|x l1].
      + destruct l2 as [|x l2]; [simpl in Hlen; lia|].
        exists x. split; [left; reflexivity|].
        apply Hpos, Hin. left. reflexivity.
      + exists x. split; [left; reflexivity|].
        apply Hpos, Hin. left. reflexivity. }
  lra.
Qed.

(** *** A column after the update: all [nan], or memberships *)

Lemma dist_cases (s : FuzzyCMeans) (i k : nat) :
  dist s i k = NaN \/ dist s i k = PInf
  \/ exists r, dist s i k = Fin r /\ 0 <= r.
Proof.
  unfold dist, norm.
  pose proof (sqnorm_nonneg
                (map (fun p => fsub (fst p) (snd p))
                     (combine (nth i (self_X s) [])
                              (nth k (self_centroids s) [])))) as H.
  destruct (sqnorm _) as [x| | |]; simpl in *.
  - destruct (Rlt_dec x 0) as [Hx|_]; [lra|]. right. right.
    exists (sqrt x). split; [reflexivity | apply sqrt_pos].
  - right. left. reflexivity.
  - contradiction.
  - left. reflexivity.
Qed.

Lemma apart_dec (s : FuzzyCMeans) (i k : nat) : apart s i k \/ ~ apart s i k.
Proof.
  unfold apart. destruct (dist s i k) as [r| | |].
  - destruct (Rlt_dec 0 r) as [H|H].
    + left. exists r. split; [reflexivity | exact H].
    + right. intros [r' [E Hr']]. inversion E; subst. contradiction.
  - right. intros [r' [E _]]. discriminate.
  - right. intros [r' [E _]]. discriminate.
  - right. intros [r' [E _]]. discriminate.
Qed.

Lemma all_or_one (P : nat -> Prop) (K : nat) :
  (forall k, P k \/ ~ P k) ->
  (exists k, (k < K)%nat /\ ~ P k) \/ (forall k, (k < K)%nat -> P k).
Proof.
  intros Hdec. induction K as [|K IH].
  - right. intros k Hk. lia.
  - destruct IH as [[k [Hk Hn]]|Hall].
    + left. exists k. split; [lia | exact Hn].
    + destruct (Hdec K) as [HK|HK].
      * right. intros k Hk.
        destruct (Nat.eq_dec k K) as [->|Hne]; [exact HK | apply Hall; lia].
      * left. exists K. split; [lia | exact HK].
Qed.

Lemma apart_delta (s : FuzzyCMeans) (i k : nat) :
  apart s i k -> dist s i k = Fin (delta s i k) /\ 0 < delta s i k.
Proof.
  intros [r [E Hr]]. unfold delta. rewrite E. simpl. split; [reflexivity | exact Hr].
Qed.

(** A distance that is zero, [inf] or [nan] gives [nan] when divided by
    itself, and the raw membership of that cluster is [nan]. *)
Lemma raw_membership_degenerate (s : FuzzyCMeans) (k i : nat) :
  self_m s <> 1 -> (k < length (self_u s))%nat ->
  ~ apart s i k ->
  raw_membership s k i = NaN.
Proof.
  intros Hm Hk Hbad. unfold raw_membership.
  rewrite fsum_NaN; [apply fpow_NaN; lra|].
  apply in_map_iff. exists k. split; [|apply in_range; exact Hk].
  assert (E : fdiv (dist s i k) (dist s i k) = NaN).
  { destruct (dist_cases s i k) as [E|[E|[r [E Hr]]]]; rewrite E;
      try reflexivity.
    simpl. destruct (Req_dec_T r 0) as [E0|Hne].
    - subst r. unfold signed_inf.
      destruct (Req_dec_T 0 0) as [_|H]; [reflexivity | lra].
    - exfalso. apply Hbad. exists r. split; [exact E | lra]. }
  rewrite E. apply fpow_NaN. apply exponent_nonzero. exact Hm.
Qed.

Lemma raw_membership_positive (s : FuzzyCMeans) (k i : nat) :
  self_m s <> 1 ->
  (forall j, (j < length (self_u s))%nat -> apart s i j) ->
  (k < length (self_u s))%nat ->
  raw_membership s k i = Fin (raw_real s k i) /\ 0 < raw_real s k i.
Proof.
  intros Hm Hd Hk.
  assert (Hsum : 0 < ratio_sum s k i).
  { unfold ratio_sum. apply Rsum_pos_range; [lia|].
    intros j _. apply Rpower_pos. }
  split; [|apply Rpower_pos].
  unfold raw_membership, raw_real.
  rewrite (fsum_map_Fin_range _
             (fun j => Rpower (delta s i k / delta s i j) (2 / (self_m s - 1)))).
  - fold (ratio_sum s k i). apply fpow_pos; lra.
  - intros j Hj.
    destruct (apart_delta s i k (Hd k Hk)) as [Ek Hkpos].
    destruct (apart_delta s i j (Hd j Hj)) as [Ej Hjpos].
    rewrite Ek, Ej. simpl.
    destruct (Req_dec_T (delta s i j) 0) as [E|_]; [lra|].
    apply fpow_pos; [|apply exponent_nonzero; exact Hm].
    apply Rdiv_lt_0_compat; assumption.
Qed.

(** The two cases of a column after [_update_u]. *)
Lemma update_u_column (s : FuzzyCMeans) (n d i : nat) :
  well_shaped n d s -> self_m s <> 1 -> (1 <= self_K s)%nat -> (i < n)%nat ->
  ((exists k, (k < self_K s)%nat /\ ~ apart s i k) ->
   (forall k, (k < self_K s)%nat -> entry (normalized (raw_u s)) k i = NaN)
   /\ fsum (column (normalized (raw_u s)) i) = NaN)
  /\ ((forall k, (k < self_K s)%nat -> apart s i k) ->
      (forall k, (k < self_K s)%nat ->
         exists a, entry (normalized (raw_u s)) k i = Fin a /\ 0 < a <= 1)
      /\ fsum (column (normalized (raw_u s)) i) = Fin 1).
Proof.
  intros Hs Hm HK Hi.
  assert (Hn : length (self_X s) = n) by (destruct Hs as [[H _] _]; exact H).
  assert (Hu : length (self_u s) = self_K s)
    by (destruct Hs as [_ [_ [H _]]]; exact H).
  assert (Hsh : has_shape (self_K s) n (raw_u s))
    by (rewrite <- Hn; apply raw_u_shape).
  assert (Hsh' : has_shape (self_K s) n (normalized (raw_u s)))
    by (apply normalized_shape; exact Hsh).
  split.
  - intros [k [Hk Hbad]].
    assert (Hnan : forall k1, (k1 < self_K s)%nat ->
              entry (normalized (raw_u s)) k1 i = NaN).
    { apply (normalized_column_NaN (self_K s) n (raw_u s) k i Hsh Hk Hi).
      rewrite raw_u_entry by (rewrite ?Hn; assumption).
      apply raw_membership_degenerate; [exact Hm | lia | exact Hbad]. }
    split; [exact Hnan|].
    apply fsum_NaN. rewrite <- (Hnan 0%nat) by lia.
    rewrite <- column_nth by (destruct Hsh'; lia).
    apply nth_In. rewrite column_length. destruct Hsh'; lia.
  - intros Hall.
    assert (Hraw : forall k, (k < self_K s)%nat ->
              raw_membership s k i = Fin (raw_real s k i) /\ 0 < raw_real s k i).
    { intros k Hk. apply raw_membership_positive; [exact Hm | | lia].
      intros j Hj. apply Hall. lia. }
    set (c := Rsum (map (fun k0 => raw_real s k0 i) (range (self_K s)))).
    assert (Hc : 0 < c).
    { apply Rsum_pos_range; [exact HK|]. intros k Hk. apply (Hraw k Hk). }
    split.
    + intros k Hk. exists (raw_real s k i / c).
      split.
      * rewrite (normalized_entry (self_K s) n) by assumption.
        rewrite column_as_range. destruct Hsh as [Hl _]. rewrite Hl.
        rewrite (fsum_map_Fin_range _ (fun k0 => raw_real s k0 i)).
        -- rewrite raw_u_entry by (rewrite ?Hn; assumption).
           destruct (Hraw k Hk) as [-> _]. fold c. simpl.
           destruct (Req_dec_T c 0) as [E|_]; [lra | reflexivity].
        -- intros k0 Hk0. rewrite raw_u_entry by (rewrite ?Hn; assumption).
           apply (Hraw k0 Hk0).
      * destruct (Rsum_ge_term (fun k0 => raw_real s k0 i) (self_K s) k)
          as [Hle _].
        { intros k0 Hk0. apply (Hraw k0 Hk0). }
        { exact Hk. }
        fold c in Hle. destruct (Hraw k Hk) as [_ Hpos]. split.
        -- apply Rdiv_lt_0_compat; assumption.
        -- apply (Rmult_le_reg_r c); [exact Hc|].
           unfold Rdiv. rewrite Rmult_assoc, Rinv_l by lra. lra.
    + apply (normalized_column_sum (self_K s) n _ i (fun k => raw_real s k i)).
      * exact Hsh.
      * exact Hi.
      * intros k Hk. rewrite raw_u_entry by (rewrite ?Hn; assumption).
        apply (Hraw k Hk).
      * fold c. lra.
Qed.

Lemma in_float_range_apart (s : FuzzyCMeans) (d i k : nat) :
  in_float_range d s i -> (k < self_K s)%nat -> apart s i k.
Proof.
  intros [_ [HX [HC Hd]]] Hk.
  destruct (dist_finite s i k (bounded_all_finite _ _ HX)
                        (bounded_all_finite _ _ HC)) as [E _].
  exists (to_R (dist s i k)). split; [exact E|].
  specialize (Hd k Hk). unfold delta in Hd.
  assert (0 < / 10 ^ 100) by (apply Rinv_0_lt_compat, pow_lt; lra).
  lra.
Qed.

Lemma unit_column_of_sum (s : FuzzyCMeans) (w : list (list float64)) (i : nat) :
  (forall k, (k < self_K s)%nat -> is_finite (entry w k i) = true) ->
  fsum (column w i) = Fin 1 ->
  unit_column (set_u w s) i.
Proof.
  intros Hf Hsum. split; [exact Hf|].
  exists 1. split; [exact Hsum|].
  replace (1 - 1) with 0 by ring. rewrite Rabs_R0.
  apply Rlt_le, Rinv_0_lt_compat. lra.
Qed.

(** C1 (as the code has it): both [_init_u] and [_update_u] end by
    dividing [u] by its column sums.  With at least one cluster (and at
    most a million, for the tolerance), the column of every point [i] is
    afterwards one of two things: entirely [nan], or real numbers whose sum
    is 1 within 1e-9.  After [_init_u] it is [nan] exactly when all the
    draws of the column are zero.  After [_update_u] with [m <> 1] it is
    never anything else, whatever the data hold; it is [nan] when the
    point sits on a centroid, and it sums to 1 on data [in_float_range].
    (Rounding is not modelled: the sums that are within tolerance of 1
    are exactly 1 here.) *)
Theorem columns_sum_to_one :
  (forall (rand : nat -> nat -> R) (s : FuzzyCMeans),
      (1 <= self_K s)%nat -> (Z.of_nat (self_K s) <= 1000000)%Z ->
      (forall k i, 0 <= rand k i < 1) ->
      exists w,
        _init_u rand s = Return tt (set_u w s)
        /\ forall i, (i < length (self_X s))%nat ->
             ((forall k, (k < self_K s)%nat -> rand k i = 0) ->
              nan_column (set_u w s) i)
             /\ ((exists k, (k < self_K s)%nat /\ rand k i <> 0) ->
                 unit_column (set_u w s) i))
  /\ (forall (s : FuzzyCMeans) (n d : nat),
        well_shaped n d s -> self_m s <> 1 ->
        (1 <= self_K s)%nat -> (Z.of_nat (self_K s) <= 1000000)%Z ->
        exists w,
          _update_u s = Return tt (set_u w s)
          /\ forall i, (i < n)%nat ->
               (nan_column (set_u w s) i \/ unit_column (set_u w s) i)
               /\ ((exists k, (k < self_K s)%nat /\ coincides s i k) ->
                   nan_column (set_u w s) i)
               /\ (in_float_range d s i -> unit_column (set_u w s) i)).
Proof.
  split.
  - intros rand s HK _ Hr.
    exists (normalized (drawn rand s)). split; [apply init_u_run|].
    intros i Hi.
    pose proof (drawn_shape rand s) as Hsh.
    assert (Hentry : forall k, (k < self_K s)%nat ->
              entry (normalized (drawn rand s)) k i
              = fdiv (Fin (rand k i))
                     (Fin (Rsum (map (fun k0 => rand k0 i) (range (self_K s)))))).
    { intros k Hk.
      rewrite (normalized_entry (self_K s) (length (self_X s))) by assumption.
      rewrite column_as_range. destruct Hsh as [Hl _]. rewrite Hl.
      rewrite (fsum_map_Fin_range _ (fun k0 => rand k0 i))
        by (intros k0 Hk0; apply drawn_entry; assumption).
      rewrite drawn_entry by assumption. reflexivity. }
    split.
    + intros Hz.
      assert (Hc : Rsum (map (fun k0 => rand k0 i) (range (self_K s))) = 0).
      { rewrite (Rsum_ext_range _ (fun _ => 0)) by exact Hz.
        rewrite Rsum_const. lra. }
      assert (Hnan : forall k, (k < self_K s)%nat ->
                entry (normalized (drawn rand s)) k i = NaN).
      { intros k Hk. rewrite (Hentry k Hk), Hc, (Hz k Hk). simpl.
        destruct (Req_dec_T 0 0) as [_|H]; [|lra].
        unfold signed_inf. destruct (Req_dec_T 0 0) as [_|H]; [reflexivity | lra]. }
      split; [exact Hnan|].
      unfold column_sum. simpl. apply fsum_NaN.
      pose proof (normalized_shape _ _ _ Hsh) as Hsh'.
      rewrite <- (Hnan 0%nat) by lia.
      rewrite <- column_nth by (destruct Hsh'; lia).
      apply nth_In. rewrite column_length. destruct Hsh'; lia.
    + intros [k [Hk Hpos]].
      assert (Hc : 0 < Rsum (map (fun k0 => rand k0 i) (range (self_K s)))).
      { apply Rsum_pos_exists.
        - intros k0 _. apply (Hr k0 i).
        - exists k. split; [apply in_range; exact Hk|].
          destruct (Hr k i) as [[H|H] _]; [exact H|].
          exfalso. apply Hpos. symmetry. exact H. }
      apply unit_column_of_sum.
      * intros k0 Hk0. rewrite (Hentry k0 Hk0). simpl.
        destruct (Req_dec_T _ 0) as [E|_]; [lra | reflexivity].
      * apply init_u_column_sum.
        -- exact Hi.
        -- intros k0 _. apply (Hr k0 i).
        -- exists k. split; [exact Hk|].
           destruct (Hr k i) as [[H|H] _]; [exact H|].
           exfalso. apply Hpos. symmetry. exact H.
  - intros s n d Hs Hm HK _.
    exists (normalized (raw_u s)). split; [apply (update_u_run s n d Hs Hm)|].
    intros i Hi.
    destruct (update_u_column s n d i Hs Hm HK Hi) as [Hbad Hgood].
    assert (Hunit : (forall k, (k < self_K s)%nat -> apart s i k) ->
                    unit_column (set_u (normalized (raw_u s)) s) i).
    { intros Hall. destruct (Hgood Hall) as [Hent Hsum].
      apply unit_column_of_sum; [|exact Hsum].
      intros k Hk. destruct (Hent k Hk) as [a [-> _]]. reflexivity. }
    split; [|split].
    + destruct (all_or_one (apart s i) (self_K s) (apart_dec s i))
        as [Hex|Hall].
      * left. exact (Hbad Hex).
      * right. exact (Hunit Hall).
    + intros [k [Hk Hon]]. apply Hbad. exists k. split; [exact Hk|].
      intros [r [E Hr]]. unfold coincides in Hon. rewrite Hon in E.
      inversion E. lra.
    + intros Hrange. apply Hunit. intros k Hk.
      apply (in_float_range_apart s d i k Hrange Hk).
Qed.

Lemma ten_pow_ge_10 (n : nat) : (1 <= n)%nat -> 10 <= 10 ^ n.
Proof.
  intros Hn. replace 10 with (10 ^ 1) at 1 by (simpl; lra).
  apply Rle_pow; [lra | exact Hn].
Qed.

Lemma two_points_in_float_range (i : nat) :
  (i < 2)%nat -> in_float_range 1 two_points i.
Proof.
  intros Hi. pose proof (ten_pow_ge_10 100 ltac:(lia)) as H10.
  assert (Hb : forall x, Rabs x <= 3 -> Rabs x <= 10 ^ 100) by (intros; lra).
  split; [simpl; lia|]. split; [|split].
  - repeat constructor; eexists; (split; [reflexivity|]); apply Hb;
      unfold Rabs; destruct (Rcase_abs _); lra.
  - repeat constructor; eexists; (split; [reflexivity|]); apply Hb;
      unfold Rabs; destruct (Rcase_abs _); lra.
  - intros k Hk. simpl in Hk.
    assert (Hinv : / 10 ^ 100 <= 1).
    { rewrite <- Rinv_1. apply Rinv_le_contravar; lra. }
    destruct two_points_delta as [E00 [E01 [E10 E11]]].
    destruct i as [|[|i]]; [| |lia]; (destruct k as [|[|k]]; [| |lia]);
      rewrite ?E00, ?E01, ?E10, ?E11; lra.
Qed.

Lemma columns_sum_to_one_witness :
  (exists w,
      _init_u (fun _ _ => 1 / 2) two_points = Return tt (set_u w two_points)
      /\ unit_column (set_u w two_points) 0)
  /\ (exists w,
        _update_u two_points = Return tt (set_u w two_points)
        /\ unit_column (set_u w two_points) 0
        /\ unit_column (set_u w two_points) 1).
Proof.
  split.
  - destruct (proj1 columns_sum_to_one (fun _ _ => 1 / 2) two_points)
      as [w [Hrun Hcol]].
    + simpl. lia.
    + simpl. lia.
    + intros k i. lra.
    + exists w. split; [exact Hrun|].
      apply (Hcol 0%nat); [simpl; lia|].
      exists 0%nat. split; [simpl; lia | lra].
  - destruct (proj2 columns_sum_to_one two_points 2%nat 1%nat)
      as [w [Hrun Hcol]].
    + exact two_points_shaped.
    + simpl. lra.
    + simpl. lia.
    + simpl. lia.
    + exists w. split; [exact Hrun|].
      split; apply Hcol; try lia; apply two_points_in_float_range; lia.
Defined.

(** X3: [_update_u] (with [m <> 1]) never stores anything but a
    membership or [nan]: whatever the data and the centroids hold, every
    entry of the new matrix is [nan] or a real number between 0 and 1. *)
Theorem update_u_memberships_in_unit_interval :
  forall (s : FuzzyCMeans) (n d : nat),
    well_shaped n d s -> self_m s <> 1 -> (1 <= self_K s)%nat ->
    exists w,
      _update_u s = Return tt (set_u w s)
      /\ forall k i, (k < self_K s)%nat -> (i < n)%nat ->
           entry w k i = NaN
           \/ exists a, entry w k i = Fin a /\ 0 <= a <= 1.
Proof.
  intros s n d Hs Hm HK.
  exists (normalized (raw_u s)). split; [apply (update_u_run s n d Hs Hm)|].
  intros k i Hk Hi.
  destruct (update_u_column s n d i Hs Hm HK Hi) as [Hbad Hgood].
  destruct (all_or_one (apart s i) (self_K s) (apart_dec s i)) as [Hex|Hall].
  - left. apply (Hbad Hex). exact Hk.
  - right. destruct (Hgood Hall) as [Hent _].
    destruct (Hent k Hk) as [a [E [H0 H1]]]. exists a.
    split; [exact E | lra].
Qed.

Lemma update_u_memberships_in_unit_interval_witness :
  exists w,
    _update_u on_centroid = Return tt (set_u w on_centroid)
    /\ forall k i, (k < 2)%nat -> (i < 1)%nat ->
         entry w k i = NaN
         \/ exists a, entry w k i = Fin a /\ 0 <= a <= 1.
Proof.
  apply (update_u_memberships_in_unit_interval on_centroid 1 1).
  - exact on_centroid_shaped.
  - simpl. lra.
  - simpl. lia.
Defined.

(* ------------------------------------------------------------------ *)
(** ** How [nan] spreads *)

Lemma fdiv_NaN_l (b : float64) : fdiv NaN b = NaN.
Proof. reflexivity. Qed.

Lemma weight_sum_NaN (s : FuzzyCMeans) (k i : nat) :
  self_m s <> 0 -> (i < length (self_X s))%nat ->
  entry (self_u s) k i = NaN -> weight_sum s k = NaN.
Proof.
  intros Hm Hi E. unfold weight_sum. apply fsum_NaN.
  apply in_map_iff. exists i. split; [|apply in_range; exact Hi].
  rewrite E. apply fpow_NaN. exact Hm.
Qed.

Lemma dist_NaN (s : FuzzyCMeans) (n d i k : nat) :
  has_shape n d (self_X s) -> (i < n)%nat -> (1 <= d)%nat ->
  length (nth k (self_centroids s) []) = d ->
  entry (self_centroids s) k 0 = NaN ->
  dist s i k = NaN.
Proof.
  intros HX Hi Hd Hlen E. unfold dist, entry in *.
  pose proof (has_shape_nth _ _ _ i HX Hi) as Hxi.
  destruct (nth i (self_X s) []) as [|x xs]; [simpl in Hxi; lia|].
  destruct (nth k (self_centroids s) []) as [|c cs]; [simpl in Hlen; lia|].
  simpl in E. subst c. unfold norm, sqnorm. simpl.
  unfold fsub. simpl. rewrite fadd_NaN_r. reflexivity.
Qed.

Lemma raw_membership_NaN (s : FuzzyCMeans) (k k' i : nat) :
  self_m s <> 1 -> (k < length (self_u s))%nat ->
  dist s i k = NaN -> raw_membership s k' i = NaN.
Proof.
  intros Hm Hk E. unfold raw_membership.
  rewrite fsum_NaN; [apply fpow_NaN; lra|].
  apply in_map_iff. exists k. split; [|apply in_range; exact Hk].
  rewrite E, fdiv_NaN_r. apply fpow_NaN. apply exponent_nonzero. exact Hm.
Qed.

(** X8: one [nan] membership is enough to lose the whole result.  On data
    of shape [(n, d)] with [n, d >= 1] and [m] neither 0 nor 1, if the
    membership matrix holds a [nan] in row [k], the next iteration
    returns normally with centroid [k] all [nan] and with every entry of
    the membership matrix [nan]. *)
Theorem nan_membership_spreads_in_one_iteration :
  forall (s : FuzzyCMeans) (n d k i : nat),
    has_shape n d (self_X s) -> has_shape (self_K s) n (self_u s) ->
    (1 <= d)%nat -> self_m s <> 1 -> self_m s <> 0 ->
    (k < self_K s)%nat -> (i < n)%nat ->
    entry (self_u s) k i = NaN ->
    exists c w,
      _compute_centroids s = Return tt (set_u w (set_centroids c s))
      /\ (forall j, (j < d)%nat -> entry c k j = NaN)
      /\ (forall k' i', (k' < self_K s)%nat -> (i' < n)%nat ->
            entry w k' i' = NaN).
Proof.
  intros s n d k i HX HU Hd Hm Hm0 Hk Hi E.
  assert (Hn : (1 <= n)%nat) by lia.
  assert (Hlen : length (self_X s) = n) by apply HX.
  destruct (compute_centroids_run s n d HX HU Hm Hn) as [Hs1 Hrun].
  set (s1 := set_centroids (new_centroids s) s) in *.
  exists (new_centroids s), (normalized (raw_u s1)).
  assert (Hc : forall j, (j < d)%nat -> entry (new_centroids s) k j = NaN).
  { intros j Hj.
    rewrite (new_centroids_entry s n k j Hlen HU Hk)
      by (rewrite (has_shape_ncols n d _ HX Hn); exact Hj).
    unfold weighted_mean.
    rewrite (weight_sum_NaN s k i Hm0) by (rewrite ?Hlen; assumption).
    apply fdiv_NaN_r. }
  split; [exact Hrun|]. split; [exact Hc|].
  intros k' i' Hk' Hi'.
  assert (Hsh : has_shape (self_K s) n (raw_u s1)).
  { rewrite <- Hlen. apply (raw_u_shape s1). }
  rewrite (normalized_entry (self_K s) n) by assumption.
  rewrite (raw_u_entry s1) by (simpl; rewrite ?Hlen; assumption).
  rewrite (raw_membership_NaN s1 k k' i'); [reflexivity | exact Hm | |].
  - simpl. destruct HU as [HU _]. lia.
  - apply (dist_NaN s1 n d i' k); try assumption.
    + destruct Hs1 as [_ [HC1 _]]. apply (has_shape_nth _ _ _ k HC1). exact Hk.
    + simpl. apply Hc. lia.
Qed.

Lemma nan_membership_spreads_in_one_iteration_witness :
  exists c w,
    _compute_centroids (set_u [[NaN]; [Fin 1]] on_centroid)
    = Return tt (set_u w (set_centroids c (set_u [[NaN]; [Fin 1]] on_centroid)))
    /\ (forall j, (j < 1)%nat -> entry c 0 j = NaN)
    /\ (forall k' i', (k' < 2)%nat -> (i' < 1)%nat -> entry w k' i' = NaN).
Proof.
  apply (nan_membership_spreads_in_one_iteration
           (set_u [[NaN]; [Fin 1]] on_centroid) 1 1 0 0).
  - split; [reflexivity | repeat constructor].
  - split; [reflexivity | repeat constructor].
  - lia.
  - simpl. lra.
  - simpl. lra.
  - simpl. lia.
  - lia.
  - reflexivity.
Defined.

Lemma fmaximum_NaN_l (a : float64) : fmaximum NaN a = NaN.
Proof. reflexivity. Qed.

Lemma fmaximum_NaN_r (a : float64) : fmaximum a NaN = NaN.
Proof. destruct a; reflexivity. Qed.

Lemma fold_fmaximum_NaN (cs : list float64) (c : float64) :
  In NaN (c :: cs) -> fold_left fmaximum cs c = NaN.
Proof.
  revert c. induction cs as [|x cs IH]; intros c H; simpl in *.
  - destruct H as [H|[]]. exact H.
  - apply IH. destruct H as [->|[->|H]].
    + left. reflexivity.
    + left. apply fmaximum_NaN_r.
    + right. exact H.
Qed.

Lemma entry_map_map (f : float64 -> float64) (a : list (list float64))
    (k n k0 i : nat) :
  has_shape k n a -> (k0 < k)%nat -> (i < n)%nat ->
  entry (map (map f) a) k0 i = f (entry a k0 i).
Proof.
  intros Ha Hk Hi. unfold entry.
  rewrite (@nth_map_in (list float64) (list float64) _ a k0 [] [])
    by (destruct Ha; lia).
  apply nth_map_in. rewrite (has_shape_nth _ _ _ k0 Ha Hk). exact Hi.
Qed.

Lemma map_map_shape (f : float64 -> float64) (a : list (list float64)) (k n : nat) :
  has_shape k n a -> has_shape k n (map (map f) a).
Proof.
  intros [Hl Hr]. split; [rewrite length_map; exact Hl|].
  apply Forall_forall. intros r Hin. apply in_map_iff in Hin.
  destruct Hin as [r0 [<- Hr0]]. rewrite length_map.
  rewrite Forall_forall in Hr. apply Hr. exact Hr0.
Qed.

(** The column sums [norm_ord1] takes the maximum of. *)
Lemma norm_ord1_columns (a : list (list float64)) (k n : nat) :
  has_shape k n a -> (1 <= k)%nat ->
  sum_axis0 (map (map fabs) a)
  = map (fun j => fsum (map (fun k0 => fabs (entry a k0 j)) (range k)))
        (range n).
Proof.
  intros Ha Hk. unfold sum_axis0.
  rewrite (has_shape_ncols k n _ (map_map_shape fabs a k n Ha) Hk).
  apply map_range_ext. intros j Hj.
  rewrite column_as_range, length_map.
  replace (length a) with k by (destruct Ha; congruence).
  f_equal. apply map_range_ext. intros k0 Hk0.
  apply (entry_map_map fabs a k n); assumption.
Qed.

Lemma norm_ord1_NaN (a : list (list float64)) (k n k0 j : nat) :
  has_shape k n a -> (k0 < k)%nat -> (j < n)%nat ->
  entry a k0 j = NaN -> norm_ord1 a = Ok NaN.
Proof.
  intros Ha Hk Hj E. unfold norm_ord1.
  rewrite (norm_ord1_columns a k n Ha) by lia.
  assert (Hin : In NaN (map (fun j0 => fsum (map (fun k1 => fabs (entry a k1 j0))
                                                 (range k))) (range n))).
  { apply in_map_iff. exists j. split; [|apply in_range; exact Hj].
    apply fsum_NaN. apply in_map_iff. exists k0.
    split; [rewrite E; reflexivity | apply in_range; exact Hk]. }
  destruct (map _ (range n)) as [|c cs]; [contradiction|].
  f_equal. apply fold_fmaximum_NaN. exact Hin.
Qed.

Lemma np_sub2_entry (a b : list (list float64)) (k n k0 j : nat) :
  has_shape k n a -> has_shape k n b -> (k0 < k)%nat -> (j < n)%nat ->
  entry (map (fun p => map (fun q => fsub (fst q) (snd q))
                           (combine (fst p) (snd p)))
             (combine a b)) k0 j
  = fsub (entry a k0 j) (entry b k0 j).
Proof.
  intros Ha Hb Hk Hj. unfold entry.
  pose proof (has_shape_nth _ _ _ k0 Ha Hk) as Hra.
  pose proof (has_shape_nth _ _ _ k0 Hb Hk) as Hrb.
  rewrite (combine_as_range a b [] []) by (destruct Ha, Hb; congruence).
  rewrite map_map. replace (length a) with k by (destruct Ha; congruence).
  rewrite nth_map_range by exact Hk. simpl.
  rewrite (combine_as_range _ _ NaN NaN) by congruence.
  rewrite map_map, Hra. rewrite nth_map_range by exact Hj. reflexivity.
Qed.

(** X9: once a centroid coordinate is [nan] (in the current centroids or
    in the snapshot), the tolerance test cannot succeed: with budget left
    [_check_convergence] returns [False], so such a run only stops when the
    budget is used up. *)
Theorem nan_centroid_never_converges_by_tolerance :
  forall (s : FuzzyCMeans) (p : list (list float64)) (k d k0 j : nat),
    has_shape k d (self_centroids s) -> has_shape k d p ->
    (k0 < k)%nat -> (j < d)%nat ->
    entry (self_centroids s) k0 j = NaN \/ entry p k0 j = NaN ->
    (self_it s < self_max_it s)%Z ->
    _check_convergence (Some p) s = Return false s.
Proof.
  intros s p k d k0 j Hc Hp Hk Hj Hnan Hit.
  unfold _check_convergence. unfold bind at 1, get at 1.
  destruct (Z.geb_spec (self_it s) (self_max_it s)) as [Hge|_]; [lia|].
  unfold bind at 1. rewrite (np_sub2_same_shape k d _ _ Hc Hp). simpl.
  assert (Hsh : has_shape k d
            (map (fun q => map (fun r => fsub (fst r) (snd r))
                               (combine (fst q) (snd q)))
                 (combine (self_centroids s) p))).
  { destruct (np_sub2_shape k d _ _ Hc Hp) as [diff [E Hd]].
    rewrite (np_sub2_same_shape k d _ _ Hc Hp) in E.
    inversion E; subst diff. exact Hd. }
  unfold bind. rewrite (norm_ord1_NaN _ k d k0 j Hsh Hk Hj).
  - reflexivity.
  - rewrite (np_sub2_entry _ _ k d k0 j Hc Hp Hk Hj).
    destruct Hnan as [-> | ->]; [reflexivity|].
    unfold fsub. simpl. apply fadd_NaN_r.
Qed.

Lemma nan_centroid_never_converges_by_tolerance_witness :
  _check_convergence (Some [[Fin 5]])
    (mkFCM 1 [[Fin 5]] [[NaN]] 0 10 2 (1 / 100) [[Fin 1]])
  = Return false (mkFCM 1 [[Fin 5]] [[NaN]] 0 10 2 (1 / 100) [[Fin 1]]).
Proof.
  apply (nan_centroid_never_converges_by_tolerance _ _ 1 1 0 0).
  - split; [reflexivity | repeat constructor].
  - split; [reflexivity | repeat constructor].
  - lia.
  - lia.
  - left. reflexivity.
  - simpl. lia.
Defined.

(* ------------------------------------------------------------------ *)
(** ** More on the convergence test *)

Lemma fold_fmaximum_zero (l : list nat) :
  fold_left fmaximum (map (fun _ => Fin 0) l) (Fin 0) = Fin 0.
Proof.
  induction l as [|x l IH]; simpl; [reflexivity|].
  destruct (Rlt_dec 0 0) as [H|_]; [lra | exact IH].
Qed.

Lemma norm_ord1_zero (a : list (list float64)) (k n : nat) :
  has_shape k n a -> (1 <= k)%nat -> (1 <= n)%nat ->
  (forall k0 j, (k0 < k)%nat -> (j < n)%nat -> entry a k0 j = Fin 0) ->
  norm_ord1 a = Ok (Fin 0).
Proof.
  intros Ha Hk Hn H0. unfold norm_ord1.
  rewrite (norm_ord1_columns a k n Ha Hk).
  rewrite (map_range_ext _ (fun _ => Fin 0)).
  - unfold range. destruct n as [|n']; [lia|]. simpl.
    f_equal. apply fold_fmaximum_zero.
  - intros j Hj.
    rewrite (fsum_map_Fin_range _ (fun _ => 0)).
    + rewrite Rsum_const. f_equal. lra.
    + intros k0 Hk0. rewrite (H0 k0 j Hk0 Hj). simpl. rewrite Rabs_R0.
      reflexivity.
Qed.

Lemma fold_fmaximum_Fin (cs : list R) (c : R) :
  exists M, fold_left fmaximum (map Fin cs) (Fin c) = Fin M
            /\ (forall x, In x (c :: cs) -> x <= M)
            /\ In M (c :: cs).
Proof.
  revert c. induction cs as [|x cs IH]; intros c.
  - exists c. split; [reflexivity|]. split.
    + intros y [<-|[]]. lra.
    + left. reflexivity.
  - cbn [map fold_left]. unfold fmaximum at 2. cbn [flt].
    destruct (Rlt_dec c x) as [Hlt|Hge].
    + destruct (IH x) as [M [E [Hle Hin]]]. exists M.
      split; [exact E|]. split.
      * intros y [<-|[<-|Hy]].
        -- pose proof (Hle x (or_introl eq_refl)). lra.
        -- apply Hle. left. reflexivity.
        -- apply Hle. right. exact Hy.
      * destruct Hin as [<-|Hin]; [right; left; reflexivity|].
        right. right. exact Hin.
    + destruct (IH c) as [M [E [Hle Hin]]]. exists M.
      split; [exact E|]. split.
      * intros y [<-|[<-|Hy]].
        -- apply Hle. left. reflexivity.
        -- pose proof (Hle c (or_introl eq_refl)). lra.
        -- apply Hle. right. exact Hy.
      * destruct Hin as [<-|Hin]; [left; reflexivity|].
        right. right. exact Hin.
Qed.

(** On real entries [norm_ord1] is the largest of the column sums of the
    absolute values. *)
Lemma norm_ord1_finite (a : list (list float64)) (k n : nat) (g : nat -> R) :
  has_shape k n a -> (1 <= k)%nat -> (1 <= n)%nat ->
  (forall j, (j < n)%nat ->
     fsum (map (fun k0 => fabs (entry a k0 j)) (range k)) = Fin (g j)) ->
  exists M, norm_ord1 a = Ok (Fin M)
            /\ (forall j, (j < n)%nat -> g j <= M)
            /\ (exists j, (j < n)%nat /\ M = g j).
Proof.
  intros Ha Hk Hn Hg. unfold norm_ord1.
  rewrite (norm_ord1_columns a k n Ha Hk).
  rewrite (map_range_ext _ (fun j => Fin (g j)) n Hg).
  rewrite <- (map_map g Fin).
  destruct n as [|n']; [lia|].
  assert (E : map g (range (S n')) = g 0%nat :: map g (seq 1 n'))
    by reflexivity.
  assert (Hin : forall x, In x (map g (range (S n'))) <->
                          exists j, (j < S n')%nat /\ x = g j).
  { intros x. rewrite in_map_iff. split.
    - intros [j [<- Hj]]. exists j. split; [apply in_range; exact Hj | reflexivity].
    - intros [j [Hj ->]]. exists j. split; [reflexivity | apply in_range; exact Hj]. }
  rewrite E in *. cbn [map].
  destruct (fold_fmaximum_Fin (map g (seq 1 n')) (g 0%nat)) as [M [EM [Hle HM]]].
  exists M. split; [rewrite EM; reflexivity|]. split.
  - intros j Hj. apply Hle. apply Hin. exists j. split; [exact Hj | reflexivity].
  - apply Hin. exact HM.
Qed.

Lemma column_movement_nonneg (c p : list (list float64)) (k j : nat) :
  0 <= column_movement c p k j.
Proof.
  unfold column_movement. apply Rsum_nonneg. intros k0 _. apply Rabs_pos.
Qed.

(** The norm of the convergence test, on real centroids and a real
    snapshot: the largest [column_movement]. *)
Lemma movement_norm (c p : list (list float64)) (k d : nat) :
  has_shape k d c -> has_shape k d p -> all_finite c -> all_finite p ->
  (1 <= k)%nat -> (1 <= d)%nat ->
  exists diff M,
    np_sub2 c p = Ok diff
    /\ norm_ord1 diff = Ok (Fin M)
    /\ (forall j, (j < d)%nat -> column_movement c p k j <= M)
    /\ (exists j, (j < d)%nat /\ M = column_movement c p k j).
Proof.
  intros Hc Hp Hfc Hfp Hk Hd.
  destruct (np_sub2_shape k d c p Hc Hp) as [diff [E Hsh]].
  pose proof E as E'. rewrite (np_sub2_same_shape k d c p Hc Hp) in E'.
  inversion E' as [Ediff].
  destruct (norm_ord1_finite diff k d (fun j => column_movement c p k j)
              Hsh Hk Hd) as [M [HM [Hle Hex]]].
  - intros j Hj. unfold column_movement. apply fsum_map_Fin_range.
    intros k0 Hk0. rewrite <- Ediff.
    rewrite (np_sub2_entry c p k d k0 j Hc Hp Hk0 Hj).
    rewrite (all_finite_entry c k d k0 j Hc Hfc Hk0 Hj).
    rewrite (all_finite_entry p k d k0 j Hp Hfp Hk0 Hj). reflexivity.
  - exists diff, M. repeat split; assumption.
Qed.

(** C5 (as the code has it): [_check_convergence] leaves the instance as
    it was and returns [True] once the iteration counter has reached
    [max_it]; with budget left it returns [False] when there is no
    snapshot, and otherwise compares with [epsilon] the largest
    [column_movement] (numpy's [norm(..., ord=1)] of a 2-D array), not the
    L1 size of the movement: [True] when every [column_movement] is below
    [epsilon], [False] when one of them reaches [epsilon].  The factors
    [1 + 1e-9] and [1 - 1e-9], with at most a million clusters, leave room
    for the rounding of the float64 sums, which is not modelled. *)
Theorem check_convergence_spec :
  forall (s : FuzzyCMeans) (prev : option (list (list float64))) (k d : nat),
    (1 <= k)%nat -> (Z.of_nat k <= 1000000)%Z -> (1 <= d)%nat ->
    has_shape k d (self_centroids s) -> all_finite (self_centroids s) ->
    (forall p, prev = Some p -> has_shape k d p /\ all_finite p) ->
    exists b : bool,
      _check_convergence prev s = Return b s
      /\ ((self_max_it s <= self_it s)%Z -> b = true)
      /\ ((self_it s < self_max_it s)%Z -> prev = None -> b = false)
      /\ (forall p, (self_it s < self_max_it s)%Z -> prev = Some p ->
            ((forall j, (j < d)%nat ->
                (1 + / 1000000000) * column_movement (self_centroids s) p k j
                < self_epsilon s) ->
             b = true)
            /\ ((exists j, (j < d)%nat
                   /\ self_epsilon s
                      <= (1 - / 1000000000)
                         * column_movement (self_centroids s) p k j) ->
                b = false)).
Proof.
  intros s prev k d Hk _ Hd Hc Hfc Hp.
  unfold _check_convergence. unfold bind at 1, get at 1.
  destruct (Z.geb_spec (self_it s) (self_max_it s)) as [Hge|Hlt].
  - exists true. split; [reflexivity|]. split; [reflexivity|].
    split; [intros; lia | intros; lia].
  - destruct prev as [p|].
    + destruct (Hp p eq_refl) as [Hsp Hfp].
      destruct (movement_norm (self_centroids s) p k d Hc Hsp Hfc Hfp Hk Hd)
        as [diff [M [Ed [EM [Hle [j0 [Hj0 Emax]]]]]]].
      unfold bind at 1. rewrite Ed. simpl.
      unfold bind. rewrite EM. simpl.
      exists (if Rlt_dec M (self_epsilon s) then true else false).
      split; [reflexivity|]. split; [intros; lia|].
      split; [intros _ H; discriminate|].
      intros p' _ Hp'. inversion Hp'; subst p'. split.
      * intros Hall. specialize (Hall j0 Hj0). rewrite <- Emax in Hall.
        pose proof (column_movement_nonneg (self_centroids s) p k j0) as H0.
        rewrite <- Emax in H0.
        destruct (Rlt_dec M (self_epsilon s)) as [_|Hn]; [reflexivity|].
        exfalso. apply Hn. nra.
      * intros [j [Hj Hbig]].
        pose proof (column_movement_nonneg (self_centroids s) p k j) as H0.
        pose proof (Hle j Hj) as H1.
        destruct (Rlt_dec M (self_epsilon s)) as [Hl|_]; [|reflexivity].
        exfalso. nra.
    + exists false. split; [reflexivity|]. split; [intros; lia|].
      split; [reflexivity|]. intros p _ H. discriminate.
Qed.

Lemma check_convergence_spec_witness :
  _check_convergence (Some [[Fin 1]; [Fin 2]]) two_points
  = Return true two_points.
Proof.
  destruct (check_convergence_spec two_points (Some [[Fin 1]; [Fin 2]]) 2 1)
    as [b [Hrun [_ [_ Htol]]]].
  - lia.
  - simpl. lia.
  - lia.
  - split; [reflexivity | repeat constructor].
  - repeat constructor.
  - intros p Hp. inversion Hp; subst p.
    split; [split; [reflexivity | repeat constructor] | repeat constructor].
  - rewrite Hrun. f_equal.
    apply (proj1 (Htol [[Fin 1]; [Fin 2]] ltac:(simpl; lia) eq_refl)).
    intros j Hj. assert (j = 0%nat) by lia. subst j.
    unfold column_movement, entry. simpl.
    replace (1 - 1) with 0 by ring. replace (2 - 2) with 0 by ring.
    rewrite Rabs_R0. lra.
Defined.

(** C5, counterexample: in [two_moves] the centroids have moved by 3 and
    by 4 along different coordinates, so the L1 size of the movement is 7,
    which is not below the tolerance 5; with budget left the test still
    returns [True], because the largest column sum is 4. *)
Lemma converged_with_l1_movement_above_epsilon :
  let p := [[Fin 0; Fin 0]; [Fin 0; Fin 0]] in
  (self_it two_moves < self_max_it two_moves)%Z
  /\ movement_l1 (self_centroids two_moves) p 2 2 = 7
  /\ ~ 7 < self_epsilon two_moves
  /\ _check_convergence (Some p) two_moves = Return true two_moves.
Proof.
  cbv zeta. split; [simpl; lia|]. split; [|split].
  - unfold movement_l1, column_movement, entry. simpl.
    replace (3 - 0) with 3 by ring. replace (0 - 0) with 0 by ring.
    replace (-4 - 0) with (-4) by ring.
    rewrite Rabs_R0, (Rabs_right 3), (Rabs_left (-4)) by lra. lra.
  - simpl. lra.
  - unfold _check_convergence, two_moves. run_monad.
    unfold Rabs. repeat destruct (Rcase_abs _); rdec; try lra;
      unfold flt; rdec; reflexivity.
Qed.

(** X10: compared with a snapshot equal to the current (finite)
    centroids, with budget left, the test answers [True] exactly when
    [epsilon] is positive: the comparison is strict, so [epsilon = 0]
    (or less) switches the tolerance criterion off. *)
Theorem unchanged_centroids_converge_iff_epsilon_positive :
  forall (s : FuzzyCMeans) (k d : nat),
    has_shape k d (self_centroids s) -> all_finite (self_centroids s) ->
    (1 <= k)%nat -> (1 <= d)%nat ->
    (self_it s < self_max_it s)%Z ->
    exists b,
      _check_convergence (Some (self_centroids s)) s = Return b s
      /\ (b = true <-> 0 < self_epsilon s).
Proof.
  intros s k d Hc Hf Hk Hd Hit.
  unfold _check_convergence. unfold bind at 1, get at 1.
  destruct (Z.geb_spec (self_it s) (self_max_it s)) as [Hge|_]; [lia|].
  unfold bind at 1. rewrite (np_sub2_same_shape k d _ _ Hc Hc). simpl.
  assert (Hsh : has_shape k d
            (map (fun q => map (fun r => fsub (fst r) (snd r))
                               (combine (fst q) (snd q)))
                 (combine (self_centroids s) (self_centroids s)))).
  { destruct (np_sub2_shape k d _ _ Hc Hc) as [diff [E Hdiff]].
    rewrite (np_sub2_same_shape k d _ _ Hc Hc) in E.
    inversion E; subst diff. exact Hdiff. }
  unfold bind. rewrite (norm_ord1_zero _ k d Hsh Hk Hd).
  - simpl. exists (if Rlt_dec 0 (self_epsilon s) then true else false).
    split; [reflexivity|].
    destruct (Rlt_dec 0 (self_epsilon s)); split; intros H;
      try assumption; try reflexivity; try discriminate; contradiction.
  - intros k0 j Hk0 Hj.
    rewrite (np_sub2_entry _ _ k d k0 j Hc Hc Hk0 Hj).
    rewrite (all_finite_entry _ k d k0 j Hc Hf Hk0 Hj). simpl.
    f_equal. lra.
Qed.

Lemma unchanged_centroids_converge_iff_epsilon_positive_witness :
  exists b,
    _check_convergence (Some [[Fin 1]; [Fin 2]]) two_points
    = Return b two_points
    /\ (b = true <-> 0 < 1 / 100).
Proof.
  apply (unchanged_centroids_converge_iff_epsilon_positive two_points 2 1).
  - split; [reflexivity | repeat constructor].
  - repeat constructor.
  - lia.
  - lia.
  - simpl. lia.
Defined.

Lemma broadcast_mismatch {A B C} (f : A -> B -> result C)
    (a : list A) (b : list B) :
  length a <> length b -> length a <> 1%nat -> length b <> 1%nat ->
  broadcast f a b = Error ValueError.
Proof.
  intros Hab Ha Hb. unfold broadcast.
  destruct (Nat.eqb_spec (length a) (length b)) as [E|_]; [contradiction|].
  destruct a as [|x [|x' a]]; simpl in Ha; try congruence;
    destruct b as [|y [|y' b]]; simpl in Hb; try congruence; reflexivity.
Qed.

(** X11: a snapshot with another number of centroids (neither number
    being 1) cannot be subtracted: with budget left [_check_convergence]
    raises [ValueError] and leaves the instance as it was. *)
Theorem snapshot_of_other_size_raises :
  forall (s : FuzzyCMeans) (p : list (list float64)),
    length (self_centroids s) <> length p ->
    length (self_centroids s) <> 1%nat -> length p <> 1%nat ->
    (self_it s < self_max_it s)%Z ->
    _check_convergence (Some p) s = Raise ValueError s.
Proof.
  intros s p Hne Hc Hp Hit.
  unfold _check_convergence. unfold bind at 1, get at 1.
  destruct (Z.geb_spec (self_it s) (self_max_it s)) as [Hge|_]; [lia|].
  unfold bind, lift, np_sub2.
  rewrite broadcast_mismatch by assumption. reflexivity.
Qed.

Lemma snapshot_of_other_size_raises_witness :
  _check_convergence (Some [[Fin 1]; [Fin 2]; [Fin 3]]) two_points
  = Raise ValueError two_points.
Proof.
  apply (snapshot_of_other_size_raises two_points).
  - simpl. lia.
  - simpl. lia.
  - simpl. lia.
  - simpl. lia.
Defined.

(* ------------------------------------------------------------------ *)
(** ** Edge behaviour of the centroid update, the loss and [_init_u] *)

(** X12: when a row of [u] does not have one entry per point, the matrix
    product of [_update_v] raises [ValueError]; [centroids] keeps its
    previous value. *)
Theorem update_v_shape_mismatch_raises :
  forall (s : FuzzyCMeans) (r : list float64),
    In r (self_u s) -> length r <> length (self_X s) ->
    _update_v s = Raise ValueError s.
Proof.
  intros s r Hin Hlen. unfold _update_v. unfold bind at 1, get at 1.
  unfold bind, lift, matmul.
  replace (forallb _ (np_pow (self_u s) (self_m s))) with false; [reflexivity|].
  symmetry. apply not_true_is_false. intros H.
  rewrite forallb_forall in H.
  specialize (H (map (fun x => fpow x (self_m s)) r)).
  rewrite length_map in H. apply Hlen. apply Nat.eqb_eq. apply H.
  unfold np_pow. apply in_map. exact Hin.
Qed.

Lemma update_v_shape_mismatch_raises_witness :
  _update_v (set_u [[Fin 1; Fin 0; Fin 0]; [Fin 0; Fin 1; Fin 1]] two_points)
  = Raise ValueError
          (set_u [[Fin 1; Fin 0; Fin 0]; [Fin 0; Fin 1; Fin 1]] two_points).
Proof.
  apply (update_v_shape_mismatch_raises _ [Fin 1; Fin 0; Fin 0]).
  - left. reflexivity.
  - simpl. lia.
Defined.

Lemma fmul_nonneg (a b : float64) : nonneg a -> nonneg b -> nonneg (fmul a b).
Proof.
  destruct a as [x| | |], b as [y| | |]; simpl; intros Ha Hb;
    try exact I; try contradiction.
  - apply Rmult_le_pos; assumption.
  - unfold signed_inf. destruct (Req_dec_T x 0); [exact I|].
    destruct (Rlt_dec 0 x); [exact I | lra].
  - unfold signed_inf. destruct (Req_dec_T y 0); [exact I|].
    destruct (Rlt_dec 0 y); [exact I | lra].
Qed.

Lemma fpow_of_nonneg (a : float64) (y : R) : nonneg a -> nonneg (fpow a y).
Proof.
  destruct a as [x| | |]; simpl; intros Ha; try contradiction; unfold fpow;
    destruct (Req_dec_T y 0); simpl; try lra; try exact I.
  - destruct (Rlt_dec 0 x); [simpl; apply Rlt_le, Rpower_pos|].
    destruct (Req_dec_T x 0); [|lra].
    destruct (Rlt_dec 0 y); simpl; [lra | exact I].
  - destruct (Rlt_dec 0 y); simpl; [exact I | lra].
Qed.

Lemma fsum_nonneg {A} (f : A -> float64) (l : list A) :
  (forall x, In x l -> nonneg (f x)) -> nonneg (fsum (map f l)).
Proof.
  unfold fsum. induction l as [|a l IH]; simpl; intros H; [lra|].
  apply fadd_nonneg; [apply H; left; reflexivity|].
  apply IH. intros x Hx. apply H. right. exact Hx.
Qed.

(** X13: with [m > 0], if no membership is negative, the loss is not
    negative, whatever the data and the centroids hold ([nan] and [inf]
    included): [_loss] returns a real number that is zero or more, [inf]
    or [nan], never a negative number or [-inf], and leaves the instance
    as it was. *)
Theorem loss_is_nonnegative :
  forall (s : FuzzyCMeans) (n d : nat),
    well_shaped n d s -> 0 < self_m s ->
    (forall k i, (k < self_K s)%nat -> (i < n)%nat ->
       nonneg (entry (self_u s) k i)) ->
    exists v, _loss s = Return v s /\ nonneg v.
Proof.
  intros s n d Hs _ Hu. exists (objective s).
  split; [apply (loss_run s n d Hs)|].
  unfold objective.
  replace (length (self_X s)) with n by (destruct Hs as [[H _] _]; congruence).
  apply fsum_nonneg. intros i Hi. apply in_range in Hi.
  apply fsum_nonneg. intros k Hk. apply in_range in Hk.
  apply fmul_nonneg.
  - apply fpow_of_nonneg. apply Hu; assumption.
  - rewrite <- sqnorm_difference. apply sqnorm_nonneg.
Qed.

Lemma loss_is_nonnegative_witness :
  exists v, _loss two_points = Return v two_points /\ nonneg v.
Proof.
  apply (loss_is_nonnegative two_points 2 1).
  - exact two_points_shaped.
  - simpl. lra.
  - intros k i Hk Hi. simpl in Hk. unfold entry.
    destruct k as [|[|k]]; [| |lia]; (destruct i as [|[|i]]; [| |lia]);
      simpl; lra.
Defined.

Lemma Rsum_ge_term_nonneg (g : nat -> R) (n k : nat) :
  (forall i, (i < n)%nat -> 0 <= g i) -> (k < n)%nat ->
  g k <= Rsum (map g (range n)).
Proof.
  intros Hpos Hk.
  destruct (in_split k (range n)) as [l1 [l2 E]]; [apply in_range; exact Hk|].
  rewrite E, Rsum_split_term.
  assert (H0 : 0 <= Rsum (map g (l1 ++ l2))).
  { apply Rsum_nonneg. intros x Hx. apply Hpos. apply in_range. rewrite E.
    apply in_or_app. apply in_app_or in Hx.
    destruct Hx as [Hx|Hx]; [left; exact Hx | right; right; exact Hx]. }
  lra.
Qed.

(** X14: [_init_u] never raises and always stores a [K] by [n] matrix;
    in a column whose draws (numbers of [0, 1)) are not all zero, every
    entry is a real number between 0 and 1. *)
Theorem init_u_gives_memberships :
  forall (rand : nat -> nat -> R) (s : FuzzyCMeans),
    exists w,
      _init_u rand s = Return tt (set_u w s)
      /\ has_shape (self_K s) (length (self_X s)) w
      /\ forall i, (i < length (self_X s))%nat ->
           (forall k, (k < self_K s)%nat -> 0 <= rand k i < 1) ->
           (exists k, (k < self_K s)%nat /\ rand k i <> 0) ->
           forall k, (k < self_K s)%nat ->
             exists a, entry w k i = Fin a /\ 0 <= a <= 1.
Proof.
  intros rand s. exists (normalized (drawn rand s)).
  split; [apply init_u_run|].
  split; [apply normalized_shape, drawn_shape|].
  intros i Hi Hr [k1 [Hk1 Hpos]] k Hk.
  set (c := Rsum (map (fun k0 => rand k0 i) (range (self_K s)))).
  assert (Hc : 0 < c).
  { apply Rsum_pos_exists.
    - intros k0 Hk0. apply in_range in Hk0. apply (Hr k0 Hk0).
    - exists k1. split; [apply in_range; exact Hk1|].
      destruct (Hr k1 Hk1) as [[H|H] _]; [exact H|].
      exfalso. apply Hpos. symmetry. exact H. }
  assert (Hle : rand k i <= c).
  { apply (Rsum_ge_term_nonneg (fun k0 => rand k0 i)); [|exact Hk].
    intros k0 Hk0. apply (Hr k0 Hk0). }
  exists (rand k i / c). split.
  - rewrite (normalized_entry (self_K s) (length (self_X s)))
      by (try apply drawn_shape; assumption).
    rewrite column_as_range.
    replace (length (drawn rand s)) with (self_K s)
      by (symmetry; apply drawn_shape).
    rewrite (fsum_map_Fin_range _ (fun k0 => rand k0 i))
      by (intros k0 Hk0; apply drawn_entry; assumption).
    rewrite drawn_entry by assumption. fold c. simpl.
    destruct (Req_dec_T c 0) as [E|_]; [lra | reflexivity].
  - destruct (Hr k Hk) as [H0 _]. split.
    + apply Rmult_le_pos; [exact H0 | apply Rlt_le, Rinv_0_lt_compat, Hc].
    + apply (Rmult_le_reg_r c); [exact Hc|].
      unfold Rdiv. rewrite Rmult_assoc, Rinv_l by lra. lra.
Qed.

Lemma init_u_gives_memberships_witness :
  exists w,
    _init_u (fun _ _ => 1 / 2) two_points = Return tt (set_u w two_points)
    /\ has_shape 2 2 w
    /\ forall k, (k < 2)%nat -> exists a, entry w k 0 = Fin a /\ 0 <= a <= 1.
Proof.
  destruct (init_u_gives_memberships (fun _ _ => 1 / 2) two_points)
    as [w [Hrun [Hsh Hent]]].
  exists w. split; [exact Hrun|]. split; [exact Hsh|].
  apply (Hent 0%nat).
  - simpl. lia.
  - intros k _. lra.
  - exists 0%nat. split; [simpl; lia | lra].
Defined.

(* ------------------------------------------------------------------ *)
(** ** labs/w3/run.py: combining two comparison matrices *)

Lemma feq_spec (a : float64) (x : R) : feq a (Fin x) = true <-> a = Fin x.
Proof.
  destruct a as [y| | |]; simpl; split; intros H; try discriminate.
  - destruct (Req_dec_T y x) as [->|_]; [reflexivity | discriminate].
  - inversion H. destruct (Req_dec_T x x) as [_|E]; [reflexivity | contradiction].
Qed.

Lemma getitem2_entry (a : list (list float64)) (n m i j : nat) :
  has_shape n m a -> (i < n)%nat -> (j < m)%nat ->
  getitem2 a i j = Ok (entry a i j).
Proof.
  intros Ha Hi Hj. unfold getitem2, entry.
  rewrite (getitem_nth a i []) by (destruct Ha; lia). simpl.
  apply getitem_nth. rewrite (has_shape_nth _ _ _ i Ha Hi). exact Hj.
Qed.

Lemma mapM_map_range {B} (f : nat -> result B) (g : nat -> B) (n : nat) :
  (forall i, (i < n)%nat -> f i = Ok (g i)) ->
  mapM f (range n) = Ok (map g (range n)).
Proof.
  intros H. rewrite <- (mapM_total g). apply mapM_ext.
  intros i Hi. apply H. apply in_range. exact Hi.
Qed.

Lemma map_range_shape (g : nat -> nat -> float64) (n m : nat) :
  has_shape n m (map (fun i => map (fun j => g i j) (range m)) (range n)).
Proof.
  unfold range. split.
  - rewrite length_map, length_seq. reflexivity.
  - apply Forall_forall. intros r Hr. apply in_map_iff in Hr.
    destruct Hr as [i [<- _]]. rewrite length_map, length_seq. reflexivity.
Qed.

Lemma map_range_entry (g : nat -> nat -> float64) (n m i j : nat) :
  (i < n)%nat -> (j < m)%nat ->
  entry (map (fun i0 => map (fun j0 => g i0 j0) (range m)) (range n)) i j
  = g i j.
Proof.
  intros Hi Hj. unfold entry.
  rewrite nth_map_range by exact Hi. rewrite nth_map_range by exact Hj.
  reflexivity.
Qed.

Lemma shape1_has_shape (a : list (list float64)) (n m : nat) :
  has_shape n m a -> (1 <= n)%nat -> shape1 a = m.
Proof. intros Ha Hn. apply (has_shape_ncols n m a Ha Hn). Qed.

Lemma combine_test_run (acc tm : list (list float64)) (n m : nat) :
  has_shape n m acc -> has_shape n m tm ->
  combine_test acc tm
  = Ok (map (fun i => map (fun j => combined (entry acc i j) (entry tm i j))
                          (range m))
            (range n)).
Proof.
  intros Ha Ht. unfold combine_test.
  replace (length acc) with n by (destruct Ha; congruence).
  apply mapM_map_range. intros i Hi.
  rewrite (shape1_has_shape acc n m Ha) by lia.
  apply mapM_map_range. intros j Hj.
  unfold combine_cell, combined.
  rewrite (getitem2_entry acc n m i j Ha Hi Hj). simpl.
  destruct (feq (entry acc i j) (Fin 1)); [reflexivity|].
  destruct (feq (entry acc i j) (Fin 2)); [reflexivity|].
  rewrite (getitem2_entry tm n m i j Ht Hi Hj). simpl.
  destruct (feq (entry tm i j) (Fin 1)); [reflexivity|].
  destruct (feq (entry tm i j) (Fin 2)); reflexivity.
Qed.

(** X15: on two matrices of one shape [combine_test] returns a matrix of
    that shape whose entries are 0, 1 or 2 whatever the inputs hold: the
    accuracy verdict where it is 1 or 2; otherwise the time verdict with
    winner and loser exchanged (1 becomes 2, 2 becomes 1); otherwise 0. *)
Theorem combine_test_accuracy_first :
  forall (acc tm : list (list float64)) (n m : nat),
    has_shape n m acc -> has_shape n m tm ->
    exists c,
      combine_test acc tm = Ok c
      /\ has_shape n m c
      /\ forall i j, (i < n)%nat -> (j < m)%nat ->
           (entry c i j = Fin 0 \/ entry c i j = Fin 1 \/ entry c i j = Fin 2)
           /\ (entry acc i j = Fin 1 -> entry c i j = Fin 1)
           /\ (entry acc i j = Fin 2 -> entry c i j = Fin 2)
           /\ (entry acc i j <> Fin 1 -> entry acc i j <> Fin 2 ->
               (entry tm i j = Fin 1 -> entry c i j = Fin 2)
               /\ (entry tm i j = Fin 2 -> entry c i j = Fin 1)
               /\ (entry tm i j <> Fin 1 -> entry tm i j <> Fin 2 ->
                   entry c i j = Fin 0)).
Proof.
  intros acc tm n m Ha Ht. eexists. split; [apply (combine_test_run acc tm n m Ha Ht)|].
  split; [apply map_range_shape|].
  intros i j Hi Hj. rewrite map_range_entry by assumption.
  unfold combined.
  destruct (feq (entry acc i j) (Fin 1)) eqn:A1.
  { apply feq_spec in A1. split; [auto|]. split; [reflexivity|].
    split; [intros E; rewrite A1 in E; inversion E; lra|].
    intros H; contradiction. }
  assert (N1 : entry acc i j <> Fin 1).
  { intros E. apply feq_spec in E. congruence. }
  destruct (feq (entry acc i j) (Fin 2)) eqn:A2.
  { apply feq_spec in A2. split; [auto|]. split; [intros E; contradiction|].
    split; [reflexivity|]. intros _ H; contradiction. }
  assert (N2 : entry acc i j <> Fin 2).
  { intros E. apply feq_spec in E. congruence. }
  destruct (feq (entry tm i j) (Fin 1)) eqn:T1.
  { apply feq_spec in T1. split; [auto|]. split; [intros E; contradiction|].
    split; [intros E; contradiction|]. intros _ _.
    split; [reflexivity|].
    split; [intros E; rewrite T1 in E; inversion E; lra | intros H; contradiction]. }
  assert (M1 : entry tm i j <> Fin 1).
  { intros E. apply feq_spec in E. congruence. }
  destruct (feq (entry tm i j) (Fin 2)) eqn:T2.
  { apply feq_spec in T2. split; [auto|]. split; [intros E; contradiction|].
    split; [intros E; contradiction|]. intros _ _.
    split; [intros E; contradiction|].
    split; [reflexivity | intros _ H; contradiction]. }
  assert (M2 : entry tm i j <> Fin 2).
  { intros E. apply feq_spec in E. congruence. }
  split; [auto|]. split; [intros E; contradiction|].
  split; [intros E; contradiction|]. intros _ _.
  split; [intros E; contradiction|].
  split; [intros E; contradiction | reflexivity].
Qed.

Lemma combine_test_accuracy_first_witness :
  exists c,
    combine_test [[Fin 0; Fin 1]; [Fin 2; Fin 0]] [[Fin 0; Fin 2]; [Fin 1; NaN]]
    = Ok c
    /\ has_shape 2 2 c.
Proof.
  destruct (combine_test_accuracy_first
              [[Fin 0; Fin 1]; [Fin 2; Fin 0]] [[Fin 0; Fin 2]; [Fin 1; NaN]] 2 2)
    as [c [H1 [H2 _]]].
  - split; [reflexivity | repeat constructor].
  - split; [reflexivity | repeat constructor].
  - exists c. split; assumption.
Defined.

Lemma getitem_error {A} (l : list A) (i : nat) (e : exn) :
  getitem l i = Error e -> e = IndexError.
Proof.
  unfold getitem. destruct (nth_error l i); intros H; inversion H. reflexivity.
Qed.

Lemma getitem2_error (a : list (list float64)) (i j : nat) (e : exn) :
  getitem2 a i j = Error e -> e = IndexError.
Proof.
  unfold getitem2. destruct (getitem a i) as [r|e0] eqn:E; simpl.
  - apply getitem_error.
  - intros H. inversion H; subst. apply (getitem_error a i). exact E.
Qed.

Lemma combine_cell_error (acc tm : list (list float64)) (i j : nat) (e : exn) :
  combine_cell acc tm i j = Error e -> e = IndexError.
Proof.
  unfold combine_cell.
  destruct (getitem2 acc i j) as [a|e0] eqn:Ea; simpl.
  2:{ intros H. inversion H; subst. apply (getitem2_error acc i j). exact Ea. }
  destruct (feq a (Fin 1)); [discriminate|].
  destruct (feq a (Fin 2)); [discriminate|].
  destruct (getitem2 tm i j) as [t|e1] eqn:Et; simpl.
  2:{ intros H. inversion H; subst. apply (getitem2_error tm i j). exact Et. }
  destruct (feq t (Fin 1)); [discriminate|].
  destruct (feq t (Fin 2)); discriminate.
Qed.

Lemma mapM_error_kind {A B} (f : A -> result B) (l : list A) (e : exn) :
  (forall x e0, f x = Error e0 -> e0 = IndexError) ->
  mapM f l = Error e -> e = IndexError.
Proof.
  intros Hf. induction l as [|x xs IH]; simpl; [discriminate|].
  destruct (f x) as [y|e0] eqn:E; simpl.
  - destruct (mapM f xs) as [ys|e1]; simpl; [discriminate|].
    intros H. inversion H; subst. apply IH. reflexivity.
  - intros H. inversion H; subst. apply (Hf x). exact E.
Qed.

Lemma mapM_fails {A B} (f : A -> result B) (l : list A) (x : A) (e : exn) :
  (forall y e0, f y = Error e0 -> e0 = IndexError) ->
  In x l -> f x = Error e ->
  mapM f l = Error IndexError.
Proof.
  intros Hf Hin Hx. induction l as [|y ys IH]; [contradiction|]. simpl.
  destruct (f y) as [v|e0] eqn:E; simpl.
  - destruct Hin as [->|Hin]; [congruence|].
    rewrite (IH Hin). reflexivity.
  - f_equal. apply (Hf y). exact E.
Qed.

(** X16: [combine_test] reads the time matrix only where the accuracy
    verdict is neither 1 nor 2.  If every accuracy verdict is 1 or 2 the
    result is the accuracy matrix, whatever is passed as time matrix (even
    an empty one); if an undecided cell lies outside the time matrix the
    call raises [IndexError]. *)
Theorem combine_test_reads_time_only_if_undecided :
  forall (acc : list (list float64)) (n m : nat),
    has_shape n m acc ->
    (forall tm : list (list float64),
       (forall i j, (i < n)%nat -> (j < m)%nat ->
          entry acc i j = Fin 1 \/ entry acc i j = Fin 2) ->
       combine_test acc tm = Ok acc)
    /\ (forall (tm : list (list float64)) (n' m' i j : nat),
          has_shape n' m' tm -> (i < n)%nat -> (j < m)%nat ->
          entry acc i j <> Fin 1 -> entry acc i j <> Fin 2 ->
          (n' <= i)%nat \/ (m' <= j)%nat ->
          combine_test acc tm = Error IndexError).
Proof.
  intros acc n m Ha. split.
  - intros tm Hdec. unfold combine_test.
    replace (length acc) with n by (destruct Ha; congruence).
    rewrite (mapM_map_range _ (fun i => map (fun j => entry acc i j) (range m))).
    + f_equal. apply (matrix_ext n m); [apply map_range_shape | exact Ha |].
      intros i j Hi Hj. apply map_range_entry; assumption.
    + intros i Hi. rewrite (shape1_has_shape acc n m Ha) by lia.
      apply mapM_map_range. intros j Hj. unfold combine_cell.
      rewrite (getitem2_entry acc n m i j Ha Hi Hj). simpl.
      destruct (Hdec i j Hi Hj) as [E|E]; rewrite E; simpl.
      * destruct (Req_dec_T 1 1) as [_|H]; [reflexivity | contradiction].
      * destruct (Req_dec_T 2 1) as [H|_]; [lra|].
        destruct (Req_dec_T 2 2) as [_|H]; [reflexivity | contradiction].
  - intros tm n' m' i j Ht Hi Hj N1 N2 Hout. unfold combine_test.
    replace (length acc) with n by (destruct Ha; congruence).
    rewrite (shape1_has_shape acc n m Ha) by lia.
    assert (Hcell : exists e, combine_cell acc tm i j = Error e).
    { unfold combine_cell.
      rewrite (getitem2_entry acc n m i j Ha Hi Hj). simpl.
      destruct (feq (entry acc i j) (Fin 1)) eqn:A1;
        [apply feq_spec in A1; contradiction|].
      destruct (feq (entry acc i j) (Fin 2)) eqn:A2;
        [apply feq_spec in A2; contradiction|].
      assert (Et : getitem2 tm i j = Error IndexError).
      { unfold getitem2, getitem.
        destruct (nth_error tm i) as [r|] eqn:Er; [|reflexivity]. simpl.
        assert (Hin : (i < length tm)%nat)
          by (apply nth_error_Some; congruence).
        assert (Hr : length r = m').
        { destruct Ht as [_ Hrows]. rewrite Forall_forall in Hrows.
          apply Hrows. eapply nth_error_In; eauto. }
        destruct Hout as [Hout|Hout]; [destruct Ht; lia|].
        replace (nth_error r j) with (@None float64); [reflexivity|].
        symmetry. apply nth_error_None. lia. }
      rewrite Et. simpl. eexists. reflexivity. }
    destruct Hcell as [e Hcell].
    apply (mapM_fails _ (range n) i IndexError).
    + intros y e0. apply mapM_error_kind. intros x e1.
      apply combine_cell_error.
    + apply in_range. exact Hi.
    + apply (mapM_fails _ (range m) j e).
      * intros y e0. apply combine_cell_error.
      * apply in_range. exact Hj.
      * exact Hcell.
Qed.

Lemma combine_test_reads_time_only_if_undecided_witness :
  combine_test [[Fin 1; Fin 2]] [] = Ok [[Fin 1; Fin 2]]
  /\ combine_test [[Fin 1; Fin 0]] [[Fin 1]] = Error IndexError.
Proof.
  destruct (combine_test_reads_time_only_if_undecided [[Fin 1; Fin 2]] 1 2)
    as [H1 _]; [split; [reflexivity | repeat constructor]|].
  destruct (combine_test_reads_time_only_if_undecided [[Fin 1; Fin 0]] 1 2)
    as [_ H2]; [split; [reflexivity | repeat constructor]|].
  split.
  - apply H1. intros i j Hi Hj. unfold entry.
    destruct i as [|i]; [|lia]. destruct j as [|[|j]]; [| |lia]; simpl; auto.
  - apply (H2 [[Fin 1]] 1%nat 1%nat 0%nat 1%nat).
    + split; [reflexivity | repeat constructor].
    + lia.
    + lia.
    + unfold entry. simpl. intros E. inversion E. lra.
    + unfold entry. simpl. intros E. inversion E. lra.
    + right. lia.
Defined.

(** X17: [combine_test] keeps comparison matrices mirrored: if in both
    square inputs "[i] beats [j]" (1) holds exactly when "[j] loses to
    [i]" (2) holds, the same is true of the combined matrix. *)
Theorem combine_test_keeps_mirrored :
  forall (acc tm : list (list float64)) (n : nat),
    has_shape n n acc -> has_shape n n tm ->
    mirrored n acc -> mirrored n tm ->
    exists c, combine_test acc tm = Ok c /\ mirrored n c.
Proof.
  intros acc tm n Ha Ht Ma Mt. eexists.
  split; [apply (combine_test_run acc tm n n Ha Ht)|].
  intros i j Hi Hj. rewrite !map_range_entry by assumption.
  pose proof (Ma i j Hi Hj) as A12. pose proof (Ma j i Hj Hi) as A21.
  pose proof (Mt i j Hi Hj) as T12. pose proof (Mt j i Hj Hi) as T21.
  unfold combined.
  destruct (feq (entry acc i j) (Fin 1)) eqn:A1;
  destruct (feq (entry acc i j) (Fin 2)) eqn:A2;
  destruct (feq (entry acc j i) (Fin 1)) eqn:B1;
  destruct (feq (entry acc j i) (Fin 2)) eqn:B2;
  destruct (feq (entry tm i j) (Fin 1)) eqn:C1;
  destruct (feq (entry tm i j) (Fin 2)) eqn:C2;
  destruct (feq (entry tm j i) (Fin 1)) eqn:D1;
  destruct (feq (entry tm j i) (Fin 2)) eqn:D2;
  repeat match goal with
    | H : feq _ _ = true |- _ => apply feq_spec in H
    | H : feq ?a (Fin ?x) = false |- _ =>
        assert (a <> Fin x)
          by (let E := fresh in intros E; apply feq_spec in E; congruence);
        clear H
    end;
  split; intros G; try reflexivity;
  try (inversion G; lra);
  try (exfalso; intuition congruence);
  exfalso; assert (E : Fin 1 = Fin 2) by congruence; inversion E; lra.
Qed.

Lemma combine_test_keeps_mirrored_witness :
  exists c,
    combine_test [[Fin 0; Fin 1]; [Fin 2; Fin 0]] [[Fin 0; Fin 2]; [Fin 1; Fin 0]]
    = Ok c
    /\ mirrored 2 c.
Proof.
  apply (combine_test_keeps_mirrored _ _ 2).
  - split; [reflexivity | repeat constructor].
  - split; [reflexivity | repeat constructor].
  - intros i j Hi Hj. unfold entry.
    destruct i as [|[|i]]; [| |lia]; (destruct j as [|[|j]]; [| |lia]); simpl;
      split; intros E; try reflexivity; inversion E; lra.
  - intros i j Hi Hj. unfold entry.
    destruct i as [|[|i]]; [| |lia]; (destruct j as [|[|j]]; [| |lia]); simpl;
      split; intros E; try reflexivity; inversion E; lra.
Defined.

(* ------------------------------------------------------------------ *)
(** ** The verdict matrices of [eval_stat_test] *)

Lemma run_mapM_ext {A B} (f g : A -> run_result B) (l : list A) :
  (forall x, In x l -> f x = g x) -> run_mapM f l = run_mapM g l.
Proof.
  induction l as [|x xs IH]; simpl; intros H; [reflexivity|].
  rewrite (H x) by auto. rewrite IH by auto. reflexivity.
Qed.

Lemma run_mapM_total {A B} (g : A -> B) (l : list A) :
  run_mapM (fun x => Done (g x)) l = Done (map g l).
Proof.
  induction l as [|x xs IH]; simpl; [reflexivity|].
  rewrite IH. reflexivity.
Qed.

Lemma run_mapM_map_range {B} (f : nat -> run_result B) (g : nat -> B) (n : nat) :
  (forall i, (i < n)%nat -> f i = Done (g i)) ->
  run_mapM f (range n) = Done (map g (range n)).
Proof.
  intros H. rewrite <- (run_mapM_total g). apply run_mapM_ext.
  intros i Hi. apply H. apply in_range. exact Hi.
Qed.

Lemma stat_shaped_shape1 (mat : list (list (list float64))) (n m : nat) :
  stat_shaped n m mat -> (1 <= n)%nat -> shape1 mat = m.
Proof.
  intros [Hl Hr] Hn. destruct mat as [|r mat']; simpl in *; [lia|].
  inversion Hr as [|? ? [H _] _]. exact H.
Qed.

Lemma stat_and_p_at (mat : list (list (list float64))) (n m i j : nat) :
  stat_shaped n m mat -> (i < n)%nat -> (j < m)%nat ->
  stat_and_p mat i j = Done (statistic_at mat i j, p_value_at mat i j).
Proof.
  intros [Hl Hr] Hi Hj. unfold stat_and_p, statistic_at, p_value_at.
  rewrite Forall_forall in Hr.
  assert (Hrow : In (nth i mat []) mat) by (apply nth_In; lia).
  destruct (Hr _ Hrow) as [Hm Hc]. rewrite Forall_forall in Hc.
  assert (Hcell : In (nth j (nth i mat []) []) (nth i mat []))
    by (apply nth_In; lia).
  pose proof (Hc _ Hcell) as H2.
  rewrite (getitem_nth mat i []) by lia. simpl.
  rewrite (getitem_nth (nth i mat []) j []) by lia. simpl.
  rewrite (getitem_nth _ 0 NaN) by lia. simpl.
  rewrite (getitem_nth _ 1 NaN) by lia. simpl.
  reflexivity.
Qed.

Lemma eval_stat_test_cells (mat : list (list (list float64)))
    (rs : list model_score) (test : String.string) (alpha : R) (n m : nat)
    (g : nat -> nat -> float64) :
  stat_shaped n m mat ->
  test = "wilcoxon"%string \/ test = "ttest"%string ->
  (forall i j, (i < n)%nat -> (j < m)%nat ->
     (if String.eqb test "wilcoxon"%string then wilcoxon_cell else ttest_cell)
       mat rs alpha i j = Done (g i j)) ->
  eval_stat_test mat rs test alpha
  = Done (map (fun i => map (fun j => g i j) (range m)) (range n)).
Proof.
  intros Hs Ht Hcell. unfold eval_stat_test.
  replace (negb (known_test test)) with false
    by (destruct Ht as [-> | ->]; reflexivity).
  replace (String.eqb test "anova"%string) with false
    by (destruct Ht as [-> | ->]; reflexivity).
  cbv zeta. replace (length mat) with n by (destruct Hs; congruence).
  apply run_mapM_map_range. intros i Hi.
  rewrite (stat_shaped_shape1 mat n m Hs) by lia.
  apply run_mapM_map_range. intros j Hj. apply Hcell; assumption.
Qed.

Lemma mean_accuracy_run (rs : list model_score) (i : nat) :
  (i < length rs)%nat ->
  mean_accuracy rs i
  = Done (np_mean (map accuracy (results (nth i rs (mkModel []))))).
Proof.
  intros H. unfold mean_accuracy.
  rewrite (getitem_nth rs i (mkModel [])) by exact H. reflexivity.
Qed.

Lemma wilcoxon_cell_run (mat : list (list (list float64)))
    (rs : list model_score) (alpha : R) (n m i j : nat) :
  stat_shaped n m mat -> (n <= length rs)%nat -> (m <= length rs)%nat ->
  (i < n)%nat -> (j < m)%nat ->
  wilcoxon_cell mat rs alpha i j
  = Done (if flt (p_value_at mat i j) (Fin alpha)
          then if flt (Fin 0) (statistic_at mat i j) then Fin 2 else Fin 0
          else Fin 0).
Proof.
  intros Hs Hn Hm Hi Hj. unfold wilcoxon_cell.
  rewrite (stat_and_p_at mat n m i j Hs Hi Hj). cbn [run_bind fst snd].
  destruct (flt (p_value_at mat i j) (Fin alpha)); [|reflexivity].
  destruct (flt (Fin 0) (statistic_at mat i j)); [|reflexivity].
  rewrite (mean_accuracy_run rs i) by lia. cbn [run_bind].
  rewrite (mean_accuracy_run rs j) by lia. reflexivity.
Qed.

Lemma ttest_cell_run (mat : list (list (list float64)))
    (rs : list model_score) (alpha : R) (n m i j : nat) :
  stat_shaped n m mat -> (i < n)%nat -> (j < m)%nat ->
  ttest_cell mat rs alpha i j
  = Done (if flt (p_value_at mat i j) (Fin alpha)
          then if flt (statistic_at mat i j) (Fin 0) then Fin 2
               else if flt (Fin 0) (statistic_at mat i j) then Fin 1
               else Fin 0
          else Fin 0).
Proof.
  intros Hs Hi Hj. unfold ttest_cell.
  rewrite (stat_and_p_at mat n m i j Hs Hi Hj). cbn [run_bind fst snd].
  destruct (flt (p_value_at mat i j) (Fin alpha)); [|reflexivity].
  destruct (flt (statistic_at mat i j) (Fin 0)); [reflexivity|].
  destruct (flt (Fin 0) (statistic_at mat i j)); reflexivity.
Qed.

(** X18: with [test = 'wilcoxon'], [eval_stat_test] never answers "the
    first is better": a cell is 2 when the p-value is below [alpha] and the
    statistic is positive, and 0 otherwise.  The mean accuracies of
    [results] are computed but do not influence any cell. *)
Theorem wilcoxon_verdict_is_never_first :
  forall (mat : list (list (list float64))) (rs : list model_score)
         (alpha : R) (n m : nat),
    stat_shaped n m mat -> (n <= length rs)%nat -> (m <= length rs)%nat ->
    exists sel,
      eval_stat_test mat rs "wilcoxon"%string alpha = Done sel
      /\ has_shape n m sel
      /\ forall i j, (i < n)%nat -> (j < m)%nat ->
           entry sel i j
           = (if flt (p_value_at mat i j) (Fin alpha)
              then if flt (Fin 0) (statistic_at mat i j) then Fin 2 else Fin 0
              else Fin 0)
           /\ entry sel i j <> Fin 1.
Proof.
  intros mat rs alpha n m Hs Hn Hm. eexists. split; [|split].
  - apply (eval_stat_test_cells mat rs "wilcoxon"%string alpha n m
             (fun i j => if flt (p_value_at mat i j) (Fin alpha)
                         then if flt (Fin 0) (statistic_at mat i j)
                              then Fin 2 else Fin 0
                         else Fin 0) Hs); [left; reflexivity|].
    intros i j Hi Hj. simpl.
    apply (wilcoxon_cell_run mat rs alpha n m i j); assumption.
  - apply map_range_shape.
  - intros i j Hi Hj. rewrite map_range_entry by assumption.
    split; [reflexivity|].
    destruct (flt (p_value_at mat i j) (Fin alpha));
      [destruct (flt (Fin 0) (statistic_at mat i j))|];
      intros E; inversion E; lra.
Qed.

Lemma wilcoxon_verdict_is_never_first_witness :
  exists sel,
    eval_stat_test [[[Fin 3; Fin (1/100)]; [Fin 0; Fin 1]]]
                   [mkModel [mkFold (Fin 1) (Fin 2)]; mkModel [mkFold (Fin 0) (Fin 1)]]
                   "wilcoxon"%string (5/100) = Done sel
    /\ has_shape 1 2 sel
    /\ forall i j, (i < 1)%nat -> (j < 2)%nat ->
         entry sel i j
         = (if flt (p_value_at [[[Fin 3; Fin (1/100)]; [Fin 0; Fin 1]]] i j)
                   (Fin (5/100))
            then if flt (Fin 0)
                        (statistic_at [[[Fin 3; Fin (1/100)]; [Fin 0; Fin 1]]] i j)
                 then Fin 2 else Fin 0
            else Fin 0)
         /\ entry sel i j <> Fin 1.
Proof.
  apply wilcoxon_verdict_is_never_first.
  - split; [reflexivity|]. repeat constructor.
  - simpl. lia.
  - simpl. lia.
Defined.

(** X19: with [test = 'ttest'], if swapping the two models negates the
    statistic and keeps the p-value, the verdict matrix of [eval_stat_test]
    is mirrored: cell [(i, j)] says "the first is better" (1) exactly when
    cell [(j, i)] says "the second is better" (2).  [results] is not
    read. *)
Theorem ttest_verdicts_are_mirrored :
  forall (mat : list (list (list float64))) (rs : list model_score)
         (alpha : R) (n : nat),
    stat_shaped n n mat -> antisymmetric n mat ->
    exists sel,
      eval_stat_test mat rs "ttest"%string alpha = Done sel
      /\ has_shape n n sel
      /\ mirrored n sel.
Proof.
  intros mat rs alpha n Hs Ha. eexists. split; [|split].
  - apply (eval_stat_test_cells mat rs "ttest"%string alpha n n
             (fun i j => if flt (p_value_at mat i j) (Fin alpha)
                         then if flt (statistic_at mat i j) (Fin 0) then Fin 2
                              else if flt (Fin 0) (statistic_at mat i j)
                                   then Fin 1 else Fin 0
                         else Fin 0) Hs); [right; reflexivity|].
    intros i j Hi Hj. simpl.
    apply (ttest_cell_run mat rs alpha n n i j); assumption.
  - apply map_range_shape.
  - intros i j Hi Hj. rewrite !map_range_entry by assumption.
    destruct (Ha i j Hi Hj) as [Es Ep]. rewrite Es, Ep.
    destruct (flt (p_value_at mat i j) (Fin alpha)).
    2:{ split; intros E; inversion E; lra. }
    destruct (statistic_at mat i j) as [x| | |]; simpl.
    + destruct (Rlt_dec x 0), (Rlt_dec 0 x), (Rlt_dec (- x) 0),
        (Rlt_dec 0 (- x)); try lra;
        split; intros E; try reflexivity; inversion E; lra.
    + split; reflexivity.
    + split; intros E; inversion E; lra.
    + split; intros E; inversion E; lra.
Qed.

Lemma ttest_verdicts_are_mirrored_witness :
  exists sel,
    eval_stat_test
      [[[NaN; NaN]; [Fin 3; Fin (1/100)]];
       [[Fin (- 3); Fin (1/100)]; [NaN; NaN]]]
      [] "ttest"%string (5/100) = Done sel
    /\ has_shape 2 2 sel
    /\ mirrored 2 sel.
Proof.
  apply ttest_verdicts_are_mirrored.
  - split; [reflexivity|]. repeat constructor.
  - intros i j Hi Hj. unfold statistic_at, p_value_at.
    destruct i as [|[|i]]; [| |lia]; (destruct j as [|[|j]]; [| |lia]); simpl;
      split; try reflexivity; f_equal; lra.
Defined.

(** X20: in both supported modes, when no p-value is below [alpha] (a
    [nan] p-value, as in the cells the caller leaves untouched, is not)
    [eval_stat_test] returns the all-zero matrix, whatever [results]
    holds: it is not read. *)
Theorem no_significant_pair_gives_all_ties :
  forall (mat : list (list (list float64))) (rs : list model_score)
         (test : String.string) (alpha : R) (n m : nat),
    stat_shaped n m mat ->
    test = "wilcoxon"%string \/ test = "ttest"%string ->
    (forall i j, (i < n)%nat -> (j < m)%nat ->
       flt (p_value_at mat i j) (Fin alpha) = false) ->
    eval_stat_test mat rs test alpha
    = Done (map (fun _ => map (fun _ => Fin 0) (range m)) (range n)).
Proof.
  intros mat rs test alpha n m Hs Ht Hp.
  apply (eval_stat_test_cells mat rs test alpha n m (fun _ _ => Fin 0) Hs Ht).
  intros i j Hi Hj.
  destruct Ht as [-> | ->]; simpl.
  - unfold wilcoxon_cell. rewrite (stat_and_p_at mat n m i j Hs Hi Hj). cbn [run_bind fst snd].
    rewrite (Hp i j Hi Hj). reflexivity.
  - unfold ttest_cell. rewrite (stat_and_p_at mat n m i j Hs Hi Hj). cbn [run_bind fst snd].
    rewrite (Hp i j Hi Hj). reflexivity.
Qed.

Lemma no_significant_pair_gives_all_ties_witness :
  eval_stat_test [[[NaN; NaN]; [Fin 3; Fin (1/2)]]] [] "wilcoxon"%string (5/100)
  = Done (map (fun _ => map (fun _ => Fin 0) (range 2)) (range 1)).
Proof.
  apply no_significant_pair_gives_all_ties.
  - split; [reflexivity|]. repeat constructor.
  - left. reflexivity.
  - intros i j Hi Hj. unfold p_value_at.
    destruct i as [|i]; [|lia]. destruct j as [|[|j]]; [| |lia]; simpl.
    + reflexivity.
    + destruct (Rlt_dec (1/2) (5/100)); [lra | reflexivity].
Defined.

(** X21: [compute_stat_test] and [eval_stat_test] reject the same test
    names with the same exception: ['anova'] raises [NotImplementedError]
    and every name other than ['wilcoxon'] and ['ttest'] raises
    [TestMethodException], before the samples or the matrix are looked
    at. *)
Theorem unsupported_test_names_are_rejected :
  forall (wilcoxon ttest_ind :
            list float64 -> list float64 -> run_result (float64 * float64))
         (sample1 sample2 : list float64)
         (mat : list (list (list float64))) (rs : list model_score)
         (alpha : R) (test : String.string),
    test <> "wilcoxon"%string -> test <> "ttest"%string ->
    compute_stat_test wilcoxon ttest_ind sample1 sample2 test
    = Failed (if String.eqb test "anova"%string
              then NotImplementedError else TestMethodException)
    /\ eval_stat_test mat rs test alpha
       = Failed (if String.eqb test "anova"%string
                 then NotImplementedError else TestMethodException).
Proof.
  intros wilcoxon ttest_ind s1 s2 mat rs alpha test Hw Ht.
  unfold compute_stat_test, eval_stat_test, known_test, TEST_METHODS. simpl.
  destruct (String.eqb_spec test "anova"%string) as [->|Ha]; simpl.
  - split; reflexivity.
  - destruct (String.eqb_spec test "wilcoxon"%string) as [E|_]; [contradiction|].
    destruct (String.eqb_spec test "ttest"%string) as [E|_]; [contradiction|].
    split; reflexivity.
Qed.

Lemma unsupported_test_names_are_rejected_witness :
  compute_stat_test (fun _ _ => Done (Fin 0, Fin 1)) (fun _ _ => Done (Fin 0, Fin 1))
                    [Fin 1] [Fin 2] "kruskal"%string
  = Failed TestMethodException
  /\ eval_stat_test [] [] "kruskal"%string (5/100) = Failed TestMethodException.
Proof.
  apply (unsupported_test_names_are_rejected
           (fun _ _ => Done (Fin 0, Fin 1)) (fun _ _ => Done (Fin 0, Fin 1))
           [Fin 1] [Fin 2] [] [] (5/100) "kruskal"%string);
    discriminate.
Defined.

Lemma eval_stat_test_run (mat : list (list (list float64)))
    (rs : list model_score) (test : String.string) (alpha : R) (n m : nat) :
  stat_shaped n m mat ->
  test = "wilcoxon"%string \/ test = "ttest"%string ->
  (n <= length rs)%nat -> (m <= length rs)%nat ->
  eval_stat_test mat rs test alpha
  = Done (map (fun i => map (fun j => verdict test alpha (statistic_at mat i j)
                                              (p_value_at mat i j))
                            (range m)) (range n)).
Proof.
  intros Hs Ht Hn Hm.
  apply (eval_stat_test_cells mat rs test alpha n m
           (fun i j => verdict test alpha (statistic_at mat i j)
                               (p_value_at mat i j)) Hs Ht).
  intros i j Hi Hj. unfold verdict. destruct Ht as [-> | ->]; simpl.
  - apply (wilcoxon_cell_run mat rs alpha n m i j); assumption.
  - apply (ttest_cell_run mat rs alpha n m i j); assumption.
Qed.

(** X22: when the scipy test raises [ValueError], [compute_stat_test]
    returns normally the statistic 0 and the p-value 1, and a cell holding
    these two values is scored 0 (a tie) by [eval_stat_test], for every
    [alpha] and in both modes. *)
Theorem value_error_of_the_test_scores_a_tie :
  forall (wilcoxon ttest_ind :
            list float64 -> list float64 -> run_result (float64 * float64))
         (sample1 sample2 : list float64) (test : String.string),
    test = "wilcoxon"%string \/ test = "ttest"%string ->
    (if String.eqb test "wilcoxon"%string then wilcoxon else ttest_ind)
      sample1 sample2
    = Failed (Builtin ValueError) ->
    compute_stat_test wilcoxon ttest_ind sample1 sample2 test
    = Done (mkStat (Fin 0) (Fin 1))
    /\ forall (mat : list (list (list float64))) (rs : list model_score)
              (alpha : R) (n m i j : nat),
         stat_shaped n m mat ->
         (n <= length rs)%nat -> (m <= length rs)%nat ->
         (i < n)%nat -> (j < m)%nat ->
         statistic_at mat i j = Fin 0 -> p_value_at mat i j = Fin 1 ->
         exists sel,
           eval_stat_test mat rs test alpha = Done sel
           /\ has_shape n m sel
           /\ entry sel i j = Fin 0.
Proof.
  intros wilcoxon ttest_ind s1 s2 test Ht Hv. split.
  - unfold compute_stat_test.
    replace (negb (known_test test)) with false
      by (destruct Ht as [-> | ->]; reflexivity).
    replace (String.eqb test "anova") with false
      by (destruct Ht as [-> | ->]; reflexivity).
    cbv zeta. rewrite Hv. reflexivity.
  - intros mat rs alpha n m i j Hs Hn Hm Hi Hj Es Ep.
    eexists. split; [apply (eval_stat_test_run mat rs test alpha n m Hs Ht Hn Hm)|].
    split; [apply map_range_shape|].
    rewrite map_range_entry by assumption. rewrite Es, Ep.
    unfold verdict. simpl.
    destruct (Rlt_dec 1 alpha); [|reflexivity].
    destruct (Rlt_dec 0 0) as [H|_]; [lra|].
    destruct (String.eqb test "wilcoxon"); reflexivity.
Qed.

Lemma value_error_of_the_test_scores_a_tie_witness :
  compute_stat_test (fun _ _ => Failed (Builtin ValueError))
                    (fun _ _ => Done (Fin 2, Fin (1/100)))
                    [Fin 1; Fin 1] [Fin 1; Fin 1] "wilcoxon"%string
  = Done (mkStat (Fin 0) (Fin 1))
  /\ forall (mat : list (list (list float64))) (rs : list model_score)
            (alpha : R) (n m i j : nat),
       stat_shaped n m mat ->
       (n <= length rs)%nat -> (m <= length rs)%nat ->
       (i < n)%nat -> (j < m)%nat ->
       statistic_at mat i j = Fin 0 -> p_value_at mat i j = Fin 1 ->
       exists sel,
         eval_stat_test mat rs "wilcoxon"%string alpha = Done sel
         /\ has_shape n m sel
         /\ entry sel i j = Fin 0.
Proof.
  apply (value_error_of_the_test_scores_a_tie
           (fun _ _ => Failed (Builtin ValueError))
           (fun _ _ => Done (Fin 2, Fin (1/100)))
           [Fin 1; Fin 1] [Fin 1; Fin 1] "wilcoxon"%string).
  - left. reflexivity.
  - reflexivity.
Defined.

(* ------------------------------------------------------------------ *)
(** ** One fold of the k-IBL evaluation *)

Lemma count_corrects_bound (instance label classifier : Type)
    (label_eqb : label -> label -> bool)
    (k_neighbours : classifier -> instance -> label
                    -> run_result (label * classifier)) :
  (forall a x y, exists r, k_neighbours a x y = Done r) ->
  forall (val_data : list (instance * label)) (alg : classifier) (c0 : nat),
    exists c,
      count_corrects instance label classifier label_eqb k_neighbours
                     alg val_data c0 = Done c
      /\ (c0 <= c <= c0 + length val_data)%nat.
Proof.
  intros Hk val_data. induction val_data as [|[x y] rest IH]; intros alg c0.
  - exists c0. simpl. split; [reflexivity | lia].
  - simpl. destruct (Hk alg x y) as [r Hr]. rewrite Hr. simpl.
    destruct (IH (snd r) (if label_eqb (fst r) y then S c0 else c0))
      as [c [Hc Hb]].
    exists c. split; [exact Hc|].
    destruct (label_eqb (fst r) y); lia.
Qed.

Lemma combine_nil_iff {A B} (a : list A) (b : list B) :
  length (combine a b) = 0%nat <-> a = [] \/ b = [].
Proof.
  destruct a, b; simpl; split; intros H; auto; try lia.
  destruct H; discriminate.
Qed.

(** X23: one fold of the evaluation, with a training step and a
    classifier that do not raise.  [run_knn_fold] returns exactly when a
    fold index [i] is passed and both [X_val] and [y_val] are non-empty.
    With the default [i = None] it raises [TypeError] (after training, and
    before any validation instance is classified); with an index and an
    empty [X_val] or [y_val] it raises [ZeroDivisionError]. *)
Theorem run_knn_fold_returns_iff :
  forall (instance label config classifier : Type)
         (label_eqb : label -> label -> bool)
         (new_fitted : config -> option Z -> list instance -> list label
                       -> run_result classifier)
         (k_neighbours : classifier -> instance -> label
                         -> run_result (label * classifier))
         (f : fold instance label) (cfg : config) (seed : option Z)
         (i : option nat) (elapsed : R) (alg : classifier),
    new_fitted cfg seed (X_train _ _ f) (y_train _ _ f) = Done alg ->
    (forall a x y, exists r, k_neighbours a x y = Done r) ->
    let outcome :=
      run_knn_fold instance label config classifier label_eqb new_fitted
                   k_neighbours f cfg seed i elapsed in
    ((exists r, outcome = Done r)
       <-> (i <> None /\ X_val _ _ f <> [] /\ y_val _ _ f <> []))
    /\ (i = None -> outcome = Failed TypeError)
    /\ (i <> None -> X_val _ _ f = [] \/ y_val _ _ f = [] ->
        outcome = Failed (Builtin ZeroDivisionError)).
Proof.
  intros instance label config classifier label_eqb new_fitted k_neighbours
         f cfg seed i elapsed alg Hfit Hk outcome.
  subst outcome. unfold run_knn_fold. rewrite Hfit. cbn [run_bind].
  destruct i as [i|]; cbn [run_bind].
  - destruct (count_corrects_bound instance label classifier label_eqb
                k_neighbours Hk
                (combine (X_val _ _ f) (y_val _ _ f)) alg 0%nat)
      as [c [Hc _]].
    rewrite Hc. cbn [run_bind].
    pose proof (combine_nil_iff (X_val _ _ f) (y_val _ _ f)) as Hnil.
    destruct (length (combine (X_val _ _ f) (y_val _ _ f)) =? 0)%nat eqn:E.
    + apply Nat.eqb_eq in E. apply Hnil in E.
      split; [|split].
      * split; [intros [r Hr]; discriminate|].
        intros [_ [H1 H2]]. destruct E; contradiction.
      * discriminate.
      * reflexivity.
    + apply Nat.eqb_neq in E.
      split; [|split].
      * split; [|intros _; eexists; reflexivity].
        intros _. split; [discriminate|].
        split; intros H; apply E, Hnil; auto.
      * discriminate.
      * intros _ H. exfalso. apply E, Hnil. exact H.
  - split; [|split].
    + split; [intros [r Hr]; discriminate|].
      intros [H _]. contradiction.
    + reflexivity.
    + intros H. contradiction.
Qed.

Lemma run_knn_fold_returns_iff_witness :
  let outcome :=
    run_knn_fold nat bool unit unit Bool.eqb
      (fun _ _ _ _ => Done tt) (fun a _ y => Done (y, a))
      (mkDataFold nat bool [1%nat] [true] [] []) tt None None 1 in
  ((exists r, outcome = Done r)
     <-> (@None nat <> None /\ @nil nat <> [] /\ @nil bool <> []))
  /\ (@None nat = None -> outcome = Failed TypeError)
  /\ (@None nat <> None -> @nil nat = [] \/ @nil bool = [] ->
      outcome = Failed (Builtin ZeroDivisionError)).
Proof.
  apply (run_knn_fold_returns_iff nat bool unit unit Bool.eqb
           (fun _ _ _ _ => Done tt) (fun a _ y => Done (y, a))
           (mkDataFold nat bool [1%nat] [true] [] []) tt None None 1 tt).
  - reflexivity.
  - intros a x y. eexists. reflexivity.
Defined.

Lemma count_corrects_predictions (instance label classifier : Type)
    (label_eqb : label -> label -> bool)
    (k_neighbours : classifier -> instance -> label
                    -> run_result (label * classifier)) :
  forall (val_data : list (instance * label)) (alg : classifier)
         (ps : list (label * label)) (c0 : nat),
    predictions instance label classifier k_neighbours alg val_data = Done ps ->
    length ps = length val_data
    /\ count_corrects instance label classifier label_eqb k_neighbours
                      alg val_data c0
       = Done (c0 + length (filter (fun p => label_eqb (fst p) (snd p)) ps))%nat.
Proof.
  induction val_data as [|[x y] rest IH]; intros alg ps c0 Hp; simpl in *.
  - inversion Hp; subst. simpl. split; [reflexivity | f_equal; lia].
  - destruct (k_neighbours alg x y) as [r|e]; simpl in *; [|discriminate].
    destruct (predictions instance label classifier k_neighbours (snd r) rest)
      as [ps'|e] eqn:E; simpl in *; [|discriminate].
    inversion Hp; subst. simpl.
    destruct (IH (snd r) ps'
                 (if label_eqb (fst r) y then S c0 else c0) E)
      as [Hl Hc].
    split; [congruence|]. rewrite Hc. f_equal.
    destruct (label_eqb (fst r) y); simpl; lia.
Qed.

Lemma filter_all {A} (f : A -> bool) (l : list A) :
  (length (filter f l) <= length l)%nat
  /\ (length (filter f l) = length l <-> forall x, In x l -> f x = true).
Proof.
  induction l as [|a l [IH1 IH2]]; simpl.
  - split; [lia|]. split; [intros _ x [] | reflexivity].
  - destruct (f a) eqn:E; simpl.
    + split; [lia|]. split.
      * intros H x [<-|Hx]; [exact E|]. apply IH2; [lia | exact Hx].
      * intros H. f_equal. apply IH2. intros x Hx. apply H. right. exact Hx.
    + split; [lia|]. split; [lia|].
      intros H. rewrite (H a) in E by (left; reflexivity). discriminate.
Qed.

(** X24: when [run_knn_fold] is given a fold index and non-empty
    validation data (and nothing it calls raises), it returns that index
    and, as accuracy, the number of pairs whose prediction equals the label
    over the number of pairs, which is the length of the shorter of [X_val]
    and [y_val] (Python's [/] on two integers, read here as the exact
    quotient).  The accuracy lies between 0 and 1, and it is 1 exactly
    when every prediction equals its label. *)
Theorem run_knn_fold_accuracy_in_unit_interval :
  forall (instance label config classifier : Type)
         (label_eqb : label -> label -> bool)
         (new_fitted : config -> option Z -> list instance -> list label
                       -> run_result classifier)
         (k_neighbours : classifier -> instance -> label
                         -> run_result (label * classifier))
         (f : fold instance label) (cfg : config) (seed : option Z)
         (i : nat) (elapsed : R) (alg : classifier)
         (ps : list (label * label)),
    new_fitted cfg seed (X_train _ _ f) (y_train _ _ f) = Done alg ->
    predictions instance label classifier k_neighbours alg
                (combine (X_val _ _ f) (y_val _ _ f)) = Done ps ->
    X_val _ _ f <> [] -> y_val _ _ f <> [] ->
    exists accuracy : R,
      run_knn_fold instance label config classifier label_eqb new_fitted
                   k_neighbours f cfg seed (Some i) elapsed
      = Done (Some i, (accuracy, elapsed))
      /\ accuracy
         = INR (length (filter (fun p => label_eqb (fst p) (snd p)) ps))
           / INR (Nat.min (length (X_val _ _ f)) (length (y_val _ _ f)))
      /\ 0 <= accuracy <= 1
      /\ (accuracy = 1 <->
          forall p, In p ps -> label_eqb (fst p) (snd p) = true).
Proof.
  intros instance label config classifier label_eqb new_fitted k_neighbours
         f cfg seed i elapsed alg ps Hfit Hps HX Hy.
  pose proof (combine_nil_iff (X_val _ _ f) (y_val _ _ f)) as Hnil.
  assert (Hlen : length (combine (X_val _ _ f) (y_val _ _ f)) <> 0%nat)
    by (intros E; apply Hnil in E; destruct E; contradiction).
  destruct (count_corrects_predictions instance label classifier label_eqb
              k_neighbours _ alg ps 0%nat Hps) as [Hl Hc].
  destruct (filter_all (fun p => label_eqb (fst p) (snd p)) ps) as [Hle Hall].
  rewrite length_combine in Hlen, Hl.
  set (total := Nat.min (length (X_val _ _ f)) (length (y_val _ _ f))) in *.
  set (c := length (filter (fun p => label_eqb (fst p) (snd p)) ps)) in *.
  assert (Hpos : 0 < INR total) by (apply lt_0_INR; lia).
  assert (Hc0 : 0 <= INR c) by apply pos_INR.
  assert (Hc1 : INR c <= INR total) by (apply le_INR; lia).
  exists (INR c / INR total). split; [|split; [reflexivity|split]].
  - unfold run_knn_fold. rewrite Hfit. cbn [run_bind].
    rewrite Hc. cbn [run_bind]. rewrite length_combine. fold total.
    destruct (total =? 0)%nat eqn:E; [apply Nat.eqb_eq in E; lia|].
    reflexivity.
  - split.
    + apply Rmult_le_pos; [exact Hc0|].
      apply Rlt_le, Rinv_0_lt_compat, Hpos.
    + apply (Rmult_le_reg_r (INR total)); [exact Hpos|].
      unfold Rdiv. rewrite Rmult_assoc, Rinv_l by lra. lra.
  - rewrite <- Hall. rewrite Hl. split.
    + intros E. apply INR_eq.
      apply (Rmult_eq_compat_r (INR total)) in E.
      unfold Rdiv in E. rewrite Rmult_assoc, Rinv_l in E by lra. lra.
    + intros E. fold c in E. rewrite E. unfold Rdiv. apply Rinv_r. lra.
Qed.

Lemma run_knn_fold_accuracy_in_unit_interval_witness :
  exists accuracy : R,
    run_knn_fold nat bool unit unit Bool.eqb
      (fun _ _ _ _ => Done tt) (fun a _ _ => Done (true, a))
      (mkDataFold nat bool [] [] [1%nat; 2%nat; 3%nat] [true; false]) tt None
      (Some 4%nat) 1
    = Done (Some 4%nat, (accuracy, 1))
    /\ accuracy
       = INR (length (filter (fun p => Bool.eqb (fst p) (snd p))
                             [(true, true); (true, false)]))
         / INR (Nat.min 3 2)
    /\ 0 <= accuracy <= 1
    /\ (accuracy = 1 <->
        forall p, In p [(true, true); (true, false)] ->
                  Bool.eqb (fst p) (snd p) = true).
Proof.
  apply (run_knn_fold_accuracy_in_unit_interval nat bool unit unit Bool.eqb
           (fun _ _ _ _ => Done tt) (fun a _ _ => Done (true, a))
           (mkDataFold nat bool [] [] [1%nat; 2%nat; 3%nat] [true; false])
           tt None 4%nat 1 tt [(true, true); (true, false)]).
  - reflexivity.
  - reflexivity.
  - discriminate.
  - discriminate.
Defined.

(* ------------------------------------------------------------------ *)
(** ** The two verdict matrices of [run_stat_select_kIBL] *)

Lemma run_mapM_map {A B} (f : A -> run_result B) (g : A -> B) (l : list A) :
  (forall x, In x l -> f x = Done (g x)) ->
  run_mapM f l = Done (map g l).
Proof.
  intros H. rewrite <- (run_mapM_total g). apply run_mapM_ext. exact H.
Qed.

Lemma nth_map_lt {A B} (f : A -> B) (l : list A) (i : nat) (d : A) (d' : B) :
  (i < length l)%nat -> nth i (map f l) d' = f (nth i l d).
Proof.
  intros H. rewrite (nth_indep _ d' (f d)) by (rewrite length_map; exact H).
  apply map_nth.
Qed.

Lemma compute_stat_test_returns
    (wilcoxon ttest_ind :
       list float64 -> list float64 -> run_result (float64 * float64))
    (test : String.string) (s1 s2 : list float64) :
  test = "wilcoxon"%string \/ test = "ttest"%string ->
  ((exists r, (if String.eqb test "wilcoxon" then wilcoxon else ttest_ind) s1 s2
              = Done r)
   \/ (if String.eqb test "wilcoxon" then wilcoxon else ttest_ind) s1 s2
      = Failed (Builtin ValueError)) ->
  exists r, compute_stat_test wilcoxon ttest_ind s1 s2 test = Done r.
Proof.
  intros Ht H. unfold compute_stat_test.
  replace (negb (known_test test)) with false
    by (destruct Ht as [-> | ->]; reflexivity).
  replace (String.eqb test "anova") with false
    by (destruct Ht as [-> | ->]; reflexivity).
  cbv zeta. destruct H as [[[st pv] H] | H]; rewrite H; eexists; reflexivity.
Qed.

Lemma stats_cell_returns
    (wilcoxon ttest_ind :
       list float64 -> list float64 -> run_result (float64 * float64))
    (model_eq : nat -> nat -> bool)
    (test : String.string) (i j : nat) (model1 model2 : model_score) :
  test = "wilcoxon"%string \/ test = "ttest"%string ->
  (forall s1 s2,
     (exists r, (if String.eqb test "wilcoxon" then wilcoxon else ttest_ind) s1 s2
                = Done r)
     \/ (if String.eqb test "wilcoxon" then wilcoxon else ttest_ind) s1 s2
        = Failed (Builtin ValueError)) ->
  exists st pa pt,
    stats_cell wilcoxon ttest_ind model_eq test i j model1 model2
    = Done ([st; pa], [st; pt]).
Proof.
  intros Ht H. unfold stats_cell.
  destruct (model_eq i j); [exists NaN, NaN, NaN; reflexivity|].
  cbv zeta.
  destruct (compute_stat_test_returns wilcoxon ttest_ind test
              (map accuracy (results model1)) (map accuracy (results model2))
              Ht (H _ _)) as [ra Ha].
  destruct (compute_stat_test_returns wilcoxon ttest_ind test
              (map time (results model1)) (map time (results model2))
              Ht (H _ _)) as [rt Hr].
  rewrite Ha, Hr. simpl. exists (stat ra), (p ra), (p rt). reflexivity.
Qed.

(** X25: when the JSON file decodes to [results], the two pickle files
    can be written and the scipy test raises nothing but [ValueError],
    what [run_stat_select_kIBL] goes on to plot and summarise (and so its
    outcome) are two square verdict matrices that never name different
    winners: wherever [select_mat_time] and [select_mat_acc] are both
    nonzero they are equal, because the cell of [stats_time] is filled
    with the statistic of the accuracy test. *)
Theorem time_and_accuracy_verdicts_never_disagree :
  forall (wilcoxon ttest_ind :
            list float64 -> list float64 -> run_result (float64 * float64))
         (model_eq : nat -> nat -> bool)
         (read_results : String.string -> run_result (list model_score))
         (pickle_dump :
            list (list (list float64)) -> String.string -> run_result unit)
         (report : String.string -> list (list float64) -> list (list float64)
                   -> run_result unit)
         (kIBL_json_path name test : String.string)
         (rs : list model_score),
    test = "wilcoxon"%string \/ test = "ttest"%string ->
    (forall s1 s2,
       (exists r, (if String.eqb test "wilcoxon" then wilcoxon else ttest_ind)
                    s1 s2 = Done r)
       \/ (if String.eqb test "wilcoxon" then wilcoxon else ttest_ind) s1 s2
          = Failed (Builtin ValueError)) ->
    read_results kIBL_json_path = Done rs ->
    (forall arr file, pickle_dump arr file = Done tt) ->
    exists select_mat_acc select_mat_time,
      run_stat_select_kIBL wilcoxon ttest_ind model_eq read_results
                           pickle_dump report kIBL_json_path name test
      = report name select_mat_acc select_mat_time
      /\ has_shape (length rs) (length rs) select_mat_acc
      /\ has_shape (length rs) (length rs) select_mat_time
      /\ forall i j, (i < length rs)%nat -> (j < length rs)%nat ->
           entry select_mat_time i j = Fin 0
           \/ entry select_mat_acc i j = Fin 0
           \/ entry select_mat_time i j = entry select_mat_acc i j.
Proof.
  intros wilcoxon ttest_ind model_eq read_results pickle_dump report
         kIBL_json_path name test rs Ht H Hread Hdump.
  set (cell := fun (m1 m2 : nat * model_score) =>
         match stats_cell wilcoxon ttest_ind model_eq test
                          (fst m1) (fst m2) (snd m1) (snd m2) with
         | Done c => c
         | Failed _ => ([NaN; NaN], [NaN; NaN])
         end).
  assert (Hcell : forall m1 m2,
            stats_cell wilcoxon ttest_ind model_eq test
                       (fst m1) (fst m2) (snd m1) (snd m2)
            = Done (cell m1 m2)).
  { intros m1 m2. unfold cell.
    destruct (stats_cell_returns wilcoxon ttest_ind model_eq test
                (fst m1) (fst m2) (snd m1) (snd m2) Ht H)
      as [st [pa [pt E]]]. rewrite E. reflexivity. }
  assert (Hform : forall m1 m2, exists st pa pt,
            cell m1 m2 = ([st; pa], [st; pt])).
  { intros m1 m2.
    destruct (stats_cell_returns wilcoxon ttest_ind model_eq test
                (fst m1) (fst m2) (snd m1) (snd m2) Ht H)
      as [st [pa [pt E]]]. exists st, pa, pt.
    pose proof (Hcell m1 m2) as E'. rewrite E in E'. inversion E'. reflexivity. }
  set (n := length rs).
  set (ers := enumerate rs).
  assert (Hers : length ers = n).
  { unfold ers, enumerate, range.
    rewrite length_combine, length_seq. apply Nat.min_id. }
  set (cells := map (fun m1 => map (fun m2 => cell m1 m2) ers) ers).
  assert (Hshape : forall (pick : list float64 * list float64 -> list float64),
            (forall m1 m2, (2 <= length (pick (cell m1 m2)))%nat) ->
            stat_shaped n n (map (map pick) cells)).
  { intros pick Hpick. unfold cells. split.
    - rewrite !length_map. exact Hers.
    - apply Forall_forall. intros row Hrow.
      apply in_map_iff in Hrow. destruct Hrow as [row' [<- Hrow']].
      apply in_map_iff in Hrow'. destruct Hrow' as [m1 [<- _]].
      split; [rewrite !length_map; exact Hers|].
      apply Forall_forall. intros c Hc.
      apply in_map_iff in Hc. destruct Hc as [c' [<- Hc']].
      apply in_map_iff in Hc'. destruct Hc' as [m2 [<- _]].
      apply Hpick. }
  assert (Sa : stat_shaped n n (map (map fst) cells)).
  { apply Hshape. intros m1 m2.
    destruct (Hform m1 m2) as [st [pa [pt E]]]. rewrite E. simpl. lia. }
  assert (St : stat_shaped n n (map (map snd) cells)).
  { apply Hshape. intros m1 m2.
    destruct (Hform m1 m2) as [st [pa [pt E]]]. rewrite E. simpl. lia. }
  assert (Hat : forall (pick : list float64 * list float64 -> list float64)
                       i j k, (i < n)%nat -> (j < n)%nat ->
            nth k (nth j (nth i (map (map pick) cells) []) []) NaN
            = nth k (pick (cell (nth i ers (0%nat, mkModel []))
                                (nth j ers (0%nat, mkModel []))))
                  NaN).
  { intros pick i j k Hi Hj. unfold cells.
    rewrite (nth_map_lt (map pick) _ i [])
      by (rewrite length_map, Hers; exact Hi).
    rewrite (nth_map_lt _ ers i (0%nat, mkModel [])) by (rewrite Hers; exact Hi).
    rewrite (nth_map_lt pick _ j ([], []))
      by (rewrite length_map, Hers; exact Hj).
    rewrite (nth_map_lt _ ers j (0%nat, mkModel [])) by (rewrite Hers; exact Hj).
    reflexivity. }
  eexists. eexists. split; [|split; [|split]].
  - unfold run_stat_select_kIBL.
    replace (negb (known_test test)) with false
      by (destruct Ht as [-> | ->]; reflexivity).
    replace (String.eqb test "anova") with false
      by (destruct Ht as [-> | ->]; reflexivity).
    rewrite Hread. cbn [run_bind]. fold ers.
    rewrite (run_mapM_map _ (fun m1 => map (fun m2 => cell m1 m2) ers)).
    2:{ intros m1 _. apply run_mapM_map. intros m2 _. apply Hcell. }
    cbn [run_bind]. fold cells. cbv zeta. rewrite !Hdump. cbn [run_bind].
    rewrite (eval_stat_test_run _ rs test (5/100) n n Sa Ht)
      by (unfold n; lia).
    cbn [run_bind].
    rewrite (eval_stat_test_run _ rs test (5/100) n n St Ht)
      by (unfold n; lia).
    cbn [run_bind]. reflexivity.
  - apply map_range_shape.
  - apply map_range_shape.
  - intros i j Hi Hj. rewrite !map_range_entry by assumption.
    unfold statistic_at, p_value_at. rewrite !Hat by assumption.
    destruct (Hform (nth i ers (0%nat, mkModel []))
                    (nth j ers (0%nat, mkModel [])))
      as [st [pa [pt E]]].
    rewrite E. simpl. unfold verdict.
    destruct (flt pt (Fin (5/100))); [|left; reflexivity].
    destruct (flt pa (Fin (5/100))); [|right; left; reflexivity].
    right; right; reflexivity.
Qed.

Lemma time_and_accuracy_verdicts_never_disagree_witness :
  exists select_mat_acc select_mat_time,
    run_stat_select_kIBL
      (fun _ _ => Failed (Builtin ValueError))
      (fun s1 s2 => Done (fsub (fsum s1) (fsum s2), Fin (1/100)))
      Nat.eqb
      (fun _ => Done [mkModel [mkFold (Fin 1) (Fin 5)];
                      mkModel [mkFold (Fin 0) (Fin 7)]])
      (fun _ _ => Done tt)
      (fun _ _ _ => Done tt)
      "output/results.json"%string "pen-based"%string "ttest"%string
    = (fun _ _ _ => Done tt) "pen-based"%string select_mat_acc select_mat_time
    /\ has_shape 2 2 select_mat_acc
    /\ has_shape 2 2 select_mat_time
    /\ forall i j, (i < 2)%nat -> (j < 2)%nat ->
         entry select_mat_time i j = Fin 0
         \/ entry select_mat_acc i j = Fin 0
         \/ entry select_mat_time i j = entry select_mat_acc i j.
Proof.
  apply (time_and_accuracy_verdicts_never_disagree
           (fun _ _ => Failed (Builtin ValueError))
           (fun s1 s2 => Done (fsub (fsum s1) (fsum s2), Fin (1/100)))
           Nat.eqb
           (fun _ => Done [mkModel [mkFold (Fin 1) (Fin 5)];
                           mkModel [mkFold (Fin 0) (Fin 7)]])
           (fun _ _ => Done tt)
           (fun _ _ _ => Done tt)
           "output/results.json"%string "pen-based"%string "ttest"%string
           [mkModel [mkFold (Fin 1) (Fin 5)]; mkModel [mkFold (Fin 0) (Fin 7)]]).
  - right. reflexivity.
  - intros s1 s2. left. eexists. reflexivity.
  - reflexivity.
  - reflexivity.
Defined.
